(** * SlotSwapper: the swap-negotiation core

    A shallow embedding of the backend of the SlotSwapper application:
    - the Mongoose models [Event] and [SwapRequest] (schemas, validators,
      hooks and instance methods),
    - the middleware [checkResourceOwnership],
    - the Express routes of [routes/events.js] and [routes/swaps.js].

    Conventions of the embedding.
    - An ObjectId is a [nat]; a [Date] is a [Z] (milliseconds since the
      epoch); a JavaScript string is a [string] of ASCII code units.
    - A collection is a finite map from [_id] to document.
    - A handler runs at one clock reading [now]: every [new Date()] and
      [Date.now()] of one request evaluates to it.
    - Every write to the store may fail.  The outcomes of the successive
      writes of one request are given by a list of booleans ([true]: the
      write fails and throws); the empty list is the run with no failure.
    - [doc.save()] is Mongoose's: it runs the validators of the schema on
      the document, then the pre-save hooks, then sends the insert or the
      update, then runs the post-save hooks; the [isNew] flag of a new
      document is cleared when the insert is sent, before the post-save
      hooks.  [findByIdAndUpdate] runs neither validators nor hooks.
      [withTransaction] is taken without its retries.
    - Bookkeeping paths of Mongoose ([__v], and [createdAt]/[updatedAt] of
      events) are not represented. *)

From stdpp Require Import gmap strings list fin_maps sorting.
From Stdlib Require Import ZArith Lia.

Local Open Scope Z_scope.

(** ** JavaScript strings *)

Module Js.

(** [String.prototype.trim] on ASCII code units. *)
Fixpoint dropSpaces (l : list Ascii.ascii) : list Ascii.ascii :=
  match l with
  | [] => []
  | c :: l' => if Ascii.is_space c then dropSpaces l' else l
  end.

Definition trimStart (l : list Ascii.ascii) : list Ascii.ascii := dropSpaces l.

Definition trimEnd (l : list Ascii.ascii) : list Ascii.ascii :=
  rev (dropSpaces (rev l)).

Definition trim (s : string) : string :=
  String.string_of_list_ascii
    (trimEnd (trimStart (String.list_ascii_of_string s))).

Fixpoint startsWith (p s : string) : bool :=
  match p, s with
  | EmptyString, _ => true
  | String a p', String b s' => bool_decide (a = b) && startsWith p' s'
  | String _ _, EmptyString => false
  end.

(** [String.prototype.includes] *)
Fixpoint includes (s needle : string) : bool :=
  startsWith needle s ||
  match s with
  | EmptyString => false
  | String _ s' => includes s' needle
  end.

(** Truthiness of a string: the empty string is falsy. *)
Definition truthy (s : string) : bool :=
  match s with EmptyString => false | String _ _ => true end.

(** express-validator's [isLength] *)
Definition isLength (lo hi : nat) (s : string) : bool :=
  bool_decide (lo ≤ String.length s ≤ hi)%nat.

(** [Math.round(num / den)] for integers [num] and [den > 0]: the nearest
    integer, a tie going up.  (The quotient of the source is a double; it
    rounds as the exact quotient does for every [num] below 2^37 * [den]
    when [den] is 60000.) *)
Definition round_div (num den : Z) : Z := (2 * num + den) / (2 * den).

(** [Math.ceil(a / b)] for naturals [a] and [b > 0]. *)
Definition ceil_div (a b : nat) : nat :=
  (a / b + if bool_decide (a `mod` b = 0) then 0 else 1)%nat.

End Js.

(** ** models/Event.js: the schema *)

Module Event.

Inductive Status := BUSY | SWAPPABLE | SWAP_PENDING.
Inductive Category := work | personal | meeting | appointment | other.

Global Instance Status_eq_dec : EqDecision Status.
Proof. solve_decision. Defined.
Global Instance Category_eq_dec : EqDecision Category.
Proof. solve_decision. Defined.

Record HistoryEntry := {
  swappedWith : nat;
  swappedAt : Z;
  swapRequestId : nat
}.

Record doc := {
  title : string;
  description : string;
  startTime : Z;
  endTime : Z;
  status : Status;            (* default BUSY *)
  userId : nat;
  originalUserId : option nat; (* default null *)
  category : Category;        (* default other *)
  location : string;
  isRecurring : bool;
  swapHistory : list HistoryEntry
}.

Definition set_status (s : Status) (e : doc) : doc :=
  {| title := title e; description := description e;
     startTime := startTime e; endTime := endTime e;
     status := s; userId := userId e;
     originalUserId := originalUserId e; category := category e;
     location := location e; isRecurring := isRecurring e;
     swapHistory := swapHistory e |}.

Definition set_userId (u : nat) (e : doc) : doc :=
  {| title := title e; description := description e;
     startTime := startTime e; endTime := endTime e;
     status := status e; userId := u;
     originalUserId := originalUserId e; category := category e;
     location := location e; isRecurring := isRecurring e;
     swapHistory := swapHistory e |}.

Definition set_originalUserId (o : option nat) (e : doc) : doc :=
  {| title := title e; description := description e;
     startTime := startTime e; endTime := endTime e;
     status := status e; userId := userId e;
     originalUserId := o; category := category e;
     location := location e; isRecurring := isRecurring e;
     swapHistory := swapHistory e |}.

Definition push_swapHistory (h : HistoryEntry) (e : doc) : doc :=
  {| title := title e; description := description e;
     startTime := startTime e; endTime := endTime e;
     status := status e; userId := userId e;
     originalUserId := originalUserId e; category := category e;
     location := location e; isRecurring := isRecurring e;
     swapHistory := swapHistory e ++ [h] |}.

(** The validators of the schema, as [save()] runs them on a document:
    [required], [minlength] and [maxlength] of the string paths, and the
    two [validate.validator] functions of [startTime] and [endTime].
    [enum] and the [required] of the other paths hold by typing. *)
Definition startTime_validator (now : Z) (value : Z) : bool :=
  bool_decide (value > now).

Definition endTime_validator (this : doc) (value : Z) : bool :=
  bool_decide (value > startTime this).

Definition validate (now : Z) (e : doc) : bool :=
  Js.isLength 1 100 (title e) &&
  Js.isLength 0 500 (description e) &&
  startTime_validator now (startTime e) &&
  endTime_validator e (endTime e) &&
  Js.isLength 0 200 (location e).

(** [eventSchema.pre('save')] *)
Definition pre_save (isNew : bool) (this : doc) : doc :=
  if isNew && bool_decide (originalUserId this = None)
  then set_originalUserId (Some (userId this)) this
  else this.

(** The virtuals and the pure instance methods. *)
Definition isPast (now : Z) (this : doc) : bool :=
  bool_decide (endTime this < now).

Definition isActive (now : Z) (this : doc) : bool :=
  bool_decide (startTime this ≤ now) && bool_decide (endTime this > now).

Definition canBeSwapped (now : Z) (this : doc) : bool :=
  bool_decide (status this = SWAPPABLE) && bool_decide (startTime this > now).

Definition hasConflictWith (this otherEvent : doc) : bool :=
  bool_decide (startTime this < endTime otherEvent) &&
  bool_decide (endTime this > startTime otherEvent).

(** virtual [duration], in minutes *)
Definition duration (this : doc) : Z :=
  Js.round_div (endTime this - startTime this) (1000 * 60).

End Event.

(** ** models/SwapRequest.js: the schema *)

Module SwapRequest.

Inductive Status := PENDING | ACCEPTED | REJECTED | CANCELLED.

Global Instance Status_eq_dec : EqDecision Status.
Proof. solve_decision. Defined.

Definition status_name (s : Status) : string :=
  match s with
  | PENDING => "PENDING" | ACCEPTED => "ACCEPTED"
  | REJECTED => "REJECTED" | CANCELLED => "CANCELLED"
  end.

Record doc := {
  mySlotId : nat;
  theirSlotId : nat;
  requestedBy : nat;
  requestedTo : nat;
  status : Status;           (* default PENDING *)
  message : string;          (* trim, default '' *)
  responseMessage : string;  (* trim, default '' *)
  respondedAt : option Z;    (* default null *)
  expiresAt : Z;             (* default now + 7 days *)
  createdAt : Z              (* timestamps: true *)
}.

(** [7 * 24 * 60 * 60 * 1000] *)
Definition sevenDays : Z := 7 * 24 * 60 * 60 * 1000.

Definition set_status (s : Status) (r : doc) : doc :=
  {| mySlotId := mySlotId r; theirSlotId := theirSlotId r;
     requestedBy := requestedBy r; requestedTo := requestedTo r;
     status := s; message := message r;
     responseMessage := responseMessage r;
     respondedAt := respondedAt r;
     expiresAt := expiresAt r; createdAt := createdAt r |}.

(** Assignment to [responseMessage]; the schema's [trim] setter runs. *)
Definition set_responseMessage (m : string) (r : doc) : doc :=
  {| mySlotId := mySlotId r; theirSlotId := theirSlotId r;
     requestedBy := requestedBy r; requestedTo := requestedTo r;
     status := status r; message := message r;
     responseMessage := Js.trim m;
     respondedAt := respondedAt r;
     expiresAt := expiresAt r; createdAt := createdAt r |}.

Definition set_respondedAt (t : Z) (r : doc) : doc :=
  {| mySlotId := mySlotId r; theirSlotId := theirSlotId r;
     requestedBy := requestedBy r; requestedTo := requestedTo r;
     status := status r; message := message r;
     responseMessage := responseMessage r;
     respondedAt := Some t;
     expiresAt := expiresAt r; createdAt := createdAt r |}.

(** [maxlength] of the two messages; the other validators hold by typing. *)
Definition validate (r : doc) : bool :=
  Js.isLength 0 300 (message r) && Js.isLength 0 300 (responseMessage r).

(** virtual [isExpired] *)
Definition isExpired (now : Z) (this : doc) : bool :=
  bool_decide (expiresAt this < now).

(** virtual [isPending] *)
Definition isPending (now : Z) (this : doc) : bool :=
  bool_decide (status this = PENDING) && negb (isExpired now this).

(** The unique partial index
    [{ mySlotId: 1, theirSlotId: 1, status: 1 }] with
    [partialFilterExpression: { status: 'PENDING' }]: two distinct
    documents inside the filter may not agree on the key. *)
Definition index_key (r : doc) : nat * nat * Status :=
  (mySlotId r, theirSlotId r, status r).

Definition in_partial_filter (r : doc) : bool :=
  bool_decide (status r = PENDING).

End SwapRequest.

(** ** The store and the effects of a handler *)

Record DB := {
  events : gmap nat Event.doc;
  swapRequests : gmap nat SwapRequest.doc
}.

Definition with_events (f : gmap nat Event.doc → gmap nat Event.doc) (d : DB) : DB :=
  {| events := f (events d); swapRequests := swapRequests d |}.

Definition with_swapRequests
    (f : gmap nat SwapRequest.doc → gmap nat SwapRequest.doc) (d : DB) : DB :=
  {| events := events d; swapRequests := f (swapRequests d) |}.

(** What a handler can throw. *)
Inductive Exn :=
| Error (message : string)       (* [new Error(message)] *)
| ValidationError (model : string) (* a schema validator failed in [save()] *)
| DuplicateKeyError              (* E11000, a unique index refused a write *)
| StoreError.                    (* the driver or the connection failed *)

(** [error.message]; the texts of the last three are the library's. *)
Definition exn_message (e : Exn) : string :=
  match e with
  | Error m => m
  | ValidationError model => model +:+ " validation failed"
  | DuplicateKeyError => "E11000 duplicate key error collection"
  | StoreError => "store operation failed"
  end.

Inductive Outcome (A : Type) : Type :=
| Returned (a : A)
| Thrown (e : Exn).
Arguments Returned {A} a.
Arguments Thrown {A} e.

(** The state of one request: the store and the outcomes of the writes
    still to come. *)
Record World := { db : DB; faults : list bool }.

Definition M (A : Type) : Type := World → World * Outcome A.

Global Instance M_ret : MRet M := λ A a w, (w, Returned a).

Global Instance M_bind : MBind M := λ A B k m w,
  match m w with
  | (w', Returned a) => k a w'
  | (w', Thrown e) => (w', Thrown e)
  end.

Definition throw {A} (e : Exn) : M A := λ w, (w, Thrown e).

Definition try_catch {A} (m : M A) (handler : Exn → M A) : M A := λ w,
  match m w with
  | (w', Returned a) => (w', Returned a)
  | (w', Thrown e) => handler e w'
  end.

Definition read {A} (f : DB → A) : M A := λ w, (w, Returned (f (db w))).

Definition next_fault (fs : list bool) : bool * list bool :=
  match fs with
  | [] => (false, [])
  | b :: fs' => (b, fs')
  end.

(** One write operation sent to the store. *)
Definition write (f : DB → Outcome DB) : M () := λ w,
  let '(failed, fs) := next_fault (faults w) in
  if failed then ({| db := db w; faults := fs |}, Thrown StoreError)
  else match f (db w) with
       | Returned d => ({| db := d; faults := fs |}, Returned ())
       | Thrown e => ({| db := db w; faults := fs |}, Thrown e)
       end.

(** [Promise.all([a, b])]: both operations are started; the result is
    rejected when one of them is, and the other still takes effect. *)
Definition promise_all2 {A B} (a : M A) (b : M B) : M (A * B) := λ w,
  let '(w1, ra) := a w in
  let '(w2, rb) := b w1 in
  (w2, match ra, rb with
       | Returned x, Returned y => Returned (x, y)
       | Thrown e, _ => Thrown e
       | _, Thrown e => Thrown e
       end).

(** [session.withTransaction(body)]: the writes of [body] are kept when
    [body] returns and the commit succeeds, and undone otherwise. *)
Definition withTransaction {A} (body : M A) : M A := λ w,
  match body w with
  | (w', Returned a) =>
      let '(failed, fs) := next_fault (faults w') in
      if failed then ({| db := db w; faults := fs |}, Thrown StoreError)
      else ({| db := db w'; faults := fs |}, Returned a)
  | (w', Thrown e) => ({| db := db w; faults := faults w' |}, Thrown e)
  end.

(** Running a handler on a store with given write outcomes. *)
Definition run {A} (fs : list bool) (d : DB) (m : World → World * A) : DB * A :=
  let '(w, a) := m {| db := d; faults := fs |} in (db w, a).

(** ** models/Event.js: the model *)

Module EventModel.
Import Event.

Definition findById (id : nat) : M (option doc) :=
  read (λ d, events d !! id).

(** [Event.find(query)] *)
Definition find (query : nat → doc → bool) : M (list (nat * doc)) :=
  read (λ d, filter (λ p, query p.1 p.2 = true) (map_to_list (events d))).

(** [Event.findByIdAndUpdate(id, update)]: no validators, no hooks; a
    missing document is not an error. *)
Definition findByIdAndUpdate (id : nat) (update : doc → doc) : M () :=
  write (λ d, Returned (with_events (alter update id) d)).

Definition findByIdAndDelete (id : nat) : M () :=
  write (λ d, Returned (with_events (delete id) d)).

(** [doc.save()]: validation, the pre-save hook, then the write. *)
Definition save (now : Z) (isNew : bool) (id : nat) (this : doc) : M doc :=
  if negb (validate now this) then throw (ValidationError "Event")
  else
    let this := pre_save isNew this in
    _ ← write (λ d, Returned (with_events (insert id this) d));
    mret this.

(** [eventSchema.methods.markAsSwappable] *)
Definition markAsSwappable (now : Z) (id : nat) (this : doc) : M doc :=
  if bool_decide (startTime this ≤ now) then
    throw (Error "Cannot mark past events as swappable")
  else
    let this := set_status SWAPPABLE this in
    save now false id this.

(** [eventSchema.methods.markAsBusy] *)
Definition markAsBusy (now : Z) (id : nat) (this : doc) : M doc :=
  let this := set_status BUSY this in
  save now false id this.

(** [.sort({ startTime: 1 })] *)
Definition earlier_first (a b : nat * doc) : Prop :=
  startTime a.2 ≤ startTime b.2.

Global Instance earlier_first_dec : RelDecision earlier_first.
Proof. intros a b. unfold earlier_first. apply _. Defined.

(** [cursor.limit(n)]: a limit of 0 is no limit. *)
Definition limit {A} (n : nat) (l : list A) : list A :=
  match n with O => l | S _ => take n l end.

(** [eventSchema.statics.findSwappableEvents]; the [populate] of the owner
    is not represented. *)
Definition findSwappableEvents (now : Z) (excludeUserId : nat)
    (limit : option nat) : M (list (nat * doc)) :=
  let limit := default 50%nat limit in
  found ← find (λ _ e,
    bool_decide (status e = SWAPPABLE) &&
    bool_decide (userId e ≠ excludeUserId) &&
    bool_decide (startTime e > now));
  mret (EventModel.limit limit (merge_sort earlier_first found)).

(** [eventSchema.statics.findUserEvents] *)
Definition findUserEvents (now : Z) (userId : nat) (includeAll : bool)
    : M (list (nat * doc)) :=
  found ← find (λ _ e,
    bool_decide (Event.userId e = userId) &&
    (if negb includeAll then bool_decide (startTime e > now) else true));
  mret (merge_sort earlier_first found).

End EventModel.

(** ** models/SwapRequest.js: hooks, statics and instance methods *)

Module SwapRequestModel.
Import SwapRequest.

Definition findById (id : nat) : M (option doc) :=
  read (λ d, swapRequests d !! id).

(** [SwapRequest.find(query)], before sorting and paging. *)
Definition find (query : doc → bool) : M (list (nat * doc)) :=
  read (λ d, filter (λ p, query p.2 = true) (map_to_list (swapRequests d))).

(** [SwapRequest.findOne(query)], used for its truthiness only. *)
Definition findOne (query : doc → bool) : M bool :=
  read (λ d, existsb (λ p, query p.2) (map_to_list (swapRequests d))).

(** Would writing [r] under [id] break the unique partial index? *)
Definition index_conflict (reqs : gmap nat doc) (id : nat) (r : doc) : bool :=
  in_partial_filter r &&
  existsb (λ p, bool_decide (p.1 ≠ id) && in_partial_filter p.2 &&
                bool_decide (index_key p.2 = index_key r))
          (map_to_list reqs).

(** The insert or update that [save()] sends. *)
Definition store_doc (id : nat) (r : doc) : M () :=
  write (λ d, if index_conflict (swapRequests d) id r
              then Thrown DuplicateKeyError
              else Returned (with_swapRequests (insert id r) d)).

(** [swapRequestSchema.pre('save')] *)
Definition pre_save (now : Z) (isNew : bool) (this : doc) : M () :=
  if isNew then
    '(mySlot, theirSlot) ←
      promise_all2 (EventModel.findById (mySlotId this))
                   (EventModel.findById (theirSlotId this));
    match mySlot, theirSlot with
    | Some mySlot, Some theirSlot =>
        if bool_decide (Event.userId mySlot ≠ requestedBy this) then
          throw (Error "You can only swap your own slots")
        else if bool_decide (Event.userId theirSlot ≠ requestedTo this) then
          throw (Error "Invalid target slot owner")
        else if bool_decide (Event.status mySlot ≠ Event.SWAPPABLE) then
          throw (Error "Your slot must be swappable")
        else if bool_decide (Event.status theirSlot ≠ Event.SWAPPABLE) then
          throw (Error "Target slot must be swappable")
        else if bool_decide (Event.startTime mySlot ≤ now) ||
                bool_decide (Event.startTime theirSlot ≤ now) then
          throw (Error "Cannot swap past events")
        else mret ()
    | _, _ => throw (Error "One or both slots do not exist")
    end
  else mret ().

(** [swapRequestSchema.post('save')]; [isNew] is what [doc.isNew] reads
    when the hook runs.  A failure of the updates is logged and dropped. *)
Definition post_save (isNew : bool) (saved : doc) : M () :=
  if isNew && bool_decide (status saved = PENDING) then
    try_catch
      (_ ← promise_all2
             (EventModel.findByIdAndUpdate (mySlotId saved)
                (Event.set_status Event.SWAP_PENDING))
             (EventModel.findByIdAndUpdate (theirSlotId saved)
                (Event.set_status Event.SWAP_PENDING));
       mret ())
      (λ _, mret ())
  else mret ().

(** [doc.save()]: validation, the pre-save hook, the write, the post-save
    hook.  Mongoose clears the document's [isNew] flag when it sends the
    insert, so the post-save hook of every save reads [isNew = false]. *)
Definition save (now : Z) (isNew : bool) (id : nat) (this : doc) : M () :=
  if negb (validate this) then throw (ValidationError "SwapRequest")
  else
    _ ← pre_save now isNew this;
    _ ← store_doc id this;
    let isNew := false in
    post_save isNew this.

(** [swapRequestSchema.methods.accept] *)
Definition accept (now : Z) (id : nat) (this : doc) (responseMessage : string)
    : M doc :=
  if bool_decide (status this ≠ PENDING) then
    throw (Error "Request is no longer pending")
  else if isExpired now this then
    throw (Error "Request has expired")
  else
    withTransaction (
      '(mySlot, theirSlot) ←
        promise_all2 (EventModel.findById (mySlotId this))
                     (EventModel.findById (theirSlotId this));
      match mySlot, theirSlot with
      | Some mySlot, Some theirSlot =>
          (* swap the userIds *)
          let tempUserId := Event.userId mySlot in
          let mySlot := Event.set_userId (Event.userId theirSlot) mySlot in
          let theirSlot := Event.set_userId tempUserId theirSlot in
          (* statuses to BUSY *)
          let mySlot := Event.set_status Event.BUSY mySlot in
          let theirSlot := Event.set_status Event.BUSY theirSlot in
          (* swap history *)
          let swapHistoryEntry :=
            {| Event.swappedWith := Event.userId theirSlot;
               Event.swappedAt := now;
               Event.swapRequestId := id |} in
          let mySlot :=
            Event.push_swapHistory
              {| Event.swappedWith := Event.userId mySlot;
                 Event.swappedAt := now;
                 Event.swapRequestId := id |} mySlot in
          let theirSlot := Event.push_swapHistory swapHistoryEntry theirSlot in
          _ ← promise_all2
                (EventModel.save now false (mySlotId this) mySlot)
                (EventModel.save now false (theirSlotId this) theirSlot);
          let this := set_status ACCEPTED this in
          let this := set_responseMessage responseMessage this in
          let this := set_respondedAt now this in
          _ ← save now false id this;
          mret this
      | _, _ => throw (Error "One or both slots no longer exist")
      end).

(** [swapRequestSchema.methods.reject] *)
Definition reject (now : Z) (id : nat) (this : doc) (responseMessage : string)
    : M doc :=
  if bool_decide (status this ≠ PENDING) then
    throw (Error "Request is no longer pending")
  else
    _ ← promise_all2
          (EventModel.findByIdAndUpdate (mySlotId this)
             (Event.set_status Event.SWAPPABLE))
          (EventModel.findByIdAndUpdate (theirSlotId this)
             (Event.set_status Event.SWAPPABLE));
    let this := set_status REJECTED this in
    let this := set_responseMessage responseMessage this in
    let this := set_respondedAt now this in
    _ ← save now false id this;
    mret this.

(** [swapRequestSchema.methods.cancel] *)
Definition cancel (now : Z) (id : nat) (this : doc) : M doc :=
  if bool_decide (status this ≠ PENDING) then
    throw (Error "Request is no longer pending")
  else
    _ ← promise_all2
          (EventModel.findByIdAndUpdate (mySlotId this)
             (Event.set_status Event.SWAPPABLE))
          (EventModel.findByIdAndUpdate (theirSlotId this)
             (Event.set_status Event.SWAPPABLE));
    let this := set_status CANCELLED this in
    let this := set_respondedAt now this in
    _ ← save now false id this;
    mret this.

(** [.sort({ createdAt: -1 })] *)
Definition createdAt_desc (a b : nat * doc) : Prop :=
  createdAt b.2 ≤ createdAt a.2.

Global Instance createdAt_desc_dec : RelDecision createdAt_desc.
Proof. intros a b. unfold createdAt_desc. apply _. Defined.

(** [swapRequestSchema.statics.findIncomingRequests]; the [populate]s are
    not represented. *)
Definition findIncomingRequests (now : Z) (userId : nat)
    : M (list (nat * doc)) :=
  found ← find (λ r,
    bool_decide (requestedTo r = userId) &&
    bool_decide (status r = PENDING) &&
    bool_decide (expiresAt r > now));
  mret (merge_sort createdAt_desc found).

(** [swapRequestSchema.statics.findOutgoingRequests] *)
Definition findOutgoingRequests (userId : nat) : M (list (nat * doc)) :=
  found ← find (λ r, bool_decide (requestedBy r = userId));
  mret (merge_sort createdAt_desc found).

End SwapRequestModel.

(** ** HTTP responses *)

(** [res.status(code).json({ success: true, data })] and
    [res.status(code).json({ success: false, message })]. *)
Inductive Response (A : Type) : Type :=
| Success (code : nat) (data : A)
| Failure (code : nat) (message : string).
Arguments Success {A} code data.
Arguments Failure {A} code message.

Definition is_failure {A} (r : Response A) : bool :=
  match r with Success _ _ => false | Failure _ _ => true end.

(** The error taxonomy of the specification, read off a response: 404 is
    NotFound, 403 is Forbidden, the 400 with the text of the expiry check
    is Expired, the 400 of [handleValidationErrors] is a validation
    failure, every other 400 is InvalidState. *)
Inductive ErrorKind :=
| NotFound | Forbidden | InvalidState | Expired | ValidationFailed | ServerError.

Definition error_kind {A} (r : Response A) : option ErrorKind :=
  match r with
  | Success _ _ => None
  | Failure code message =>
      Some (if bool_decide (code = 404%nat) then NotFound
            else if bool_decide (code = 403%nat) then Forbidden
            else if bool_decide (code = 400%nat) then
              if bool_decide (message = "Request has expired") then Expired
              else if bool_decide (message = "Validation failed") then ValidationFailed
              else InvalidState
            else ServerError)
  end.

(** A route handler: [try { body } catch (error) { on_error(error) }]. *)
Definition handler {A} (body : M (Response A)) (on_error : Exn → Response A)
    : World → World * Response A := λ w,
  match body w with
  | (w', Returned r) => (w', r)
  | (w', Thrown e) => (w', on_error e)
  end.

(** [handleValidationErrors] in front of a handler. *)
Definition validated {A B} (input : option A)
    (next : A → World → World * Response B) : World → World * Response B :=
  match input with
  | Some a => next a
  | None => λ w, (w, Failure 400 "Validation failed")
  end.

(** A fresh ObjectId for a new document. *)
Definition newObjectId {A} (collection : gmap nat A) : nat :=
  fresh (dom collection).

(** ** routes/swaps.js *)

Module Swaps.
Import SwapRequest.

(** [body('message').optional().trim().isLength({ max: 300 })]: the
    sanitised value when the chain passes. *)
Definition validate_message (message : option string) : option (option string) :=
  match message with
  | None => Some None
  | Some m =>
      if Js.isLength 0 300 (Js.trim m) then Some (Some (Js.trim m)) else None
  end.

(** The two queries of the duplicate check. *)
Definition pending_between (a b : nat) (r : doc) : bool :=
  (bool_decide (mySlotId r = a) && bool_decide (theirSlotId r = b) &&
   bool_decide (status r = PENDING)) ||
  (bool_decide (mySlotId r = b) && bool_decide (theirSlotId r = a) &&
   bool_decide (status r = PENDING)).

(** POST /api/swap/request, the handler. *)
Definition create_handler (now : Z) (user : nat)
    (mySlotId theirSlotId : nat) (message : option string)
    : World → World * Response (nat * doc) :=
  handler (
    let message := default "" message in
    let requestedBy := user in
    if bool_decide (mySlotId = theirSlotId) then
      mret (Failure 400 "Cannot swap a slot with itself")
    else
      '(mySlot, theirSlot) ←
        promise_all2 (EventModel.findById mySlotId)
                     (EventModel.findById theirSlotId);
      match mySlot, theirSlot with
      | Some mySlot, Some theirSlot =>
          if bool_decide (Event.userId mySlot ≠ requestedBy) then
            mret (Failure 403 "You can only swap your own slots")
          else if bool_decide (Event.userId theirSlot = requestedBy) then
            mret (Failure 400 "Cannot swap with your own slot")
          else if bool_decide (Event.status mySlot ≠ Event.SWAPPABLE) then
            mret (Failure 400 "Your slot must be marked as swappable")
          else if bool_decide (Event.status theirSlot ≠ Event.SWAPPABLE) then
            mret (Failure 400 "Target slot is not available for swapping")
          else if bool_decide (Event.startTime mySlot ≤ now) ||
                  bool_decide (Event.startTime theirSlot ≤ now) then
            mret (Failure 400 "Cannot swap past events")
          else
            existingRequest ←
              SwapRequestModel.findOne (pending_between mySlotId theirSlotId);
            if existingRequest : bool then
              mret (Failure 400 "A pending swap request already exists for these slots")
            else
              id ← read (λ d, newObjectId (swapRequests d));
              let swapRequest :=
                {| SwapRequest.mySlotId := mySlotId;
                   SwapRequest.theirSlotId := theirSlotId;
                   requestedBy := requestedBy;
                   requestedTo := Event.userId theirSlot;
                   status := PENDING;
                   SwapRequest.message := Js.trim (Js.trim message);
                   responseMessage := "";
                   respondedAt := None;
                   expiresAt := now + sevenDays;
                   createdAt := now |} in
              _ ← SwapRequestModel.save now true id swapRequest;
              mret (Success 201 (id, swapRequest))
      | _, _ => mret (Failure 404 "One or both slots not found")
      end)
    (λ error,
       if Js.includes (exn_message error) "duplicate key" then
         Failure 400 "A pending swap request already exists for these slots"
       else Failure 500 "Failed to create swap request").

(** POST /api/swap/request *)
Definition create (now : Z) (user : nat)
    (mySlotId theirSlotId : nat) (message : option string)
    : World → World * Response (nat * doc) :=
  validated (validate_message message)
    (create_handler now user mySlotId theirSlotId).

(** [body('action').isIn(['accept', 'reject'])] and the message chain. *)
Definition validate_response (action : string) (message : option string)
    : option (string * option string) :=
  if bool_decide (action ∈ ["accept"; "reject"]) then
    m ← validate_message message; Some (action, m)
  else None.

(** POST /api/swap/response/:requestId, the handler. *)
Definition respond_handler (now : Z) (user : nat) (requestId : nat)
    (action : string) (message : option string)
    : World → World * Response (nat * doc) :=
  handler (
    let message := default "" message in
    let userId := user in
    found ← SwapRequestModel.findById requestId;
    match found with
    | None => mret (Failure 404 "Swap request not found")
    | Some swapRequest =>
        (* [.populate('mySlotId').populate('theirSlotId')] *)
        mySlot ← EventModel.findById (mySlotId swapRequest);
        theirSlot ← EventModel.findById (theirSlotId swapRequest);
        if bool_decide (requestedTo swapRequest ≠ userId) then
          mret (Failure 403 "You are not authorized to respond to this request")
        else if bool_decide (status swapRequest ≠ PENDING) then
          mret (Failure 400 "Request has already been responded to")
        else if isExpired now swapRequest then
          mret (Failure 400 "Request has expired")
        else
          match mySlot, theirSlot with
          | Some mySlot, Some theirSlot =>
              if bool_decide (Event.status mySlot ≠ Event.SWAP_PENDING) ||
                 bool_decide (Event.status theirSlot ≠ Event.SWAP_PENDING) then
                mret (Failure 400 "Slots are no longer in pending swap state")
              else if bool_decide (action = "accept") then
                result ← SwapRequestModel.accept now requestId swapRequest
                           (Js.trim message);
                mret (Success 200 (requestId, result))
              else
                result ← SwapRequestModel.reject now requestId swapRequest
                           (Js.trim message);
                mret (Success 200 (requestId, result))
          | _, _ => mret (Failure 400 "One or both slots no longer exist")
          end
    end)
    (λ error, Failure 500 (exn_message error)).

(** POST /api/swap/response/:requestId *)
Definition respond (now : Z) (user : nat) (requestId : nat)
    (action : string) (message : option string)
    : World → World * Response (nat * doc) :=
  validated (validate_response action message)
    (λ b, respond_handler now user requestId b.1 b.2).

(** POST /api/swap/cancel/:requestId *)
Definition cancel (now : Z) (user : nat) (requestId : nat)
    : World → World * Response (nat * doc) :=
  handler (
    let userId := user in
    found ← SwapRequestModel.findById requestId;
    match found with
    | None => mret (Failure 404 "Swap request not found")
    | Some swapRequest =>
        if bool_decide (requestedBy swapRequest ≠ userId) then
          mret (Failure 403 "You are not authorized to cancel this request")
        else if bool_decide (status swapRequest ≠ PENDING) then
          mret (Failure 400 "Can only cancel pending requests")
        else
          result ← SwapRequestModel.cancel now requestId swapRequest;
          mret (Success 200 (requestId, result))
    end)
    (λ error, Failure 500 (exn_message error)).

(** *** The listing endpoints *)

(** [query('status').optional().isIn(allowed)],
    [query('page').optional().isInt({ min: 1 })] and
    [query('limit').optional().isInt({ min: 1, max: 50 })]. *)
Definition validate_listing (allowed : list string)
    (status : option string) (page limit : option nat) : bool :=
  match status with None => true | Some s => bool_decide (s ∈ allowed) end &&
  match page with None => true | Some p => bool_decide (1 ≤ p)%nat end &&
  match limit with None => true | Some l => bool_decide (1 ≤ l ≤ 50)%nat end.

(** [.sort({ createdAt: -1 })] *)
Definition newer_first (a b : nat * doc) : Prop :=
  createdAt b.2 ≤ createdAt a.2.

Global Instance newer_first_dec : RelDecision newer_first.
Proof. intros a b. unfold newer_first. apply _. Defined.

(** [.sort(...).skip(skip).limit(limit)] together with [countDocuments]. *)
Definition paginate (page limit : option nat) (found : list (nat * doc))
    : list (nat * doc) * nat :=
  let page := default 1%nat page in
  let limit := default 20%nat limit in
  let skip := ((page - 1) * limit)%nat in
  (take limit (drop skip (merge_sort newer_first found)), length found).

Definition incoming_query (now : Z) (userId : nat) (status : option string)
    (r : doc) : bool :=
  bool_decide (requestedTo r = userId) &&
  match status with
  | Some s =>
      if Js.truthy s then bool_decide (status_name (SwapRequest.status r) = s)
      else bool_decide (SwapRequest.status r = PENDING) &&
           bool_decide (expiresAt r > now)
  | None => bool_decide (SwapRequest.status r = PENDING) &&
            bool_decide (expiresAt r > now)
  end.

(** GET /api/swap/incoming *)
Definition incoming (now : Z) (user : nat)
    (status : option string) (page limit : option nat)
    : World → World * Response (list (nat * doc) * nat) :=
  if validate_listing ["PENDING"; "ACCEPTED"; "REJECTED"] status page limit
  then
    handler (
      requests ← SwapRequestModel.find (incoming_query now user status);
      mret (Success 200 (paginate page limit requests)))
      (λ _, Failure 500 "Failed to fetch incoming requests")
  else λ w, (w, Failure 400 "Validation failed").

Definition outgoing_query (userId : nat) (status : option string)
    (r : doc) : bool :=
  bool_decide (requestedBy r = userId) &&
  match status with
  | Some s =>
      if Js.truthy s then bool_decide (status_name (SwapRequest.status r) = s)
      else true
  | None => true
  end.

(** GET /api/swap/outgoing *)
Definition outgoing (user : nat)
    (status : option string) (page limit : option nat)
    : World → World * Response (list (nat * doc) * nat) :=
  if validate_listing ["PENDING"; "ACCEPTED"; "REJECTED"; "CANCELLED"]
       status page limit
  then
    handler (
      requests ← SwapRequestModel.find (outgoing_query user status);
      mret (Success 200 (paginate page limit requests)))
      (λ _, Failure 500 "Failed to fetch outgoing requests")
  else λ w, (w, Failure 400 "Validation failed").

(** The [pagination] object of a listing, from [page], [limit], the number
    of documents on the page and the result of [countDocuments]. *)
Record Pagination := {
  currentPage : nat;
  totalPages : nat;
  totalCount : nat;
  hasNext : bool;
  hasPrev : bool
}.

Definition pagination (page limit : option nat) (returned count : nat)
    : Pagination :=
  let page := default 1%nat page in
  let limit := default 20%nat limit in
  let skip := ((page - 1) * limit)%nat in
  {| currentPage := page;
     totalPages := Js.ceil_div count limit;
     totalCount := count;
     hasNext := bool_decide (skip + returned < count)%nat;
     hasPrev := bool_decide (1 < page)%nat |}.

(** [.sort({ respondedAt: -1 })]; a missing date sorts below every date. *)
Definition responded_later_first (a b : nat * doc) : Prop :=
  match respondedAt b.2, respondedAt a.2 with
  | None, _ => True
  | Some _, None => False
  | Some x, Some y => x ≤ y
  end.

Global Instance responded_later_first_dec : RelDecision responded_later_first.
Proof.
  intros a b. unfold responded_later_first.
  destruct (respondedAt b.2), (respondedAt a.2); apply _.
Defined.

Definition history_query (userId : nat) (r : doc) : bool :=
  (bool_decide (requestedBy r = userId) || bool_decide (requestedTo r = userId)) &&
  bool_decide (SwapRequest.status r = ACCEPTED).

(** GET /api/swap/history *)
Definition history (user : nat) (page limit : option nat)
    : World → World * Response (list (nat * doc) * Pagination) :=
  if validate_listing [] None page limit
  then
    handler (
      found ← SwapRequestModel.find (history_query user);
      let skip := ((default 1 page - 1) * default 20 limit)%nat in
      let swapHistory :=
        take (default 20%nat limit)
          (drop skip (merge_sort responded_later_first found)) in
      mret (Success 200
              (swapHistory,
               pagination page limit (length swapHistory) (length found))))
      (λ _, Failure 500 "Failed to fetch swap history")
  else λ w, (w, Failure 400 "Validation failed").

End Swaps.

(** ** middleware/auth.js *)

(** [checkResourceOwnership('Event')] in front of a handler that reads
    [req.resource]. *)
Definition checkResourceOwnership {A} (user : nat) (id : nat)
    (next : Event.doc → World → World * Response A)
    : World → World * Response A := λ w,
  match events (db w) !! id with
  | None => (w, Failure 404 "Event not found")
  | Some resource =>
      if bool_decide (Event.userId resource ≠ user) then
        (w, Failure 403 "Access denied - you do not own this resource")
      else next resource w
  end.

(** The other middlewares of the file.  The library [jsonwebtoken] and
    the model [User] are parameters. *)

Module Auth.

(** [String.prototype.split(' ')] *)
Fixpoint split_space (s : string) : list string :=
  match s with
  | EmptyString => [EmptyString]
  | String c s' =>
      if bool_decide (c = Strings.Ascii.Space) then EmptyString :: split_space s'
      else match split_space s' with
           | h :: t => String c h :: t
           | [] => [String c EmptyString]
           end
  end.

(** A string without a space. *)
Definition spaceless (s : string) : Prop :=
  Strings.Ascii.Space ∉ String.list_ascii_of_string s.

(** [authHeader && authHeader.split(' ')[1]], when the test [!token] lets
    it through. *)
Definition token_of (authorization : option string) : option string :=
  match authorization with
  | None => None
  | Some authHeader =>
      if Js.truthy authHeader then
        match split_space authHeader !! 1%nat with
        | Some token => if Js.truthy token then Some token else None
        | None => None
        end
      else None
  end.

(** The claims of a token that the middleware reads. *)
Record Payload := { p_userId : option nat; p_exp : option Z }.

(** What [jwt.verify] does with a token: it returns the payload or throws
    an error, of which the middleware reads the [name]. *)
Inductive Verified :=
| Decoded (decoded : Payload)
| VerifyError (name : string).

(** A user document; models/User.js is not among the sources, and the
    middleware reads [isActive] only. *)
Record User := { isActive : bool }.

(** The end of a middleware: [next()], with [req.user] when it was set,
    or a response. *)
Inductive Passed :=
| Next (user : option (nat * User))
| Denied (code : nat) (message : string).

Section Middleware.

(** [jwt.verify(token, JWT_SECRET)], [jwt.decode(token)],
    [jwt.sign({ userId }, JWT_SECRET, options)] when it does not throw, and
    the collection of the users. *)
Variable verify : string → Verified.
Variable decode : string → option Payload.
Variable sign : option nat → option string.
Variable users : gmap nat User.

(** [User.findById(decoded.userId)] *)
Definition findUser (decoded : Payload) : option (nat * User) :=
  id ← p_userId decoded; user ← users !! id; Some (id, user).

Definition authenticateToken (authorization : option string) : Passed :=
  match token_of authorization with
  | None => Denied 401 "Access token is required"
  | Some token =>
      match verify token with
      | Decoded decoded =>
          match findUser decoded with
          | None => Denied 401 "Invalid token - user not found"
          | Some (id, user) =>
              if negb (isActive user) then Denied 401 "Account is deactivated"
              else Next (Some (id, user))
          end
      | VerifyError name =>
          if bool_decide (name = "JsonWebTokenError") then
            Denied 401 "Invalid token"
          else if bool_decide (name = "TokenExpiredError") then
            Denied 401 "Token has expired"
          else Denied 500 "Authentication failed"
      end
  end.

Definition optionalAuth (authorization : option string) : Passed :=
  match token_of authorization with
  | None => Next None
  | Some token =>
      match verify token with
      | Decoded decoded =>
          match findUser decoded with
          | Some (id, user) =>
              if isActive user then Next (Some (id, user)) else Next None
          | None => Next None
          end
      | VerifyError _ => Next None
      end
  end.

(** [generateToken] *)
Definition generateToken (userId : option nat) : option string := sign userId.

(** [refreshTokenIfNeeded]: the header [X-New-Token] it sets, if any; it
    always goes on to [next()].  [now] is [Date.now()], in milliseconds;
    [decoded.exp - now / 1000 < 24 * 60 * 60] is written on integers. *)
Definition refreshTokenIfNeeded (now : Z) (authorization : option string)
    : option string :=
  match token_of authorization with
  | None => None
  | Some token =>
      match decode token with
      | None => None
      | Some decoded =>
          match p_exp decoded with
          | None => None
          | Some exp =>
              if bool_decide (1000 * exp - now < 24 * 60 * 60 * 1000)
              then generateToken (p_userId decoded)
              else None
          end
      end
  end.

End Middleware.

End Auth.

(** ** routes/events.js *)

Module Events.
Import Event.

(** The body of POST /api/events. *)
Record EventBody := {
  b_title : string;
  b_description : option string;
  b_startTime : Z;
  b_endTime : Z;
  b_category : option Category;
  b_location : option string
}.

(** [validateEvent]: the sanitised body when every chain passes. *)
Definition validateEvent (now : Z) (b : EventBody) : option EventBody :=
  if Js.isLength 1 100 (Js.trim (b_title b)) &&
     match b_description b with
     | None => true | Some s => Js.isLength 0 500 (Js.trim s) end &&
     bool_decide (b_startTime b > now) &&
     bool_decide (b_endTime b > b_startTime b) &&
     match b_location b with
     | None => true | Some s => Js.isLength 0 200 (Js.trim s) end
  then Some {| b_title := Js.trim (b_title b);
               b_description := Js.trim <$> b_description b;
               b_startTime := b_startTime b;
               b_endTime := b_endTime b;
               b_category := b_category b;
               b_location := Js.trim <$> b_location b |}
  else None.

(** The body of PUT /api/events/:id: every path of the schema may be
    present, the validators look at seven of them. *)
Record EventUpdate := {
  u_title : option string;
  u_description : option string;
  u_startTime : option Z;
  u_endTime : option Z;
  u_status : option Status;
  u_category : option Category;
  u_location : option string;
  u_userId : option nat;
  u_originalUserId : option nat;
  u_isRecurring : option bool;
  u_swapHistory : option (list HistoryEntry)
}.

(** [body('status').isIn(['BUSY', 'SWAPPABLE'])] *)
Definition status_allowed (s : Status) : bool :=
  bool_decide (s ∈ [BUSY; SWAPPABLE]).

(** [validateEventUpdate] *)
Definition validateEventUpdate (now : Z) (u : EventUpdate) : option EventUpdate :=
  if match u_title u with
     | None => true | Some s => Js.isLength 1 100 (Js.trim s) end &&
     match u_description u with
     | None => true | Some s => Js.isLength 0 500 (Js.trim s) end &&
     match u_startTime u with
     | None => true | Some t => negb (bool_decide (t ≤ now)) end &&
     match u_status u with
     | None => true | Some s => status_allowed s end &&
     match u_location u with
     | None => true | Some s => Js.isLength 0 200 (Js.trim s) end
  then Some {| u_title := Js.trim <$> u_title u;
               u_description := Js.trim <$> u_description u;
               u_startTime := u_startTime u;
               u_endTime := u_endTime u;
               u_status := u_status u;
               u_category := u_category u;
               u_location := Js.trim <$> u_location u;
               u_userId := u_userId u;
               u_originalUserId := u_originalUserId u;
               u_isRecurring := u_isRecurring u;
               u_swapHistory := u_swapHistory u |}
  else None.

(** [Object.keys(updateData).forEach(key => event[key] = updateData[key])];
    the [trim] setters of the string paths run on assignment. *)
Definition assign (u : EventUpdate) (e : doc) : doc :=
  {| title := from_option Js.trim (title e) (u_title u);
     description := from_option Js.trim (description e) (u_description u);
     startTime := default (startTime e) (u_startTime u);
     endTime := default (endTime e) (u_endTime u);
     status := default (status e) (u_status u);
     userId := default (userId e) (u_userId u);
     originalUserId :=
       match u_originalUserId u with
       | Some o => Some o | None => originalUserId e end;
     category := default (category e) (u_category u);
     location := from_option Js.trim (location e) (u_location u);
     isRecurring := default (isRecurring e) (u_isRecurring u);
     swapHistory := default (swapHistory e) (u_swapHistory u) |}.

(** [checkTimeConflicts] *)
Definition checkTimeConflicts (userId : nat) (startTime endTime : Z)
    (excludeEventId : option nat) : M (list (nat * doc)) :=
  EventModel.find (λ id e,
    bool_decide (Event.userId e = userId) &&
    bool_decide (Event.startTime e < endTime) &&
    bool_decide (Event.endTime e > startTime) &&
    match excludeEventId with
    | Some x => bool_decide (id ≠ x)
    | None => true
    end).

(** POST /api/events *)
Definition post (now : Z) (user : nat) (body : EventBody)
    : World → World * Response (nat * doc) :=
  validated (validateEvent now body) (λ body,
    handler (
      let userId := user in
      conflicts ← checkTimeConflicts userId (b_startTime body) (b_endTime body) None;
      if bool_decide (0 < length conflicts)%nat then
        mret (Failure 400 "Time conflict detected with existing events")
      else
        let event :=
          {| title := Js.trim (Js.trim (b_title body));
             description := Js.trim (from_option Js.trim "" (b_description body));
             startTime := b_startTime body;
             endTime := b_endTime body;
             status := BUSY;
             Event.userId := userId;
             originalUserId := None;
             category := default other (b_category body);
             location := Js.trim (from_option Js.trim "" (b_location body));
             isRecurring := false;
             swapHistory := [] |} in
        id ← read (λ d, newObjectId (events d));
        event ← EventModel.save now true id event;
        mret (Success 201 (id, event)))
      (λ _, Failure 500 "Failed to create event")).

(** PUT /api/events/:id *)
Definition put (now : Z) (user : nat) (id : nat) (body : EventUpdate)
    : World → World * Response (nat * doc) :=
  checkResourceOwnership user id (λ event,
    validated (validateEventUpdate now body) (λ updateData,
      handler (
        if bool_decide (status event = SWAP_PENDING) then
          mret (Failure 400 "Cannot update event while swap is pending")
        else
          let save_it : M (Response (nat * doc)) :=
            let event := assign updateData event in
            event ← EventModel.save now false id event;
            mret (Success 200 (id, event)) in
          if bool_decide (is_Some (u_startTime updateData)) ||
             bool_decide (is_Some (u_endTime updateData)) then
            let newStartTime := default (startTime event) (u_startTime updateData) in
            let newEndTime := default (endTime event) (u_endTime updateData) in
            if bool_decide (newEndTime ≤ newStartTime) then
              mret (Failure 400 "End time must be after start time")
            else
              conflicts ← checkTimeConflicts (userId event)
                            newStartTime newEndTime (Some id);
              if bool_decide (0 < length conflicts)%nat then
                mret (Failure 400 "Time conflict detected with existing events")
              else save_it
          else save_it)
        (λ _, Failure 500 "Failed to update event"))).

(** DELETE /api/events/:id *)
Definition delete (user : nat) (id : nat)
    : World → World * Response () :=
  checkResourceOwnership user id (λ event,
    handler (
      if bool_decide (status event = SWAP_PENDING) then
        mret (Failure 400 "Cannot delete event while swap is pending")
      else
        _ ← EventModel.findByIdAndDelete id;
        mret (Success 200 ()))
      (λ _, Failure 500 "Failed to delete event")).

(** PATCH /api/events/:id/status *)
Definition patch_status (now : Z) (user : nat) (id : nat) (status : Status)
    : World → World * Response (nat * doc) :=
  checkResourceOwnership user id (λ event,
    validated (if status_allowed status then Some status else None) (λ status,
      handler (
        if bool_decide (Event.status event = SWAP_PENDING) then
          mret (Failure 400 "Cannot change status while swap is pending")
        else if bool_decide (startTime event ≤ now) then
          mret (Failure 400 "Cannot change status of past events")
        else
          let event := set_status status event in
          event ← EventModel.save now false id event;
          mret (Success 200 (id, event)))
        (λ _, Failure 500 "Failed to update event status"))).

(** GET /api/events/:id; the [populate] of the owner is not represented. *)
Definition get (user : nat) (id : nat) : World → World * Response (nat * doc) :=
  checkResourceOwnership user id (λ event,
    handler (mret (Success 200 (id, event)))
      (λ _, Failure 500 "Failed to fetch event")).

(** The query of GET /api/events/swappable-slots; [startDate] and
    [endDate] are the instants of the two ISO 8601 parameters. *)
Definition swappable_query (now : Z) (userId : nat)
    (category : option Category) (startDate endDate : option Z)
    (e : doc) : bool :=
  bool_decide (status e = SWAPPABLE) &&
  bool_decide (Event.userId e ≠ userId) &&
  bool_decide (startTime e > now) &&
  match category with
  | Some c => bool_decide (Event.category e = c) | None => true end &&
  match startDate with
  | Some s => bool_decide (startTime e >= s) | None => true end &&
  match endDate with
  | Some t => bool_decide (endTime e ≤ t) | None => true end.

(** GET /api/events/swappable-slots: the events and their [count]. *)
Definition swappable_slots (now : Z) (user : nat)
    (category : option Category) (startDate endDate : option Z)
    (limit : option nat)
    : World → World * Response (list (nat * doc) * nat) :=
  if match limit with
     | None => true | Some l => bool_decide (1 ≤ l ≤ 100)%nat end
  then
    handler (
      found ← EventModel.find (λ _ e,
                swappable_query now user category startDate endDate e);
      let swappableEvents :=
        EventModel.limit (default 50%nat limit)
          (merge_sort EventModel.earlier_first found) in
      mret (Success 200 (swappableEvents, length swappableEvents)))
      (λ _, Failure 500 "Failed to fetch swappable slots")
  else λ w, (w, Failure 400 "Validation failed").

End Events.

(** ** The mutating requests of the API *)

Inductive Command :=
| PostEvent (user : nat) (body : Events.EventBody)
| PutEvent (user : nat) (id : nat) (body : Events.EventUpdate)
| DeleteEvent (user : nat) (id : nat)
| PatchEventStatus (user : nat) (id : nat) (status : Event.Status)
| PostSwapRequest (user : nat) (mySlotId theirSlotId : nat) (message : option string)
| PostSwapResponse (user : nat) (requestId : nat) (action : string) (message : option string)
| PostSwapCancel (user : nat) (requestId : nat).

(** The store after one request, handled at time [now] with write
    outcomes [fs]. *)
Definition exec (now : Z) (fs : list bool) (c : Command) (d : DB) : DB :=
  match c with
  | PostEvent user body => (run fs d (Events.post now user body)).1
  | PutEvent user id body => (run fs d (Events.put now user id body)).1
  | DeleteEvent user id => (run fs d (Events.delete user id)).1
  | PatchEventStatus user id status =>
      (run fs d (Events.patch_status now user id status)).1
  | PostSwapRequest user mySlotId theirSlotId message =>
      (run fs d (Swaps.create now user mySlotId theirSlotId message)).1
  | PostSwapResponse user requestId action message =>
      (run fs d (Swaps.respond now user requestId action message)).1
  | PostSwapCancel user requestId => (run fs d (Swaps.cancel now user requestId)).1
  end.

(** ** Vocabulary of the statements *)

(** A request failed with an error of kind [k] and left the store as it
    was. *)
Definition fails_with {A} (k : ErrorKind) (d : DB) (res : DB * Response A) : Prop :=
  res.1 = d ∧ error_kind res.2 = Some k.

(** A request failed, whatever the error, and left the store as it was. *)
Definition fails {A} (d : DB) (res : DB * Response A) : Prop :=
  res.1 = d ∧ is_failure res.2 = true.

(** Two slots that differ at most in their status. *)
Definition same_but_status (e e' : Event.doc) : Prop :=
  Event.title e' = Event.title e ∧
  Event.description e' = Event.description e ∧
  Event.startTime e' = Event.startTime e ∧
  Event.endTime e' = Event.endTime e ∧
  Event.userId e' = Event.userId e ∧
  Event.originalUserId e' = Event.originalUserId e ∧
  Event.category e' = Event.category e ∧
  Event.location e' = Event.location e ∧
  Event.isRecurring e' = Event.isRecurring e ∧
  Event.swapHistory e' = Event.swapHistory e.

(** Slot [id] of [d'] is slot [id] of [d] with status [s] (and is absent
    when it was absent). *)
Definition slot_released (s : Event.Status) (d d' : DB) (id : nat) : Prop :=
  match events d !! id, events d' !! id with
  | Some e, Some e' => Event.status e' = s ∧ same_but_status e e'
  | None, None => True
  | _, _ => False
  end.

(** Two requests over the same unordered pair of slots. *)
Definition same_pair (r1 r2 : SwapRequest.doc) : Prop :=
  (SwapRequest.mySlotId r1 = SwapRequest.mySlotId r2 ∧
   SwapRequest.theirSlotId r1 = SwapRequest.theirSlotId r2) ∨
  (SwapRequest.mySlotId r1 = SwapRequest.theirSlotId r2 ∧
   SwapRequest.theirSlotId r1 = SwapRequest.mySlotId r2).

(** At most one Pending request per unordered pair of slots. *)
Definition pending_unique (d : DB) : Prop :=
  ∀ i j r1 r2,
    swapRequests d !! i = Some r1 → swapRequests d !! j = Some r2 →
    SwapRequest.status r1 = SwapRequest.PENDING →
    SwapRequest.status r2 = SwapRequest.PENDING →
    same_pair r1 r2 → i = j.

Global Instance same_pair_dec r1 r2 : Decision (same_pair r1 r2).
Proof. unfold same_pair. apply _. Defined.

(** [pending_unique], computed over the pairs of stored requests. *)
Definition pending_uniqueb (d : DB) : bool :=
  let l := map_to_list (swapRequests d) in
  forallb (λ p,
    forallb (λ q,
      bool_decide (SwapRequest.status p.2 = SwapRequest.PENDING →
                   SwapRequest.status q.2 = SwapRequest.PENDING →
                   same_pair p.2 q.2 → p.1 = q.1)) l) l.

(** A handler that relates the store before and the store after by [P],
    whatever the state it starts from. *)
Definition preserves {B} (P : DB → DB → Prop) (m : World → World * B) : Prop :=
  ∀ w, P (db w) (db (m w).1).

(** The relations used with [preserves]. *)
Definition events_outside (ids : list nat) (d d' : DB) : Prop :=
  ∀ id, id ∉ ids → events d' !! id = events d !! id.

Definition same_events (d d' : DB) : Prop := events d' = events d.

Definition same_swapRequests (d d' : DB) : Prop :=
  swapRequests d' = swapRequests d.

Definition no_new_pending (d d' : DB) : Prop :=
  ∀ i r, swapRequests d' !! i = Some r →
         SwapRequest.status r = SwapRequest.PENDING →
         swapRequests d !! i = Some r.

(** What reverting the two slots of [r] to status [s] does to the events:
    the two slots get the status, nothing else changes. *)
Definition slots_released (s : Event.Status) (r : SwapRequest.doc) (d d' : DB) : Prop :=
  slot_released s d d' (SwapRequest.mySlotId r) ∧
  slot_released s d d' (SwapRequest.theirSlotId r) ∧
  events_outside [SwapRequest.mySlotId r; SwapRequest.theirSlotId r] d d'.

(** No slot of the store is SWAP_PENDING. *)
Definition no_swap_pending (d : DB) : Prop :=
  ∀ id e, events d !! id = Some e → Event.status e ≠ Event.SWAP_PENDING.

(** The store of a fresh installation. *)
Definition emptyDB : DB := {| events := ∅; swapRequests := ∅ |}.

(** The stores the API can reach from the empty one. *)
Inductive reachable : DB → Prop :=
| reachable_empty : reachable emptyDB
| reachable_exec now fs c d : reachable d → reachable (exec now fs c d).

(** No two events of one user overlap. *)
Definition conflict_free (d : DB) : Prop :=
  ∀ i j a b, i ≠ j → events d !! i = Some a → events d !! j = Some b →
    Event.userId a = Event.userId b → Event.hasConflictWith a b = false.

(** The requests of [d'] are those of [d], except that request [rid] may
    have become [r']. *)
Definition requests_but (rid : nat) (r' : SwapRequest.doc) (d d' : DB) : Prop :=
  ∀ i, swapRequests d' !! i = swapRequests d !! i ∨
       (i = rid ∧ swapRequests d' !! i = Some r').

(** A request after its answer: the status, the response message and the
    date of the answer are set. *)
Definition answered (now : Z) (s : SwapRequest.Status) (msg : string)
    (r : SwapRequest.doc) : SwapRequest.doc :=
  SwapRequest.set_respondedAt now
    (SwapRequest.set_responseMessage msg (SwapRequest.set_status s r)).

(** The request POST /api/swap/request builds. *)
Definition new_request (now : Z) (user a b : nat) (t : Event.doc)
    (message : option string) : SwapRequest.doc :=
  {| SwapRequest.mySlotId := a; SwapRequest.theirSlotId := b;
     SwapRequest.requestedBy := user;
     SwapRequest.requestedTo := Event.userId t;
     SwapRequest.status := SwapRequest.PENDING;
     SwapRequest.message := Js.trim (default "" message);
     SwapRequest.responseMessage := "";
     SwapRequest.respondedAt := None;
     SwapRequest.expiresAt := now + SwapRequest.sevenDays;
     SwapRequest.createdAt := now |}.

(** Two versions of one request: the slots, the parties, the message and
    the dates of creation and expiry agree. *)
Definition same_request (r r' : SwapRequest.doc) : Prop :=
  SwapRequest.mySlotId r' = SwapRequest.mySlotId r ∧
  SwapRequest.theirSlotId r' = SwapRequest.theirSlotId r ∧
  SwapRequest.requestedBy r' = SwapRequest.requestedBy r ∧
  SwapRequest.requestedTo r' = SwapRequest.requestedTo r ∧
  SwapRequest.message r' = SwapRequest.message r ∧
  SwapRequest.expiresAt r' = SwapRequest.expiresAt r ∧
  SwapRequest.createdAt r' = SwapRequest.createdAt r.

(** Every slot that is SWAP_PENDING in [d'] was the same slot, already
    SWAP_PENDING, in [d]. *)
Definition no_new_swap_pending (d d' : DB) : Prop :=
  ∀ id e, events d' !! id = Some e →
          Event.status e = Event.SWAP_PENDING → events d !! id = Some e.

(** Every event of [d'] is an event of [d] with the same owner and the
    same times. *)
Definition same_schedule (d d' : DB) : Prop :=
  ∀ id e', events d' !! id = Some e' →
    ∃ e, events d !! id = Some e ∧
         Event.startTime e' = Event.startTime e ∧
         Event.endTime e' = Event.endTime e ∧
         Event.userId e' = Event.userId e.


(** A slot after an accepted swap that gives it to [newOwner]: the owner
    is replaced, the status is BUSY, and one entry is appended to the swap
    history, whose [swappedWith] is the new owner. *)
Definition exchanged (now : Z) (rid : nat) (newOwner : nat) (e : Event.doc)
    : Event.doc :=
  Event.push_swapHistory
    {| Event.swappedWith := newOwner; Event.swappedAt := now;
       Event.swapRequestId := rid |}
    (Event.set_status Event.BUSY (Event.set_userId newOwner e)).

(** [conflict_free], computed over the pairs of stored events. *)
Definition conflict_freeb (d : DB) : bool :=
  let l := map_to_list (events d) in
  forallb (λ p,
    forallb (λ q,
      bool_decide (p.1 = q.1) ||
      negb (bool_decide (Event.userId p.2 = Event.userId q.2)) ||
      negb (Event.hasConflictWith p.2 q.2)) l) l.

(** The event POST /api/events stores for a body, after the sanitizers of
    the route, the setters of the schema and the pre-save hook. *)
Definition new_event (user : nat) (body : Events.EventBody) : Event.doc :=
  {| Event.title := Js.trim (Events.b_title body);
     Event.description := from_option Js.trim "" (Events.b_description body);
     Event.startTime := Events.b_startTime body;
     Event.endTime := Events.b_endTime body;
     Event.status := Event.BUSY;
     Event.userId := user;
     Event.originalUserId := Some user;
     Event.category := default Event.other (Events.b_category body);
     Event.location := from_option Js.trim "" (Events.b_location body);
     Event.isRecurring := false;
     Event.swapHistory := [] |}.

(** An event of [user] that overlaps the period from [s] to [e]. *)
Definition overlapping (d : DB) (user : nat) (s e : Z) (skip : option nat)
    (j : nat) (x : Event.doc) : Prop :=
  events d !! j = Some x ∧ Some j ≠ skip ∧ Event.userId x = user ∧
  Event.startTime x < e ∧ Event.endTime x > s.

(** A body for PUT /api/events/:id that names the path [userId] only. *)
Definition only_userId (v : nat) : Events.EventUpdate :=
  {| Events.u_title := None; Events.u_description := None;
     Events.u_startTime := None; Events.u_endTime := None;
     Events.u_status := None; Events.u_category := None;
     Events.u_location := None; Events.u_userId := Some v;
     Events.u_originalUserId := None; Events.u_isRecurring := None;
     Events.u_swapHistory := None |}.

(** ** The scenarios of the specification *)

Module Scenario.

Definition slot (owner : nat) (s : Event.Status) (start : Z) : Event.doc :=
  {| Event.title := "Shift"; Event.description := "";
     Event.startTime := start; Event.endTime := start + 100;
     Event.status := s; Event.userId := owner;
     Event.originalUserId := Some owner; Event.category := Event.work;
     Event.location := ""; Event.isRecurring := false;
     Event.swapHistory := [] |}.

Definition request (mine theirs from to : nat) (s : SwapRequest.Status)
    (created : Z) : SwapRequest.doc :=
  {| SwapRequest.mySlotId := mine; SwapRequest.theirSlotId := theirs;
     SwapRequest.requestedBy := from; SwapRequest.requestedTo := to;
     SwapRequest.status := s; SwapRequest.message := "hi";
     SwapRequest.responseMessage := ""; SwapRequest.respondedAt := None;
     SwapRequest.expiresAt := created + SwapRequest.sevenDays;
     SwapRequest.createdAt := created |}.

(** User 10 owns slot 1, user 20 owns slot 2; both slots are offered. *)
Definition offered : DB :=
  {| events := {[ 1%nat := slot 10 Event.SWAPPABLE 1000;
                  2%nat := slot 20 Event.SWAPPABLE 2000 ]};
     swapRequests := ∅ |}.

(** The state the negotiation is meant to be in while request 0, by user
    10 to user 20, slot 1 against slot 2, is pending. *)
Definition pending : DB :=
  {| events := {[ 1%nat := slot 10 Event.SWAP_PENDING 1000;
                  2%nat := slot 20 Event.SWAP_PENDING 2000 ]};
     swapRequests := {[ 0%nat := request 1 2 10 20 SwapRequest.PENDING 5 ]} |}.

(** The state POST /api/swap/request leaves after creating request 0 from
    [offered]. *)
Definition requested : DB :=
  {| events := events offered;
     swapRequests := {[ 0%nat := request 1 2 10 20 SwapRequest.PENDING 5 ]} |}.

(** The store of [pending], in which user 10 owns a third event
    that overlaps slot 2. *)
Definition booked : DB :=
  {| events := {[ 1%nat := slot 10 Event.SWAP_PENDING 1000;
                  2%nat := slot 20 Event.SWAP_PENDING 2000;
                  3%nat := slot 10 Event.BUSY 2050 ]};
     swapRequests :=
       {[ 0%nat := request 1 2 10 20 SwapRequest.PENDING 5 ]} |}.

(** A body for POST /api/events. *)
Definition body (start : Z) : Events.EventBody :=
  {| Events.b_title := " Shift "; Events.b_description := None;
     Events.b_startTime := start; Events.b_endTime := start + 100;
     Events.b_category := Some Event.work; Events.b_location := None |}.

(** A body for PUT /api/events/:id that changes the title. *)
Definition retitle : Events.EventUpdate :=
  {| Events.u_title := Some "Late shift"; Events.u_description := None;
     Events.u_startTime := None; Events.u_endTime := None;
     Events.u_status := None; Events.u_category := None;
     Events.u_location := None; Events.u_userId := None;
     Events.u_originalUserId := None; Events.u_isRecurring := None;
     Events.u_swapHistory := None |}.

(** Users 10 and 20 create an event each and offer it; user 10 then asks
    for the swap. *)
Definition flow : DB :=
  exec 5 [] (PostSwapRequest 10 0 1 (Some "hi"))
    (exec 4 [] (PatchEventStatus 20 1 Event.SWAPPABLE)
       (exec 3 [] (PatchEventStatus 10 0 Event.SWAPPABLE)
          (exec 2 [] (PostEvent 20 (body 2000))
             (exec 1 [] (PostEvent 10 (body 1000)) emptyDB)))).

(** The store after the swap of request 0 was accepted at time 6. *)
Definition swapped : DB :=
  (run [] pending (Swaps.respond 6 20 0 "accept" None)).1.

(** Request 0 of [pending], accepted at time 6, in a store of its
    own. *)
Definition settled : DB :=
  {| events := ∅;
     swapRequests :=
       {[ 0%nat := answered 6 SwapRequest.ACCEPTED "ok"
                     (request 1 2 10 20 SwapRequest.PENDING 5);
          1%nat := request 3 4 30 10 SwapRequest.PENDING 7 ]} |}.

(** A verifier for the examples: the token "good" is user 1's, the token
    "late" has expired, every other token is malformed. *)
Definition verify (token : string) : Auth.Verified :=
  if bool_decide (token = "good") then
    Auth.Decoded {| Auth.p_userId := Some 1%nat; Auth.p_exp := Some 2000 |}
  else if bool_decide (token = "late") then Auth.VerifyError "TokenExpiredError"
  else Auth.VerifyError "JsonWebTokenError".

Definition decode (token : string) : option Auth.Payload :=
  if bool_decide (token = "late") then
    Some {| Auth.p_userId := Some 1%nat; Auth.p_exp := Some 1 |}
  else None.

Definition sign (userId : option nat) : option string := Some "fresh".

Definition users : gmap nat Auth.User :=
  {[ 1%nat := {| Auth.isActive := true |} ]}.

End Scenario.

(** * Properties *)

(** ** Strings *)

Section Trim.

Lemma dropSpaces_head l :
  Js.dropSpaces l = [] ∨
  ∃ c l', Js.dropSpaces l = c :: l' ∧ Ascii.is_space c = false.
Proof.
  induction l as [|c l IH]; simpl; [by left|].
  destruct (Ascii.is_space c) eqn:E; [done|]. right; eauto.
Qed.

Lemma dropSpaces_nonspace c l :
  Ascii.is_space c = false → Js.dropSpaces (c :: l) = c :: l.
Proof. intros H. simpl. by rewrite H. Qed.

Lemma dropSpaces_idemp l : Js.dropSpaces (Js.dropSpaces l) = Js.dropSpaces l.
Proof.
  destruct (dropSpaces_head l) as [->|(c & l' & -> & H)]; [done|].
  by apply dropSpaces_nonspace.
Qed.

Lemma dropSpaces_snoc l c :
  Ascii.is_space c = false → Js.dropSpaces (l ++ [c]) = Js.dropSpaces l ++ [c].
Proof.
  intros H. induction l as [|a l IH]; simpl; [by rewrite H|].
  by destruct (Ascii.is_space a).
Qed.

Lemma trimEnd_idemp l : Js.trimEnd (Js.trimEnd l) = Js.trimEnd l.
Proof. unfold Js.trimEnd. by rewrite rev_involutive, dropSpaces_idemp. Qed.

Lemma trimEnd_nonspace c l :
  Ascii.is_space c = false → ∃ l', Js.trimEnd (c :: l) = c :: l'.
Proof.
  intros H. unfold Js.trimEnd. simpl rev.
  rewrite dropSpaces_snoc by done. rewrite rev_app_distr. simpl. eauto.
Qed.

(** Trimming a trimmed string changes nothing. *)
Lemma trim_idemp s : Js.trim (Js.trim s) = Js.trim s.
Proof.
  unfold Js.trim. rewrite String.list_ascii_of_string_of_list_ascii.
  f_equal. unfold Js.trimStart.
  destruct (dropSpaces_head (String.list_ascii_of_string s))
    as [->|(c & l' & -> & H)]; [done|].
  destruct (trimEnd_nonspace c l' H) as [l'' E].
  rewrite E, dropSpaces_nonspace by done. rewrite <- E. apply trimEnd_idemp.
Qed.

End Trim.

(** ** Reasoning about handlers *)

Ltac unfold_M :=
  unfold run, handler, validated, checkResourceOwnership,
    mbind, M_bind, mret, M_ret, throw, read,
    try_catch, promise_all2, write, withTransaction in *.

Ltac run_simpl :=
  cbn beta iota zeta delta
    [db faults fst snd events swapRequests with_events with_swapRequests
     next_fault orb andb negb
     SwapRequest.mySlotId SwapRequest.theirSlotId SwapRequest.requestedBy
     SwapRequest.requestedTo SwapRequest.status].

Ltac bd_true :=
  rewrite bool_decide_eq_true_2 by (done || congruence || lia || tauto);
  run_simpl.
Ltac bd_false :=
  rewrite bool_decide_eq_false_2 by (done || congruence || lia || tauto);
  run_simpl.

Section Preserves.
Context (P : DB → DB → Prop) `{!Reflexive P, !Transitive P}.

Lemma preserves_ret {A} (a : A) : preserves P (mret a : M A).
Proof. intros w. apply reflexivity. Qed.

Lemma preserves_throw {A} e : preserves P (throw e : M A).
Proof. intros w. apply reflexivity. Qed.

Lemma preserves_read {A} (f : DB → A) : preserves P (read f).
Proof. intros w. apply reflexivity. Qed.

Lemma preserves_pure {B} (b : B) : preserves P (λ w, (w, b)).
Proof. intros w. apply reflexivity. Qed.

Lemma preserves_bind {A B} (m : M A) (k : A → M B) :
  preserves P m → (∀ a, preserves P (k a)) → preserves P (m ≫= k).
Proof.
  intros Hm Hk w. unfold mbind, M_bind. specialize (Hm w).
  destruct (m w) as [w' [a|e]]; simpl in *; [|done].
  etrans; [exact Hm|]. apply Hk.
Qed.

Lemma preserves_try_catch {A} (m : M A) (h : Exn → M A) :
  preserves P m → (∀ e, preserves P (h e)) → preserves P (try_catch m h).
Proof.
  intros Hm Hh w. unfold try_catch. specialize (Hm w).
  destruct (m w) as [w' [a|e]]; simpl in *; [done|].
  etrans; [exact Hm|]. apply Hh.
Qed.

Lemma preserves_write (f : DB → Outcome DB) :
  (∀ d d', f d = Returned d' → P d d') → preserves P (write f).
Proof.
  intros Hf w. unfold write. destruct (next_fault (faults w)) as [[] fs];
    simpl; [apply reflexivity|].
  destruct (f (db w)) as [d'|e] eqn:E; simpl; [by apply Hf|apply reflexivity].
Qed.

Lemma preserves_all2 {A B} (a : M A) (b : M B) :
  preserves P a → preserves P b → preserves P (promise_all2 a b).
Proof.
  intros Ha Hb w. unfold promise_all2. specialize (Ha w).
  destruct (a w) as [w1 ra]. specialize (Hb w1).
  destruct (b w1) as [w2 rb]. simpl in *. by etrans.
Qed.

Lemma preserves_withTransaction {A} (body : M A) :
  preserves P body → preserves P (withTransaction body).
Proof.
  intros Hb w. unfold withTransaction. specialize (Hb w).
  destruct (body w) as [w' [a|e]]; simpl in *; [|apply reflexivity].
  destruct (next_fault (faults w')) as [[] fs]; simpl;
    [apply reflexivity|done].
Qed.

Lemma preserves_handler {A} (body : M (Response A)) on_error :
  preserves P body → preserves P (handler body on_error).
Proof.
  intros Hb w. unfold handler. specialize (Hb w).
  by destruct (body w) as [w' [a|e]].
Qed.

Lemma preserves_validated {A B} (input : option A)
    (next : A → World → World * Response B) :
  (∀ a, preserves P (next a)) → preserves P (validated input next).
Proof.
  intros Hn. destruct input as [a|]; simpl; [apply Hn|].
  intros w. apply reflexivity.
Qed.

Lemma preserves_ownership {A} user id
    (next : Event.doc → World → World * Response A) :
  (∀ e, preserves P (next e)) → preserves P (checkResourceOwnership user id next).
Proof.
  intros Hn w. unfold checkResourceOwnership.
  destruct (events (db w) !! id) as [e|]; simpl; [|apply reflexivity].
  case_bool_decide; simpl; [apply reflexivity|apply Hn].
Qed.

Lemma preserves_run {B} (m : World → World * B) fs d :
  preserves P m → P d (run fs d m).1.
Proof.
  intros Hm. unfold run. specialize (Hm {| db := d; faults := fs |}).
  by destruct (m _).
Qed.

End Preserves.

(** Breaks a goal [preserves P m] down along the structure of [m]; what is
    left are the writes. *)
Ltac preserves_step :=
  lazymatch goal with
  | |- preserves _ (mbind _ _) => apply preserves_bind; [try apply _ ..| |intros ?]
  | |- preserves _ (mret _) => apply preserves_ret; apply _
  | |- preserves _ (throw _) => apply preserves_throw; apply _
  | |- preserves _ (read _) => apply preserves_read; apply _
  | |- preserves _ (λ w, (w, _)) => apply preserves_pure; apply _
  | |- preserves _ (promise_all2 _ _) => apply preserves_all2; [try apply _ ..| |]
  | |- preserves _ (try_catch _ _) =>
      apply preserves_try_catch; [try apply _ ..| |intros ?]
  | |- preserves _ (withTransaction _) =>
      apply preserves_withTransaction; [try apply _ ..|]
  | |- preserves _ (handler _ _) => apply preserves_handler
  | |- preserves _ (validated _ _) =>
      apply preserves_validated; [try apply _ ..|intros ?]
  | |- preserves _ (checkResourceOwnership _ _ _) =>
      apply preserves_ownership; [try apply _ ..|intros ?]
  | |- preserves _ (if ?b then _ else _) => destruct b
  | |- preserves _ (match ?x with _ => _ end) => destruct x
  | |- preserves _ (let _ := _ in _) => cbv zeta
  end.

(** ** The relations on stores are preorders *)

Global Instance events_outside_refl ids : Reflexive (events_outside ids).
Proof. by intros d id _. Qed.

Global Instance events_outside_trans ids : Transitive (events_outside ids).
Proof. intros d1 d2 d3 H12 H23 id Hid. by rewrite H23, H12. Qed.

Global Instance same_events_refl : Reflexive same_events.
Proof. by intros d. Qed.

Global Instance same_events_trans : Transitive same_events.
Proof. unfold same_events. intros d1 d2 d3 H12 H23. congruence. Qed.

Global Instance same_swapRequests_refl : Reflexive same_swapRequests.
Proof. by intros d. Qed.

Global Instance same_swapRequests_trans : Transitive same_swapRequests.
Proof. unfold same_swapRequests. intros d1 d2 d3 H12 H23. congruence. Qed.

Global Instance no_new_pending_refl : Reflexive no_new_pending.
Proof. by intros d i r. Qed.

Global Instance no_new_pending_trans : Transitive no_new_pending.
Proof. intros d1 d2 d3 H12 H23 i r Hr Hp. eauto. Qed.

Ltac preserves_auto :=
  repeat first
    [ progress cbn beta iota zeta delta [andb orb negb] | preserves_step ].

(** ** Lookups in the collections *)

Lemma newObjectId_fresh {A} (m : gmap nat A) : m !! newObjectId m = None.
Proof. apply not_elem_of_dom. apply is_fresh. Qed.

Lemma existsb_map_to_list {A} (f : nat * A → bool) (m : gmap nat A) :
  existsb f (map_to_list m) = true ↔ ∃ i x, m !! i = Some x ∧ f (i, x) = true.
Proof.
  rewrite existsb_exists. split.
  - intros ([i x] & Hin & Hf). exists i, x. split; [|done].
    apply elem_of_map_to_list. by apply list_elem_of_In.
  - intros (i & x & Hl & Hf). exists (i, x). split; [|done].
    apply list_elem_of_In. by apply elem_of_map_to_list.
Qed.

Lemma existsb_map_to_list_false {A} (f : nat * A → bool) (m : gmap nat A) i x :
  existsb f (map_to_list m) = false → m !! i = Some x → f (i, x) = false.
Proof.
  intros He Hl. destruct (f (i, x)) eqn:Hf; [|done].
  rewrite <- He. symmetry. apply existsb_map_to_list. eauto.
Qed.

Lemma pending_between_spec a b r :
  Swaps.pending_between a b r = true ↔
  SwapRequest.status r = SwapRequest.PENDING ∧
  ((SwapRequest.mySlotId r = a ∧ SwapRequest.theirSlotId r = b) ∨
   (SwapRequest.mySlotId r = b ∧ SwapRequest.theirSlotId r = a)).
Proof.
  unfold Swaps.pending_between.
  rewrite orb_true_iff, !andb_true_iff, !bool_decide_eq_true. tauto.
Qed.

Lemma index_conflict_not_pending reqs id r :
  SwapRequest.status r ≠ SwapRequest.PENDING →
  SwapRequestModel.index_conflict reqs id r = false.
Proof.
  intros H. unfold SwapRequestModel.index_conflict, SwapRequest.in_partial_filter.
  by rewrite bool_decide_eq_false_2.
Qed.

(** ** Validation *)

Lemma validate_message_valid message :
  Js.isLength 0 300 (Js.trim (default "" message)) = true →
  Swaps.validate_message message = Some (Js.trim <$> message).
Proof. destruct message as [m|]; simpl; [|done]. by intros ->. Qed.

Lemma validate_response_set r s msg now :
  SwapRequest.validate r = true → Js.isLength 0 300 (Js.trim msg) = true →
  SwapRequest.validate
    (SwapRequest.set_respondedAt now
       (SwapRequest.set_responseMessage msg (SwapRequest.set_status s r))) = true.
Proof.
  unfold SwapRequest.validate. simpl. intros [H1 _]%andb_true_iff H2.
  by rewrite H1, H2.
Qed.

Lemma validate_cancel_set r s now :
  SwapRequest.validate r = true →
  SwapRequest.validate
    (SwapRequest.set_respondedAt now (SwapRequest.set_status s r)) = true.
Proof. done. Qed.

Lemma event_validate_swapped now e u s h :
  Event.validate now e = true →
  Event.validate now
    (Event.push_swapHistory h (Event.set_status s (Event.set_userId u e))) = true.
Proof. done. Qed.

(** ** What each write touches *)

Lemma elem_of_pair (x a b : nat) : x ∉ [a; b] → ¬ (x = a ∨ x = b).
Proof. rewrite !elem_of_cons, elem_of_nil. tauto. Qed.

Lemma findByIdAndUpdate_outside id f ids :
  id ∈ ids → preserves (events_outside ids) (EventModel.findByIdAndUpdate id f).
Proof.
  intros Hin. apply preserves_write; [apply _|].
  intros d d' [= <-] j Hj. simpl. apply lookup_alter_ne. by intros ->.
Qed.

Lemma event_save_outside now isNew id e ids :
  id ∈ ids → preserves (events_outside ids) (EventModel.save now isNew id e).
Proof.
  intros Hin. unfold EventModel.save. preserves_auto.
  apply preserves_write; [apply _|].
  intros d d' [= <-] j Hj. simpl. apply lookup_insert_ne. by intros ->.
Qed.

Lemma store_doc_same_events id r :
  preserves same_events (SwapRequestModel.store_doc id r).
Proof.
  apply preserves_write; [apply _|]. intros d d'.
  case_match; [done|]. by intros [= <-].
Qed.

Lemma store_doc_outside id r ids :
  preserves (events_outside ids) (SwapRequestModel.store_doc id r).
Proof.
  apply preserves_write; [apply _|]. intros d d'.
  case_match; [done|]. by intros [= <-].
Qed.

Lemma request_save_outside now id r ids :
  preserves (events_outside ids) (SwapRequestModel.save now false id r).
Proof.
  unfold SwapRequestModel.save, SwapRequestModel.pre_save,
    SwapRequestModel.post_save.
  preserves_auto. apply store_doc_outside.
Qed.

Lemma accept_outside now id r msg :
  preserves (events_outside [SwapRequest.mySlotId r; SwapRequest.theirSlotId r])
    (SwapRequestModel.accept now id r msg).
Proof.
  unfold SwapRequestModel.accept, EventModel.findById. preserves_auto.
  - apply event_save_outside. apply elem_of_cons; auto.
  - apply event_save_outside. rewrite !elem_of_cons; auto.
  - apply request_save_outside.
Qed.

Lemma reject_outside now id r msg :
  preserves (events_outside [SwapRequest.mySlotId r; SwapRequest.theirSlotId r])
    (SwapRequestModel.reject now id r msg).
Proof.
  unfold SwapRequestModel.reject. preserves_auto.
  - apply findByIdAndUpdate_outside. apply elem_of_cons; auto.
  - apply findByIdAndUpdate_outside. rewrite !elem_of_cons; auto.
  - apply request_save_outside.
Qed.

Lemma cancel_outside now id r :
  preserves (events_outside [SwapRequest.mySlotId r; SwapRequest.theirSlotId r])
    (SwapRequestModel.cancel now id r).
Proof.
  unfold SwapRequestModel.cancel. preserves_auto.
  - apply findByIdAndUpdate_outside. apply elem_of_cons; auto.
  - apply findByIdAndUpdate_outside. rewrite !elem_of_cons; auto.
  - apply request_save_outside.
Qed.

Lemma event_write_same_swapRequests (f : gmap nat Event.doc → gmap nat Event.doc) :
  preserves same_swapRequests (write (λ d, Returned (with_events f d))).
Proof. apply preserves_write; [apply _|]. by intros d d' [= <-]. Qed.

Lemma event_write_no_new_pending (f : gmap nat Event.doc → gmap nat Event.doc) :
  preserves no_new_pending (write (λ d, Returned (with_events f d))).
Proof. apply preserves_write; [apply _|]. by intros d d' [= <-] i r. Qed.

Lemma store_doc_no_new_pending id r :
  SwapRequest.status r ≠ SwapRequest.PENDING →
  preserves no_new_pending (SwapRequestModel.store_doc id r).
Proof.
  intros Hr. apply preserves_write; [apply _|]. intros d d'.
  case_match; [done|]. intros [= <-] i r' Hl Hp. simpl in Hl.
  destruct (decide (i = id)) as [->|Hne].
  - rewrite lookup_insert_eq in Hl. congruence.
  - by rewrite lookup_insert_ne in Hl.
Qed.

Lemma request_save_no_new_pending now id r :
  SwapRequest.status r ≠ SwapRequest.PENDING →
  preserves no_new_pending (SwapRequestModel.save now false id r).
Proof.
  intros Hr.
  unfold SwapRequestModel.save, SwapRequestModel.pre_save,
    SwapRequestModel.post_save.
  preserves_auto. by apply store_doc_no_new_pending.
Qed.

(** Answering or cancelling a request adds no Pending request. *)
Lemma respond_no_new_pending now user rid action message :
  preserves no_new_pending (Swaps.respond now user rid action message).
Proof.
  unfold Swaps.respond, Swaps.respond_handler, SwapRequestModel.accept,
    SwapRequestModel.reject, SwapRequestModel.findById, EventModel.findById,
    EventModel.save, EventModel.findByIdAndUpdate.
  preserves_auto;
    try apply event_write_no_new_pending;
    by apply request_save_no_new_pending.
Qed.

Lemma cancel_no_new_pending now user rid :
  preserves no_new_pending (Swaps.cancel now user rid).
Proof.
  unfold Swaps.cancel, SwapRequestModel.cancel, SwapRequestModel.findById,
    EventModel.findByIdAndUpdate.
  preserves_auto;
    try apply event_write_no_new_pending;
    by apply request_save_no_new_pending.
Qed.

(** The routes of events.js never write a swap request. *)
Lemma events_routes_same_swapRequests now :
  (∀ user body, preserves same_swapRequests (Events.post now user body)) ∧
  (∀ user id body, preserves same_swapRequests (Events.put now user id body)) ∧
  (∀ user id, preserves same_swapRequests (Events.delete user id)) ∧
  (∀ user id s, preserves same_swapRequests (Events.patch_status now user id s)).
Proof.
  repeat split; intros;
    unfold Events.post, Events.put, Events.delete, Events.patch_status,
      Events.checkTimeConflicts, EventModel.find, EventModel.save,
      EventModel.findByIdAndDelete;
    preserves_auto; apply event_write_same_swapRequests.
Qed.

(** POST /api/swap/request never writes an event: the post-save hook of the
    request reads [isNew = false] and skips its two updates. *)
Lemma create_same_events now user a b message :
  preserves same_events (Swaps.create now user a b message).
Proof.
  unfold Swaps.create, Swaps.create_handler, SwapRequestModel.save,
    SwapRequestModel.pre_save, SwapRequestModel.post_save,
    SwapRequestModel.findOne, EventModel.findById.
  preserves_auto; apply store_doc_same_events.
Qed.

Lemma outside_run {B} ids (m : World → World * B) fs d id :
  preserves (events_outside ids) m → id ∉ ids →
  events (run fs d m).1 !! id = events d !! id.
Proof. intros Hm Hid. by apply (preserves_run _ m fs d Hm). Qed.

Lemma not_elem_of_singleton_list (id i : nat) : i ≠ id → id ∉ [i].
Proof. intros Hne Hin. apply list_elem_of_singleton in Hin. congruence. Qed.

Lemma post_event_keeps now fs user body d id e :
  events d !! id = Some e →
  events (run fs d (Events.post now user body)).1 !! id = Some e.
Proof.
  intros He.
  unfold Events.post, Events.checkTimeConflicts, EventModel.find, EventModel.save.
  unfold_M. destruct (Events.validateEvent now body) as [b|]; run_simpl; [|done].
  case_bool_decide; run_simpl; [done|].
  destruct (Event.validate _ _); run_simpl; [|done].
  destruct fs as [|[] fs]; run_simpl; try done.
  all: rewrite lookup_insert_ne; [done|];
    intros Heq; rewrite <- Heq, newObjectId_fresh in He; done.
Qed.

Lemma put_outside now user id body :
  preserves (events_outside [id]) (Events.put now user id body).
Proof.
  unfold Events.put, Events.checkTimeConflicts, EventModel.find.
  preserves_auto; apply event_save_outside; apply list_elem_of_here.
Qed.

Lemma delete_outside user id :
  preserves (events_outside [id]) (Events.delete user id).
Proof.
  unfold Events.delete, EventModel.findByIdAndDelete.
  preserves_auto. apply preserves_write; [apply _|].
  intros d d' [= <-] j Hj. simpl. apply lookup_delete_ne.
  intros ->. apply Hj, list_elem_of_here.
Qed.

Lemma patch_outside now user id s :
  preserves (events_outside [id]) (Events.patch_status now user id s).
Proof.
  unfold Events.patch_status.
  preserves_auto; apply event_save_outside; apply list_elem_of_here.
Qed.

(** ** Reverting the two slots of a request *)

Lemma released_lookup (m : gmap nat Event.doc) s my their id :
  alter (Event.set_status s) their (alter (Event.set_status s) my m) !! id =
  if decide (id = my ∨ id = their) then Event.set_status s <$> m !! id else m !! id.
Proof.
  rewrite !lookup_alter. repeat case_decide; subst; try done;
    try (exfalso; intuition congruence).
  all: by destruct (m !! _).
Qed.

Lemma slots_released_alter s r d d' :
  events d' = alter (Event.set_status s) (SwapRequest.theirSlotId r)
                (alter (Event.set_status s) (SwapRequest.mySlotId r) (events d)) →
  slots_released s r d d'.
Proof.
  intros H. unfold slots_released, slot_released, events_outside.
  rewrite H. split; [|split].
  - rewrite released_lookup. rewrite decide_True by auto.
    by destruct (events d !! _).
  - rewrite released_lookup. rewrite decide_True by auto.
    by destruct (events d !! _).
  - intros id Hid. rewrite released_lookup. rewrite decide_False; [done|].
    by apply elem_of_pair.
Qed.

(** * The claims *)

(** ** C1: accepting a pending request *)

(** C1, as amended.  When the recipient of a Pending, unexpired request
    answers "accept", both slots exist with status SWAP_PENDING and still
    pass the validators of the Event schema (their start times are in the
    future), the stored request passes its own validators and the trimmed
    message has at most 300 characters, the response is a success; after
    it the owners of the two slots are exchanged, both slots are BUSY, the
    request is ACCEPTED, its [responseMessage] is the supplied message
    trimmed, and [respondedAt] is the time of the response. *)
Theorem accept_exchanges_slots now user rid r m t message d :
  swapRequests d !! rid = Some r →
  SwapRequest.status r = SwapRequest.PENDING →
  now ≤ SwapRequest.expiresAt r →
  SwapRequest.requestedTo r = user →
  events d !! SwapRequest.mySlotId r = Some m →
  events d !! SwapRequest.theirSlotId r = Some t →
  Event.status m = Event.SWAP_PENDING →
  Event.status t = Event.SWAP_PENDING →
  Event.validate now m = true →
  Event.validate now t = true →
  SwapRequest.validate r = true →
  Js.isLength 0 300 (Js.trim (default "" message)) = true →
  ∃ d' r',
    run [] d (Swaps.respond now user rid "accept" message)
      = (d', Success 200 (rid, r')) ∧
    swapRequests d' !! rid = Some r' ∧
    SwapRequest.status r' = SwapRequest.ACCEPTED ∧
    SwapRequest.responseMessage r' = Js.trim (default "" message) ∧
    SwapRequest.respondedAt r' = Some now ∧
    Event.userId <$> events d' !! SwapRequest.mySlotId r = Some (Event.userId t) ∧
    Event.userId <$> events d' !! SwapRequest.theirSlotId r = Some (Event.userId m) ∧
    Event.status <$> events d' !! SwapRequest.mySlotId r = Some Event.BUSY ∧
    Event.status <$> events d' !! SwapRequest.theirSlotId r = Some Event.BUSY.
Proof.
  intros Hr Hp Hexp Hu Hm Ht Hms Hts Hmv Htv Hrv Hmsg.
  unfold Swaps.respond, Swaps.validate_response.
  rewrite bool_decide_eq_true_2 by (rewrite elem_of_cons; auto).
  rewrite validate_message_valid by done. simpl.
  unfold Swaps.respond_handler, SwapRequestModel.findById,
    SwapRequestModel.accept, SwapRequestModel.save, SwapRequestModel.pre_save,
    SwapRequestModel.post_save, SwapRequestModel.store_doc, EventModel.save,
    EventModel.findById, SwapRequest.isExpired.
  unfold_M. run_simpl. rewrite Hr. run_simpl. rewrite Hm, Ht. run_simpl.
  do 3 bd_false. rewrite Hms, Hts.
  rewrite !(bool_decide_eq_false_2 (_ ≠ _)) by (intros H; by apply H).
  run_simpl. bd_true. rewrite Hm, Ht. run_simpl.
  rewrite !event_validate_swapped by done. run_simpl.
  rewrite validate_response_set; [|done|].
  2:{ rewrite trim_idemp. by destruct message; simpl; rewrite ?trim_idemp. }
  run_simpl.
  rewrite index_conflict_not_pending by done. run_simpl.
  eexists _, _. split; [reflexivity|]. simpl.
  rewrite lookup_insert_eq. split; [done|]. split; [done|].
  split. { destruct message; simpl; by rewrite !trim_idemp. }
  split; [done|].
  rewrite lookup_insert_eq.
  destruct (decide (SwapRequest.theirSlotId r = SwapRequest.mySlotId r)) as [E|E].
  - rewrite E, lookup_insert_eq. rewrite E, Hm in Ht. by simplify_eq.
  - by rewrite lookup_insert_ne, lookup_insert_eq.
Qed.

(** The scenario of the specification: user 20 accepts request 0. *)
Lemma accept_exchanges_slots_witness :
  ∃ d' r',
    run [] Scenario.pending (Swaps.respond 6 20 0 "accept" (Some " ok "))
      = (d', Success 200 (0%nat, r')) ∧
    SwapRequest.status r' = SwapRequest.ACCEPTED ∧
    SwapRequest.responseMessage r' = "ok" ∧
    Event.userId <$> events d' !! 1%nat = Some 20%nat ∧
    Event.userId <$> events d' !! 2%nat = Some 10%nat.
Proof.
  destruct (accept_exchanges_slots 6 20 0
              (Scenario.request 1 2 10 20 SwapRequest.PENDING 5)
              (Scenario.slot 10 Event.SWAP_PENDING 1000)
              (Scenario.slot 20 Event.SWAP_PENDING 2000)
              (Some " ok ") Scenario.pending)
    as (d' & r' & Hrun & _ & Hs & Hm & _ & Hu1 & Hu2 & _);
    try (vm_compute; reflexivity); try (vm_compute; discriminate).
  exists d', r'. repeat split; assumption.
Defined.

(** C1 as stated fails: the recipient accepts with the message " ok "; the
    request is Pending and not expired, both slots are SWAP_PENDING, the
    response is a success, and the stored [responseMessage] is "ok", not
    the supplied message. *)
Lemma accept_trims_the_message :
  let res := run [] Scenario.pending
               (Swaps.respond 6 20 0 "accept" (Some " ok ")) in
  swapRequests Scenario.pending !! 0%nat
    = Some (Scenario.request 1 2 10 20 SwapRequest.PENDING 5) ∧
  Event.status <$> events Scenario.pending !! 1%nat = Some Event.SWAP_PENDING ∧
  Event.status <$> events Scenario.pending !! 2%nat = Some Event.SWAP_PENDING ∧
  is_failure res.2 = false ∧
  SwapRequest.responseMessage <$> swapRequests res.1 !! 0%nat = Some "ok" ∧
  "ok" ≠ " ok ".
Proof. vm_compute. repeat split; done. Qed.

(** A second way C1 as stated fails in the model: once the start time of a
    slot has passed, saving the slot fails the [startTime] validator, the
    transaction is aborted and the response is a 500. *)
Lemma accept_of_started_slot_fails :
  run [] Scenario.pending (Swaps.respond 1500 20 0 "accept" None)
  = (Scenario.pending, Failure 500 "Event validation failed").
Proof. vm_compute. reflexivity. Qed.

(** ** C2: atomicity of the transitions *)

(** C2, at the failing input.  The recipient rejects request 0; the two
    slot updates succeed and the save of the request fails.  The response
    is a 500, both slots are SWAPPABLE again, and the request is still
    Pending: the slot side effects are persisted without the request's
    state change. *)
Theorem reject_is_not_atomic :
  let res := run [false; false; true] Scenario.pending
               (Swaps.respond 6 20 0 "reject" None) in
  res.2 = Failure 500 "store operation failed" ∧
  Event.status <$> events res.1 !! 1%nat = Some Event.SWAPPABLE ∧
  Event.status <$> events res.1 !! 2%nat = Some Event.SWAPPABLE ∧
  swapRequests res.1 !! 0%nat
    = Some (Scenario.request 1 2 10 20 SwapRequest.PENDING 5).
Proof. vm_compute. repeat split; reflexivity. Qed.

Ltac accepted_state :=
  rewrite index_conflict_not_pending by done; run_simpl;
  rewrite ?lookup_insert_eq; split; [done|]; split; [done|]; split; [|done];
  match goal with
  | |- context [<[?j := _]> (<[?i := _]> _) !! ?i] =>
      destruct (decide (j = i)) as [E|E];
      [by rewrite E, lookup_insert_eq
      |by rewrite lookup_insert_ne, lookup_insert_eq]
  end.

(** X1.  The sibling path: [accept] runs in a transaction.  Whatever writes
    fail, it either returns with the request ACCEPTED and both slots BUSY
    in the store, or throws and leaves the store as it was. *)
Theorem accept_is_all_or_nothing now id r msg w :
  match SwapRequestModel.accept now id r msg w with
  | (w', Returned r') =>
      swapRequests (db w') !! id = Some r' ∧
      SwapRequest.status r' = SwapRequest.ACCEPTED ∧
      Event.status <$> events (db w') !! SwapRequest.mySlotId r = Some Event.BUSY ∧
      Event.status <$> events (db w') !! SwapRequest.theirSlotId r = Some Event.BUSY
  | (w', Thrown _) => db w' = db w
  end.
Proof.
  unfold SwapRequestModel.accept.
  case_bool_decide; [done|]. destruct (SwapRequest.isExpired now r); [done|].
  unfold SwapRequestModel.save, SwapRequestModel.pre_save,
    SwapRequestModel.post_save, SwapRequestModel.store_doc, EventModel.save,
    EventModel.findById.
  unfold_M. destruct w as [d fs]. run_simpl.
  destruct (events d !! SwapRequest.mySlotId r) as [m|]; run_simpl; [|done].
  destruct (events d !! SwapRequest.theirSlotId r) as [t|]; run_simpl; [|done].
  destruct (negb (Event.validate now
              (Event.push_swapHistory _
                 (Event.set_status _ (Event.set_userId _ m))))); run_simpl.
  { destruct (negb (Event.validate _ _)); run_simpl; [done|].
    by destruct fs as [|[] fs]. }
  destruct (negb (Event.validate _ _)); run_simpl.
  { by destruct fs as [|[] fs]. }
  destruct (negb (SwapRequest.validate _)) eqn:Hv; run_simpl.
  { destruct fs as [|[] [|[] fs]]; run_simpl; try done; by rewrite Hv. }
  destruct fs as [|[] [|[] [|[] [|[] fs]]]]; run_simpl; rewrite ?Hv; run_simpl;
    try done; accepted_state.
Qed.

(** ** C3: a started slot is never offered *)

(** C3, at the failing input.  Slot 1 started at 1000; at 1500 the
    requester cancels the pending request 0.  The cancellation succeeds
    and sets the status of slot 1 to SWAPPABLE although its start time is
    in the past. *)
Theorem cancel_offers_a_started_slot :
  let now := 1500 in
  let res := run [] Scenario.pending (Swaps.cancel now 10 0) in
  Event.startTime <$> events Scenario.pending !! 1%nat = Some 1000 ∧
  1000 < now ∧
  is_failure res.2 = false ∧
  Event.startTime <$> events res.1 !! 1%nat = Some 1000 ∧
  Event.status <$> events res.1 !! 1%nat = Some Event.SWAPPABLE.
Proof. vm_compute. repeat split; reflexivity. Qed.

(** X2.  The sibling path: PATCH /api/events/:id/status refuses every
    change of status of a slot that has started. *)
Theorem patch_status_guards_started_slots now fs user id s d e :
  events d !! id = Some e → Event.startTime e ≤ now →
  fails d (run fs d (Events.patch_status now user id s)).
Proof.
  intros He Hs. unfold fails, Events.patch_status. unfold_M. run_simpl.
  rewrite He. case_bool_decide; run_simpl; [done|].
  destruct (Events.status_allowed s); run_simpl; [|done].
  case_bool_decide; run_simpl; [done|]. by bd_true.
Qed.

(** So does the method of the model. *)
Lemma markAsSwappable_guards_started_slots now id e w :
  Event.startTime e ≤ now →
  EventModel.markAsSwappable now id e w
  = (w, Thrown (Error "Cannot mark past events as swappable")).
Proof. intros Hs. unfold EventModel.markAsSwappable. by bd_true. Qed.

Lemma patch_status_guards_started_slots_witness :
  fails Scenario.offered
    (run [] Scenario.offered (Events.patch_status 1500 10 1 Event.BUSY)).
Proof.
  apply (patch_status_guards_started_slots 1500 [] 10 1 Event.BUSY
           Scenario.offered (Scenario.slot 10 Event.SWAPPABLE 1000)).
  - reflexivity.
  - vm_compute. discriminate.
Defined.

(** ** C4: expired requests *)

(** C4, as amended.  On a Pending request whose expiry has passed, every
    answer through POST /api/swap/response fails and leaves the store
    unchanged, whatever the user, the body and the outcomes of writes;
    from the recipient with a valid body the failure is Expired.  (The
    request stays Pending: nothing is written.) *)
Theorem expired_request_is_not_answered now user rid r action message fs d :
  swapRequests d !! rid = Some r →
  SwapRequest.status r = SwapRequest.PENDING →
  SwapRequest.expiresAt r < now →
  fails d (run fs d (Swaps.respond now user rid action message)) ∧
  (SwapRequest.requestedTo r = user →
   is_Some (Swaps.validate_response action message) →
   fails_with Expired d (run fs d (Swaps.respond now user rid action message))).
Proof.
  intros Hr Hp Hexp.
  unfold fails, fails_with, Swaps.respond, Swaps.respond_handler,
    SwapRequestModel.findById, EventModel.findById, SwapRequest.isExpired.
  destruct (Swaps.validate_response action message) as [[act msg]|];
    unfold_M; run_simpl.
  2:{ split; [done|]. by intros _ [? ?]. }
  rewrite Hr. run_simpl.
  case_bool_decide; run_simpl; [by split|].
  bd_false. bd_true. done.
Qed.

Lemma expired_request_is_not_answered_witness :
  fails_with Expired Scenario.pending
    (run [] Scenario.pending (Swaps.respond 604800006 20 0 "accept" None)).
Proof.
  apply (expired_request_is_not_answered 604800006 20 0
           (Scenario.request 1 2 10 20 SwapRequest.PENDING 5)
           "accept" None [] Scenario.pending);
    vm_compute; eauto.
Defined.

(** C4 as stated fails for cancel: request 0 expired at 604800005; at
    604800006 its requester cancels it.  The cancellation succeeds, the
    request is CANCELLED and both slots are SWAPPABLE. *)
Lemma cancel_of_expired_request_succeeds :
  let now := 604800006 in
  let res := run [] Scenario.pending (Swaps.cancel now 10 0) in
  SwapRequest.expiresAt <$> swapRequests Scenario.pending !! 0%nat
    = Some 604800005 ∧
  604800005 < now ∧
  is_failure res.2 = false ∧
  SwapRequest.status <$> swapRequests res.1 !! 0%nat
    = Some SwapRequest.CANCELLED ∧
  Event.status <$> events res.1 !! 1%nat = Some Event.SWAPPABLE ∧
  Event.status <$> events res.1 !! 2%nat = Some Event.SWAPPABLE.
Proof. vm_compute. repeat split; reflexivity. Qed.

(** ** C5: one Pending request per pair of slots *)

(** What POST /api/swap/request can do to the requests: nothing, or add one
    request over a pair that had no Pending request in either direction. *)
Lemma create_swapRequests now fs user a b message d :
  let d' := (run fs d (Swaps.create now user a b message)).1 in
  swapRequests d' = swapRequests d ∨
  ∃ r, swapRequests d' = <[newObjectId (swapRequests d) := r]> (swapRequests d) ∧
       SwapRequest.mySlotId r = a ∧ SwapRequest.theirSlotId r = b ∧
       ∀ i x, swapRequests d !! i = Some x → Swaps.pending_between a b x = false.
Proof.
  unfold Swaps.create, Swaps.create_handler, SwapRequestModel.save,
    SwapRequestModel.pre_save, SwapRequestModel.post_save,
    SwapRequestModel.store_doc, SwapRequestModel.findOne, EventModel.findById.
  destruct (Swaps.validate_message message) as [msg|]; unfold_M; run_simpl;
    [|by left].
  case_bool_decide; run_simpl; [by left|].
  destruct (events d !! a) as [m|] eqn:Hm; run_simpl; [|by left].
  destruct (events d !! b) as [t|] eqn:Ht; run_simpl; [|by left].
  repeat (case_bool_decide; run_simpl; [by left|]).
  destruct (existsb _ _) eqn:Hex; run_simpl; [by left|].
  destruct (negb _); run_simpl; [by left|].
  rewrite Hm, Ht. run_simpl.
  repeat (case_bool_decide; run_simpl; [by left|]).
  destruct fs as [|[] fs]; run_simpl; try (by left).
  all: destruct (SwapRequestModel.index_conflict _ _ _); run_simpl; [by left|].
  all: right; eexists; split; [reflexivity|]; split; [done|]; split; [done|].
  all: intros i x Hx; by apply (existsb_map_to_list_false _ _ i x Hex Hx).
Qed.

Lemma pending_unique_no_new d d' :
  no_new_pending d d' → pending_unique d → pending_unique d'.
Proof. intros Hn Hu i j r1 r2 H1 H2 P1 P2 Hs. eapply Hu; eauto. Qed.

Lemma pending_unique_same d d' :
  same_swapRequests d d' → pending_unique d → pending_unique d'.
Proof. unfold same_swapRequests, pending_unique. intros ->. done. Qed.

Lemma pending_unique_create now fs user a b message d :
  pending_unique d →
  pending_unique (run fs d (Swaps.create now user a b message)).1.
Proof.
  intros Hu. destruct (create_swapRequests now fs user a b message d)
    as [Hs|(r & Hs & Ha & Hb & Hnone)].
  { by apply (pending_unique_same d). }
  intros i j r1 r2 H1 H2 P1 P2 Hp. rewrite Hs in H1, H2.
  assert (∀ k x, swapRequests d !! k = Some x →
                 SwapRequest.status x = SwapRequest.PENDING →
                 ¬ same_pair x r ∧ ¬ same_pair r x) as Hfresh.
  { intros k x Hx Px. specialize (Hnone k x Hx).
    assert (¬ (Swaps.pending_between a b x = true)) as Hn by (by rewrite Hnone).
    rewrite pending_between_spec in Hn. unfold same_pair. rewrite Ha, Hb.
    split; intros [[??]|[??]]; apply Hn; (split; [done|]); auto. }
  destruct (decide (i = newObjectId (swapRequests d))) as [->|Hi];
    destruct (decide (j = newObjectId (swapRequests d))) as [->|Hj]; [done|..].
  - rewrite lookup_insert_eq in H1. rewrite lookup_insert_ne in H2 by done.
    simplify_eq. by destruct (Hfresh j r2 H2 P2) as [_ ?].
  - rewrite lookup_insert_eq in H2. rewrite lookup_insert_ne in H1 by done.
    simplify_eq. by destruct (Hfresh i r1 H1 P1) as [? _].
  - rewrite lookup_insert_ne in H1, H2 by done. eapply Hu; eauto.
Qed.

Lemma pending_unique_exec now fs c d :
  pending_unique d → pending_unique (exec now fs c d).
Proof.
  intros Hu.
  destruct (events_routes_same_swapRequests now) as (Hpost & Hput & Hdel & Hpatch).
  destruct c; simpl.
  - eapply pending_unique_same; [|done]. by apply (preserves_run same_swapRequests).
  - eapply pending_unique_same; [|done]. by apply (preserves_run same_swapRequests).
  - eapply pending_unique_same; [|done]. by apply (preserves_run same_swapRequests).
  - eapply pending_unique_same; [|done]. by apply (preserves_run same_swapRequests).
  - by apply pending_unique_create.
  - eapply pending_unique_no_new; [|done].
    apply (preserves_run no_new_pending). apply respond_no_new_pending.
  - eapply pending_unique_no_new; [|done].
    apply (preserves_run no_new_pending). apply cancel_no_new_pending.
Qed.

Lemma create_refused_when_pending now fs user a b message d i r :
  swapRequests d !! i = Some r →
  SwapRequest.status r = SwapRequest.PENDING →
  (SwapRequest.mySlotId r = a ∧ SwapRequest.theirSlotId r = b) ∨
  (SwapRequest.mySlotId r = b ∧ SwapRequest.theirSlotId r = a) →
  fails d (run fs d (Swaps.create now user a b message)) ∧
  (∀ m t, is_Some (Swaps.validate_message message) → a ≠ b →
     events d !! a = Some m → events d !! b = Some t →
     Event.userId m = user → Event.userId t ≠ user →
     Event.status m = Event.SWAPPABLE → Event.status t = Event.SWAPPABLE →
     now < Event.startTime m → now < Event.startTime t →
     run fs d (Swaps.create now user a b message)
     = (d, Failure 400 "A pending swap request already exists for these slots")).
Proof.
  intros Hr Hp Hpair.
  assert (existsb (λ p : nat * SwapRequest.doc, Swaps.pending_between a b p.2)
            (map_to_list (swapRequests d)) = true) as Hex.
  { apply existsb_map_to_list. exists i, r. split; [done|].
    simpl. by apply pending_between_spec. }
  unfold fails, Swaps.create, Swaps.create_handler, SwapRequestModel.findOne,
    EventModel.findById.
  destruct (Swaps.validate_message message) as [msg|]; unfold_M; run_simpl.
  2:{ split; [done|]. by intros m t [? ?]. }
  split.
  - case_bool_decide; run_simpl; [done|].
    destruct (events d !! a) as [m|]; run_simpl; [|done].
    destruct (events d !! b) as [t|]; run_simpl; [|done].
    repeat (case_bool_decide; run_simpl; [done|]).
    by rewrite Hex.
  - intros m t _ Hab Hm Ht ? ? ? ? ? ?. bd_false. rewrite Hm, Ht. run_simpl.
    do 6 bd_false. by rewrite Hex.
Qed.

Lemma store_doc_refuses_same_key fs d i r id r' :
  swapRequests d !! i = Some r →
  SwapRequest.status r = SwapRequest.PENDING →
  id ≠ i →
  SwapRequest.status r' = SwapRequest.PENDING →
  SwapRequest.mySlotId r' = SwapRequest.mySlotId r →
  SwapRequest.theirSlotId r' = SwapRequest.theirSlotId r →
  run (false :: fs) d (SwapRequestModel.store_doc id r')
  = (d, Thrown DuplicateKeyError).
Proof.
  intros Hr Hp Hid Hp' Hm Ht.
  unfold SwapRequestModel.store_doc. unfold_M. run_simpl.
  assert (SwapRequestModel.index_conflict (swapRequests d) id r' = true)
    as ->; [|done].
  unfold SwapRequestModel.index_conflict, SwapRequest.in_partial_filter.
  rewrite bool_decide_eq_true_2 by done. simpl.
  apply existsb_map_to_list. exists i, r. split; [done|]. simpl.
  rewrite !bool_decide_eq_true_2; [done| |done|done].
  unfold SwapRequest.index_key. congruence.
Qed.

(** C5, as amended.  From a store with at most one Pending request per
    unordered pair of slots, every request of the API, handled alone,
    leads to such a store.  POST /api/swap/request fails, and creates
    nothing, when a Pending request over the two slots exists in either
    direction: that is the pre-check of the route, and when the other
    preconditions of create hold its error is the 400 of the duplicate
    check.  The unique index of the store only refuses a second Pending
    request with the same ordered pair (mySlotId, theirSlotId). *)
Theorem one_pending_request_per_pair now fs d :
  pending_unique d →
  (∀ c, pending_unique (exec now fs c d)) ∧
  (∀ user a b message i r,
     swapRequests d !! i = Some r →
     SwapRequest.status r = SwapRequest.PENDING →
     (SwapRequest.mySlotId r = a ∧ SwapRequest.theirSlotId r = b) ∨
     (SwapRequest.mySlotId r = b ∧ SwapRequest.theirSlotId r = a) →
     fails d (run fs d (Swaps.create now user a b message)) ∧
     (∀ m t, is_Some (Swaps.validate_message message) → a ≠ b →
        events d !! a = Some m → events d !! b = Some t →
        Event.userId m = user → Event.userId t ≠ user →
        Event.status m = Event.SWAPPABLE → Event.status t = Event.SWAPPABLE →
        now < Event.startTime m → now < Event.startTime t →
        fails_with InvalidState d
          (run fs d (Swaps.create now user a b message)))) ∧
  (∀ i r id r',
     swapRequests d !! i = Some r →
     SwapRequest.status r = SwapRequest.PENDING →
     id ≠ i →
     SwapRequest.status r' = SwapRequest.PENDING →
     SwapRequest.mySlotId r' = SwapRequest.mySlotId r →
     SwapRequest.theirSlotId r' = SwapRequest.theirSlotId r →
     run (false :: fs) d (SwapRequestModel.store_doc id r')
     = (d, Thrown DuplicateKeyError)).
Proof.
  intros Hu. split; [|split].
  - intros c. by apply pending_unique_exec.
  - intros user a b message i r Hr Hp Hpair.
    destruct (create_refused_when_pending now fs user a b message d i r Hr Hp Hpair)
      as [Hf Hdup].
    split; [done|]. intros m t ? ? ? ? ? ? ? ? ? ?.
    rewrite (Hdup m t) by done. by split.
  - intros. by eapply store_doc_refuses_same_key.
Qed.

Lemma pending_uniqueb_correct d : pending_uniqueb d = true → pending_unique d.
Proof.
  unfold pending_uniqueb. intros H i j r1 r2 H1 H2.
  rewrite forallb_forall in H.
  apply elem_of_map_to_list, list_elem_of_In in H1, H2.
  specialize (H _ H1). rewrite forallb_forall in H. specialize (H _ H2).
  by apply bool_decide_eq_true_1 in H.
Qed.

(** User 20 asks for the swap in the other direction while request 0 is
    pending. *)
Lemma one_pending_request_per_pair_witness :
  pending_unique (exec 6 [] (PostSwapRequest 20 2 1 None) Scenario.pending) ∧
  fails Scenario.pending (run [] Scenario.pending (Swaps.create 6 20 2 1 None)).
Proof.
  destruct (one_pending_request_per_pair 6 [] Scenario.pending)
    as (Hexec & Hcreate & _).
  { apply pending_uniqueb_correct. vm_compute. reflexivity. }
  split; [apply Hexec|].
  apply (Hcreate 20%nat 2%nat 1%nat None 0%nat
           (Scenario.request 1 2 10 20 SwapRequest.PENDING 5));
    vm_compute; auto.
Defined.

(** C5 as stated fails: the store holds the Pending request 0 over slots
    (1, 2); saving a new Pending request over (2, 1) passes the validation,
    the pre-save hook and the unique index, and the store then holds two
    Pending requests over the same pair of slots. *)
Lemma reverse_request_passes_the_index :
  let reverse := Scenario.request 2 1 20 10 SwapRequest.PENDING 6 in
  let res := run [] Scenario.requested
               (SwapRequestModel.save 6 true 1 reverse) in
  res.2 = Returned () ∧
  swapRequests res.1 !! 0%nat
    = Some (Scenario.request 1 2 10 20 SwapRequest.PENDING 5) ∧
  swapRequests res.1 !! 1%nat = Some reverse ∧
  same_pair (Scenario.request 1 2 10 20 SwapRequest.PENDING 5) reverse.
Proof.
  vm_compute. split; [done|]. split; [done|]. split; [done|]. by right.
Qed.

(** ** C6: creating a request *)

(** C6, what the code does.  Every successful POST /api/swap/request
    returns a Pending request whose recipient is the owner of the target
    slot and whose expiry is the time of creation plus seven days, and
    stores it; but both slots keep the status SWAPPABLE: they are not set
    to SWAP_PENDING, because the post-save hook that would do it tests
    [doc.isNew], which is false by the time the hook runs. *)
Theorem create_leaves_slots_swappable now fs user a b message d d' code id r :
  run fs d (Swaps.create now user a b message) = (d', Success code (id, r)) →
  SwapRequest.status r = SwapRequest.PENDING ∧
  (∃ t, events d !! b = Some t ∧ SwapRequest.requestedTo r = Event.userId t) ∧
  SwapRequest.expiresAt r = now + SwapRequest.sevenDays ∧
  swapRequests d' !! id = Some r ∧
  Event.status <$> events d' !! a = Some Event.SWAPPABLE ∧
  Event.status <$> events d' !! b = Some Event.SWAPPABLE.
Proof.
  unfold Swaps.create, Swaps.create_handler, SwapRequestModel.save,
    SwapRequestModel.pre_save, SwapRequestModel.post_save,
    SwapRequestModel.store_doc, SwapRequestModel.findOne, EventModel.findById.
  destruct (Swaps.validate_message message) as [msg|]; unfold_M; run_simpl;
    [|done].
  case_bool_decide; run_simpl; [done|].
  destruct (events d !! a) as [m|] eqn:Hm; run_simpl; [|done].
  destruct (events d !! b) as [t|] eqn:Ht; run_simpl; [|done].
  repeat (case_bool_decide; run_simpl; [done|]).
  destruct (existsb _ _) eqn:Hex; run_simpl; [done|].
  destruct (negb _); run_simpl; [by destruct (Js.includes _ _)|].
  rewrite Hm, Ht. run_simpl.
  repeat (case_bool_decide; run_simpl; [by destruct (Js.includes _ _)|]).
  destruct fs as [|[] fs]; run_simpl; try (by destruct (Js.includes _ _)).
  all: destruct (SwapRequestModel.index_conflict _ _ _); run_simpl;
    [by destruct (Js.includes _ _)|].
  all: intros [= <- <- <- <-]; simpl; rewrite lookup_insert_eq, Hm, Ht; simpl.
  all: repeat split; try done; try (by f_equal);
    try (by destruct (Event.status _)); eauto.
Qed.

(** The scenario of the specification: user 10 offers slot 1 for slot 2. *)
Lemma create_leaves_slots_swappable_witness :
  let res := run [] Scenario.offered (Swaps.create 5 10 1 2 (Some "hi")) in
  res.2 = Success 201 (0%nat, Scenario.request 1 2 10 20 SwapRequest.PENDING 5) ∧
  Event.status <$> events res.1 !! 1%nat = Some Event.SWAPPABLE ∧
  Event.status <$> events res.1 !! 2%nat = Some Event.SWAPPABLE.
Proof.
  split; [vm_compute; reflexivity|].
  eapply (create_leaves_slots_swappable 5 [] 10 1 2 (Some "hi") Scenario.offered).
  vm_compute. reflexivity.
Defined.

(** ** C7: the failures of create *)

(** C7.  The handler of POST /api/swap/request checks its preconditions in
    the order of the claim, and the first one that fails decides the
    error: InvalidState when the two slot ids are equal; NotFound when one
    of the slots does not exist; Forbidden when mySlot is not owned by the
    requester; InvalidState when theirSlot is owned by the requester, when
    one of the slots is not SWAPPABLE, or when the start time of one of
    them is not strictly in the future.  In each case the store is left as
    it was: no request is created and no slot is changed. *)
Theorem create_failures now user my their message fs d :
  let res := run fs d (Swaps.create_handler now user my their message) in
  (my = their → fails_with InvalidState d res) ∧
  (my ≠ their → events d !! my = None ∨ events d !! their = None →
   fails_with NotFound d res) ∧
  (∀ m t, my ≠ their → events d !! my = Some m → events d !! their = Some t →
     (Event.userId m ≠ user → fails_with Forbidden d res) ∧
     (Event.userId m = user → Event.userId t = user →
      fails_with InvalidState d res) ∧
     (Event.userId m = user → Event.userId t ≠ user →
      Event.status m ≠ Event.SWAPPABLE ∨ Event.status t ≠ Event.SWAPPABLE →
      fails_with InvalidState d res) ∧
     (Event.userId m = user → Event.userId t ≠ user →
      Event.status m = Event.SWAPPABLE → Event.status t = Event.SWAPPABLE →
      Event.startTime m ≤ now ∨ Event.startTime t ≤ now →
      fails_with InvalidState d res)).
Proof.
  intros res. subst res.
  unfold fails_with, Swaps.create_handler, EventModel.findById. unfold_M.
  split; [|split].
  - intros ->. by bd_true.
  - intros Hne Hnone. bd_false.
    destruct Hnone as [-> | ->]; [done|]. by destruct (events d !! my).
  - intros m t Hne Hm Ht. bd_false. rewrite Hm, Ht.
    split; [|split; [|split]].
    + intros H. by bd_true.
    + intros H1 H2. bd_false. by bd_true.
    + intros H1 H2 H3. bd_false. bd_false.
      destruct H3 as [H3|H3].
      * by bd_true.
      * case_bool_decide; [done|]. by bd_true.
    + intros H1 H2 H3 H4 H5. do 4 bd_false.
      destruct H5.
      * by bd_true.
      * rewrite (bool_decide_eq_true_2 (Event.startTime t ≤ now)) by done.
        by rewrite orb_true_r.
Qed.

Lemma create_failures_witness :
  fails_with InvalidState Scenario.offered
    (run [] Scenario.offered (Swaps.create_handler 5 10 1 1 None)) ∧
  fails_with NotFound Scenario.offered
    (run [] Scenario.offered (Swaps.create_handler 5 10 1 3 None)) ∧
  fails_with Forbidden Scenario.offered
    (run [] Scenario.offered (Swaps.create_handler 5 20 1 2 None)).
Proof.
  split; [|split].
  - apply (create_failures 5 10 1 1 None [] Scenario.offered). reflexivity.
  - apply (create_failures 5 10 1 3 None [] Scenario.offered); [discriminate|].
    right. reflexivity.
  - apply (create_failures 5 20 1 2 None [] Scenario.offered) with
      (m := Scenario.slot 10 Event.SWAPPABLE 1000)
      (t := Scenario.slot 20 Event.SWAPPABLE 2000);
      try reflexivity; discriminate.
Defined.

(** ** C8: a slot with a pending swap is frozen *)

Lemma put_pending now fs user id body d e :
  events d !! id = Some e → Event.status e = Event.SWAP_PENDING →
  fails d (run fs d (Events.put now user id body)).
Proof.
  intros He Hs. unfold fails, Events.put. unfold_M. run_simpl. rewrite He.
  case_bool_decide; run_simpl; [done|].
  destruct (Events.validateEventUpdate now body); run_simpl; [|done].
  by bd_true.
Qed.

Lemma delete_pending fs user id d e :
  events d !! id = Some e → Event.status e = Event.SWAP_PENDING →
  fails d (run fs d (Events.delete user id)).
Proof.
  intros He Hs. unfold fails, Events.delete. unfold_M. run_simpl. rewrite He.
  case_bool_decide; run_simpl; [done|]. by bd_true.
Qed.

Lemma patch_pending now fs user id s d e :
  events d !! id = Some e → Event.status e = Event.SWAP_PENDING →
  fails d (run fs d (Events.patch_status now user id s)).
Proof.
  intros He Hs. unfold fails, Events.patch_status. unfold_M. run_simpl.
  rewrite He. case_bool_decide; run_simpl; [done|].
  destruct (Events.status_allowed s); run_simpl; [|done]. by bd_true.
Qed.

Lemma respond_touches now fs user rid action message d id :
  events (run fs d (Swaps.respond now user rid action message)).1 !! id
    ≠ events d !! id →
  ∃ r, swapRequests d !! rid = Some r ∧
       SwapRequest.status r = SwapRequest.PENDING ∧
       (SwapRequest.mySlotId r = id ∨ SwapRequest.theirSlotId r = id).
Proof.
  unfold Swaps.respond, Swaps.respond_handler, SwapRequestModel.findById,
    EventModel.findById.
  destruct (Swaps.validate_response action message) as [[act msg]|];
    unfold_M; run_simpl; [|done].
  destruct (swapRequests d !! rid) as [r|] eqn:Hr; run_simpl; [|done].
  case_bool_decide; run_simpl; [done|].
  case_bool_decide as Hst; run_simpl; [done|].
  destruct (SwapRequest.isExpired now r); run_simpl; [done|].
  destruct (events d !! SwapRequest.mySlotId r) as [m|]; run_simpl; [|done].
  destruct (events d !! SwapRequest.theirSlotId r) as [t|]; run_simpl; [|done].
  destruct (_ || _); run_simpl; [done|].
  intros Hch. exists r. split; [done|].
  split; [by destruct (SwapRequest.status r)|].
  destruct (decide (SwapRequest.mySlotId r = id)) as [|Hm]; [by left|].
  destruct (decide (SwapRequest.theirSlotId r = id)) as [|Ht]; [by right|].
  assert (id ∉ [SwapRequest.mySlotId r; SwapRequest.theirSlotId r]) as Hout.
  { rewrite !elem_of_cons, elem_of_nil. intros [->|[->|[]]]; congruence. }
  exfalso. apply Hch. clear Hch.
  case_bool_decide.
  - pose proof (accept_outside now rid r (Js.trim (default "" msg))
                  {| db := d; faults := fs |} id Hout) as H'.
    destruct (SwapRequestModel.accept _ _ _ _ _) as [w' [a|e]]; exact H'.
  - pose proof (reject_outside now rid r (Js.trim (default "" msg))
                  {| db := d; faults := fs |} id Hout) as H'.
    destruct (SwapRequestModel.reject _ _ _ _ _) as [w' [a|e]]; exact H'.
Qed.

Lemma cancel_touches now fs user rid d id :
  events (run fs d (Swaps.cancel now user rid)).1 !! id ≠ events d !! id →
  ∃ r, swapRequests d !! rid = Some r ∧
       SwapRequest.status r = SwapRequest.PENDING ∧
       (SwapRequest.mySlotId r = id ∨ SwapRequest.theirSlotId r = id).
Proof.
  unfold Swaps.cancel, SwapRequestModel.findById.
  unfold_M; run_simpl.
  destruct (swapRequests d !! rid) as [r|] eqn:Hr; run_simpl; [|done].
  case_bool_decide; run_simpl; [done|].
  case_bool_decide as Hst; run_simpl; [done|].
  intros Hch. exists r. split; [done|].
  split; [by destruct (SwapRequest.status r)|].
  destruct (decide (SwapRequest.mySlotId r = id)) as [|Hm]; [by left|].
  destruct (decide (SwapRequest.theirSlotId r = id)) as [|Ht]; [by right|].
  assert (id ∉ [SwapRequest.mySlotId r; SwapRequest.theirSlotId r]) as Hout.
  { rewrite !elem_of_cons, elem_of_nil. intros [->|[->|[]]]; congruence. }
  exfalso. apply Hch. clear Hch.
  pose proof (cancel_outside now rid r {| db := d; faults := fs |} id Hout) as H'.
  destruct (SwapRequestModel.cancel _ _ _ _) as [w' [a|e]]; exact H'.
Qed.

(** C8.  While a slot has status SWAP_PENDING, PUT, DELETE and PATCH on it
    fail, whoever calls them and whatever the body, and leave the store as
    it was; and the only requests of the API after which the slot is no
    longer what it was are an answer to, or the cancellation of, a Pending
    swap request that refers to it. *)
Theorem swap_pending_slot_is_frozen now fs d id e :
  events d !! id = Some e → Event.status e = Event.SWAP_PENDING →
  (∀ user body, fails d (run fs d (Events.put now user id body))) ∧
  (∀ user, fails d (run fs d (Events.delete user id))) ∧
  (∀ user status, fails d (run fs d (Events.patch_status now user id status))) ∧
  (∀ c, events (exec now fs c d) !! id ≠ Some e →
     ∃ user rid r,
       (c = PostSwapCancel user rid ∨
        ∃ action message, c = PostSwapResponse user rid action message) ∧
       swapRequests d !! rid = Some r ∧
       SwapRequest.status r = SwapRequest.PENDING ∧
       (SwapRequest.mySlotId r = id ∨ SwapRequest.theirSlotId r = id)).
Proof.
  intros He Hs. split; [|split; [|split]].
  - intros. by eapply put_pending.
  - intros. by eapply delete_pending.
  - intros. by eapply patch_pending.
  - intros c Hch.
    destruct c as [u b|u i b|u i|u i s|u a b m|u rid act m|u rid]; simpl in Hch.
    + exfalso. apply Hch. by apply post_event_keeps.
    + exfalso. apply Hch. destruct (decide (i = id)) as [->|Hne].
      * by destruct (put_pending now fs u id b d e He Hs) as [-> _].
      * rewrite <- He. apply outside_run with (ids := [i]);
          [apply put_outside|by apply not_elem_of_singleton_list].
    + exfalso. apply Hch. destruct (decide (i = id)) as [->|Hne].
      * by destruct (delete_pending fs u id d e He Hs) as [-> _].
      * rewrite <- He. apply outside_run with (ids := [i]);
          [apply delete_outside|by apply not_elem_of_singleton_list].
    + exfalso. apply Hch. destruct (decide (i = id)) as [->|Hne].
      * by destruct (patch_pending now fs u id s d e He Hs) as [-> _].
      * rewrite <- He. apply outside_run with (ids := [i]);
          [apply patch_outside|by apply not_elem_of_singleton_list].
    + exfalso. apply Hch. rewrite <- He. f_equal.
      apply (preserves_run same_events _ fs d (create_same_events now u a b m)).
    + rewrite <- He in Hch. apply respond_touches in Hch as (r & ? & ? & ?).
      exists u, rid, r. eauto 10.
    + rewrite <- He in Hch. apply cancel_touches in Hch as (r & ? & ? & ?).
      exists u, rid, r. eauto 10.
Qed.

Lemma swap_pending_slot_is_frozen_witness :
  fails Scenario.pending
    (run [] Scenario.pending (Events.patch_status 6 10 1 Event.SWAPPABLE)) ∧
  fails Scenario.pending (run [] Scenario.pending (Events.delete 10 1)).
Proof.
  destruct (swap_pending_slot_is_frozen 6 [] Scenario.pending 1
              (Scenario.slot 10 Event.SWAP_PENDING 1000))
    as (_ & Hdel & Hpatch & _); [reflexivity..|].
  split; [apply Hpatch|apply Hdel].
Defined.

(** ** C9: reject and cancel release the slots *)

Lemma reject_by_recipient now rid r d message m t :
  swapRequests d !! rid = Some r →
  SwapRequest.status r = SwapRequest.PENDING →
  SwapRequest.validate r = true →
  now ≤ SwapRequest.expiresAt r →
  events d !! SwapRequest.mySlotId r = Some m →
  events d !! SwapRequest.theirSlotId r = Some t →
  Event.status m = Event.SWAP_PENDING →
  Event.status t = Event.SWAP_PENDING →
  Js.isLength 0 300 (Js.trim (default "" message)) = true →
  ∃ d' r',
    run [] d (Swaps.respond now (SwapRequest.requestedTo r) rid "reject" message)
      = (d', Success 200 (rid, r')) ∧
    slots_released Event.SWAPPABLE r d d' ∧
    swapRequests d' = <[rid := r']> (swapRequests d) ∧
    SwapRequest.status r' = SwapRequest.REJECTED ∧
    SwapRequest.respondedAt r' = Some now.
Proof.
  intros Hr Hp Hrv Hexp Hm Ht Hms Hts Hmsg.
  unfold Swaps.respond, Swaps.validate_response.
  rewrite bool_decide_eq_true_2 by (rewrite !elem_of_cons; auto).
  rewrite validate_message_valid by done. simpl.
  unfold Swaps.respond_handler, SwapRequestModel.findById,
    SwapRequestModel.reject, SwapRequestModel.save, SwapRequestModel.pre_save,
    SwapRequestModel.post_save, SwapRequestModel.store_doc,
    EventModel.findByIdAndUpdate, EventModel.findById, SwapRequest.isExpired.
  unfold_M. run_simpl. rewrite Hr. run_simpl. rewrite Hm, Ht. run_simpl.
  do 3 bd_false. rewrite Hms, Hts.
  rewrite !(bool_decide_eq_false_2 (_ ≠ _)) by (intros H; by apply H).
  run_simpl. bd_false.
  rewrite validate_response_set; [|done|].
  2:{ rewrite trim_idemp. by destruct message; simpl; rewrite ?trim_idemp. }
  run_simpl.
  rewrite index_conflict_not_pending by done. run_simpl.
  eexists _, _. split; [reflexivity|]. split; [|done].
  by apply slots_released_alter.
Qed.

(** C9.  On a Pending request [r] (a document that passes the validators
    of its schema), the method [reject], with a response message within
    the limit of the schema, and the cancellation by the requester each
    succeed; each sets the status of the two slots of [r] to SWAPPABLE and
    leaves every other field of these slots, and every other slot, as it
    was; the request is stored REJECTED, respectively CANCELLED, with
    [respondedAt] set to the time of the call.  The same holds for a
    rejection through POST /api/swap/response by the recipient, which
    the route admits when the request has not expired and both slots are
    SWAP_PENDING. *)
Theorem reject_and_cancel_release_slots now rid r d :
  swapRequests d !! rid = Some r →
  SwapRequest.status r = SwapRequest.PENDING →
  SwapRequest.validate r = true →
  (∀ msg, Js.isLength 0 300 (Js.trim msg) = true →
     ∃ d' r',
       run [] d (SwapRequestModel.reject now rid r msg) = (d', Returned r') ∧
       slots_released Event.SWAPPABLE r d d' ∧
       swapRequests d' = <[rid := r']> (swapRequests d) ∧
       SwapRequest.status r' = SwapRequest.REJECTED ∧
       SwapRequest.respondedAt r' = Some now) ∧
  (∃ d' r',
     run [] d (Swaps.cancel now (SwapRequest.requestedBy r) rid)
       = (d', Success 200 (rid, r')) ∧
     slots_released Event.SWAPPABLE r d d' ∧
     swapRequests d' = <[rid := r']> (swapRequests d) ∧
     SwapRequest.status r' = SwapRequest.CANCELLED ∧
     SwapRequest.respondedAt r' = Some now) ∧
  (∀ message m t,
     now ≤ SwapRequest.expiresAt r →
     events d !! SwapRequest.mySlotId r = Some m →
     events d !! SwapRequest.theirSlotId r = Some t →
     Event.status m = Event.SWAP_PENDING →
     Event.status t = Event.SWAP_PENDING →
     Js.isLength 0 300 (Js.trim (default "" message)) = true →
     ∃ d' r',
       run [] d (Swaps.respond now (SwapRequest.requestedTo r) rid "reject" message)
         = (d', Success 200 (rid, r')) ∧
       slots_released Event.SWAPPABLE r d d' ∧
       swapRequests d' = <[rid := r']> (swapRequests d) ∧
       SwapRequest.status r' = SwapRequest.REJECTED ∧
       SwapRequest.respondedAt r' = Some now).
Proof.
  intros Hr Hp Hv. split; [|split].
  - intros msg Hm.
    unfold SwapRequestModel.reject, SwapRequestModel.save,
      SwapRequestModel.pre_save, SwapRequestModel.post_save,
      SwapRequestModel.store_doc, EventModel.findByIdAndUpdate.
    bd_false. unfold_M. run_simpl.
    rewrite validate_response_set by done. run_simpl.
    rewrite index_conflict_not_pending by done. run_simpl.
    eexists _, _. split; [reflexivity|]. split; [|done].
    by apply slots_released_alter.
  - unfold Swaps.cancel, SwapRequestModel.findById, SwapRequestModel.cancel,
      SwapRequestModel.save, SwapRequestModel.pre_save,
      SwapRequestModel.post_save, SwapRequestModel.store_doc,
      EventModel.findByIdAndUpdate.
    unfold_M. run_simpl. rewrite Hr. do 2 bd_false.
    rewrite validate_cancel_set by done. run_simpl.
    rewrite index_conflict_not_pending by done. run_simpl.
    eexists _, _. split; [reflexivity|]. split; [|done].
    by apply slots_released_alter.
  - intros. by eapply reject_by_recipient.
Qed.

(** The scenario of the specification: user 10 cancels request 0. *)
Lemma reject_and_cancel_release_slots_witness :
  ∃ d' r',
    run [] Scenario.pending (Swaps.cancel 6 10 0)
      = (d', Success 200 (0%nat, r')) ∧
    slots_released Event.SWAPPABLE
      (Scenario.request 1 2 10 20 SwapRequest.PENDING 5) Scenario.pending d' ∧
    SwapRequest.status r' = SwapRequest.CANCELLED.
Proof.
  destruct (reject_and_cancel_release_slots 6 0
              (Scenario.request 1 2 10 20 SwapRequest.PENDING 5)
              Scenario.pending)
    as (_ & (d' & r' & Hrun & Hrel & _ & Hs & _) & _); [reflexivity..|].
  exists d', r'. auto.
Defined.

(** ** C10: the status filter of the listings *)

Lemma paginate_subset page limit (found : list (nat * SwapRequest.doc)) p :
  p ∈ (Swaps.paginate page limit found).1 → p ∈ found.
Proof.
  unfold Swaps.paginate. simpl. intros Hp.
  apply elem_of_take in Hp as (i & Hp & _).
  rewrite lookup_drop in Hp. apply list_elem_of_lookup_2 in Hp.
  by rewrite merge_sort_Permutation in Hp.
Qed.

(** C10.  GET /api/swap/incoming answers the status filter CANCELLED with
    the 400 of the validation, for every user, page and limit; its filter
    admits exactly PENDING, ACCEPTED and REJECTED; whatever the filter, no
    request it returns is CANCELLED (each is a stored request directed to
    the user).  GET /api/swap/outgoing admits CANCELLED and returns the
    user's cancelled requests. *)
Theorem incoming_excludes_cancelled now user fs d :
  (∀ page limit,
     run fs d (Swaps.incoming now user (Some "CANCELLED") page limit)
     = (d, Failure 400 "Validation failed")) ∧
  (∀ s, Swaps.validate_listing ["PENDING"; "ACCEPTED"; "REJECTED"]
          (Some s) None None = true
        ↔ s = "PENDING" ∨ s = "ACCEPTED" ∨ s = "REJECTED") ∧
  (∀ status page limit,
     match (run fs d (Swaps.incoming now user status page limit)).2 with
     | Success _ (requests, _) =>
         Forall (λ p, SwapRequest.status p.2 ≠ SwapRequest.CANCELLED ∧
                      SwapRequest.requestedTo p.2 = user ∧
                      swapRequests d !! p.1 = Some p.2) requests
     | Failure _ _ => True
     end) ∧
  run fs d (Swaps.outgoing user (Some "CANCELLED") None None)
  = (d, Success 200
          (Swaps.paginate None None
             (filter (λ p, SwapRequest.requestedBy p.2 = user ∧
                           SwapRequest.status p.2 = SwapRequest.CANCELLED)
                     (map_to_list (swapRequests d))))).
Proof.
  split; [|split; [|split]].
  - intros page limit. unfold Swaps.incoming, Swaps.validate_listing.
    rewrite bool_decide_eq_false_2; [done|].
    rewrite !elem_of_cons, elem_of_nil. intros [?|[?|[?|[]]]]; discriminate.
  - intros s. unfold Swaps.validate_listing. rewrite !andb_true_r.
    rewrite bool_decide_eq_true, !elem_of_cons, elem_of_nil. tauto.
  - intros status page limit. unfold Swaps.incoming.
    destruct (Swaps.validate_listing _ status page limit) eqn:Hv; [|done].
    unfold SwapRequestModel.find. unfold_M. run_simpl.
    apply Forall_forall. intros [i r] Hp. apply paginate_subset in Hp.
    apply list_elem_of_filter in Hp as [Hq Hp]. apply elem_of_map_to_list in Hp.
    simpl in *. split; [|split; [|done]].
    + unfold Swaps.incoming_query in Hq. apply andb_true_iff in Hq as [_ Hq].
      intros Hc. rewrite Hc in Hq. destruct status as [s|]; [|done].
      unfold Swaps.validate_listing in Hv.
      apply andb_true_iff in Hv as [Hv _]. apply andb_true_iff in Hv as [Hv _].
      destruct (Js.truthy s); [|done].
      apply bool_decide_eq_true_1 in Hq. subst s. by vm_compute in Hv.
    + unfold Swaps.incoming_query in Hq. apply andb_true_iff in Hq as [Hq _].
      by apply bool_decide_eq_true_1 in Hq.
  - unfold Swaps.outgoing. simpl. unfold SwapRequestModel.find.
    unfold_M. run_simpl.
    do 3 f_equal. apply list_filter_iff. intros [i r]. simpl.
    unfold Swaps.outgoing_query. simpl.
    rewrite andb_true_iff, !bool_decide_eq_true.
    split; intros [? H]; (split; [done|]); by destruct (SwapRequest.status r).
Qed.

(** * Further properties of the code *)

(** ** The outcomes of the routes of events.js *)

Lemma validateEventUpdate_status now body u :
  Events.validateEventUpdate now body = Some u →
  Events.u_status u ≠ Some Event.SWAP_PENDING ∧
  Events.u_userId u = Events.u_userId body ∧
  Events.u_startTime u = Events.u_startTime body ∧
  Events.u_endTime u = Events.u_endTime body.
Proof.
  unfold Events.validateEventUpdate. case_match eqn:H; [|done].
  intros Hu. simplify_eq. simpl. split; [|done].
  destruct (Events.u_status body) as [[]|]; try done.
  rewrite !andb_true_iff in H. destruct H as [[_ H] _].
  by vm_compute in H.
Qed.

(** What PUT /api/events/:id can do: fail and change nothing, or store the
    event with the body assigned. *)
Lemma put_outcome now fs user id body d :
  let res := run fs d (Events.put now user id body) in
  fails d res ∨
  ∃ e u,
    events d !! id = Some e ∧ Event.userId e = user ∧
    Event.status e ≠ Event.SWAP_PENDING ∧
    Events.validateEventUpdate now body = Some u ∧
    Event.validate now (Events.assign u e) = true ∧
    res = (with_events (insert id (Events.assign u e)) d,
           Success 200 (id, Events.assign u e)) ∧
    (is_Some (Events.u_startTime u) ∨ is_Some (Events.u_endTime u) →
     ∀ j b, j ≠ id → events d !! j = Some b →
       Event.userId b = Event.userId e →
       ¬ (Event.startTime b < Event.endTime (Events.assign u e) ∧
          Event.endTime b > Event.startTime (Events.assign u e))).
Proof.
  unfold fails, Events.put, Events.checkTimeConflicts, EventModel.find,
    EventModel.save.
  unfold_M. run_simpl.
  destruct (events d !! id) as [e|] eqn:He; run_simpl; [|by left].
  case_bool_decide as Hu; run_simpl; [by left|].
  destruct (Events.validateEventUpdate now body) as [u|] eqn:Hv; run_simpl;
    [|by left].
  case_bool_decide as Hst; run_simpl; [by left|].
  destruct (bool_decide (is_Some (Events.u_startTime u)) ||
            bool_decide (is_Some (Events.u_endTime u))) eqn:Ht; run_simpl.
  - clear Ht. case_bool_decide as Hle; run_simpl; [by left|].
    case_bool_decide as Hc; run_simpl; [by left|].
    destruct (Event.validate now (Events.assign u e)) eqn:Hval; run_simpl;
      [|by left].
    destruct fs as [|[] fs]; run_simpl; [|by left|].
    all: right; exists e, u; repeat (split; [done || (by apply dec_stable)|]).
    all: intros _ j b Hj Hb Hub [H1 H2]; apply Hc.
    all: assert ((j, b) ∈ filter
           (λ p : nat * Event.doc,
              bool_decide (Event.userId p.2 = Event.userId e) &&
              bool_decide (Event.startTime p.2 <
                           default (Event.endTime e) (Events.u_endTime u)) &&
              bool_decide (Event.endTime p.2 >
                           default (Event.startTime e) (Events.u_startTime u)) &&
              bool_decide (p.1 ≠ id) = true)
           (map_to_list (events d))) as Hin.
    1,3: apply list_elem_of_filter; split; [|by apply elem_of_map_to_list];
         simpl; rewrite !andb_true_iff, !bool_decide_eq_true; done.
    all: destruct (filter _ _); [by apply elem_of_nil in Hin|simpl; lia].
  - destruct (Event.validate now (Events.assign u e)) eqn:Hval; run_simpl;
      [|by left].
    apply orb_false_iff in Ht as [Ht1 Ht2].
    apply bool_decide_eq_false in Ht1, Ht2.
    destruct fs as [|[] fs]; run_simpl; [|by left|].
    all: right; exists e, u; repeat (split; [done || (by apply dec_stable)|]).
    all: intros [?|?]; done.
Qed.

Lemma validateEvent_fields now body b :
  Events.validateEvent now body = Some b →
  Events.b_title b = Js.trim (Events.b_title body) ∧
  Events.b_description b = Js.trim <$> Events.b_description body ∧
  Events.b_startTime b = Events.b_startTime body ∧
  Events.b_endTime b = Events.b_endTime body ∧
  Events.b_category b = Events.b_category body ∧
  Events.b_location b = Js.trim <$> Events.b_location body ∧
  Js.isLength 1 100 (Js.trim (Events.b_title body)) = true ∧
  from_option (λ s, Js.isLength 0 500 (Js.trim s)) true
    (Events.b_description body) = true ∧
  now < Events.b_startTime body < Events.b_endTime body ∧
  from_option (λ s, Js.isLength 0 200 (Js.trim s)) true
    (Events.b_location body) = true.
Proof.
  unfold Events.validateEvent. case_match eqn:H; [|done].
  intros Hb. simplify_eq. simpl.
  rewrite !andb_true_iff, !bool_decide_eq_true in H.
  destruct H as [[[[H1 H2] H3] H4] H5].
  repeat split; try done; lia.
Qed.

Lemma new_event_valid now user body :
  is_Some (Events.validateEvent now body) →
  Event.validate now (new_event user body) = true.
Proof.
  intros [b Hv].
  destruct (validateEvent_fields _ _ _ Hv)
    as (_ & _ & _ & _ & _ & _ & Vt & Vd & Vs & Vl).
  unfold Event.validate, Event.startTime_validator, Event.endTime_validator.
  simpl. rewrite Vt. rewrite !bool_decide_eq_true_2 by lia. simpl.
  destruct (Events.b_description body), (Events.b_location body); simpl in *;
    rewrite ?Vd, ?Vl; done.
Qed.

Lemma filter_nonempty {A} (P : A → Prop) `{!∀ x, Decision (P x)} (l : list A) :
  (0 < length (filter P l))%nat ↔ ∃ x, x ∈ l ∧ P x.
Proof.
  split.
  - destruct (filter P l) as [|x l'] eqn:E; simpl; [lia|]. intros _.
    assert (x ∈ filter P l) as Hin by (rewrite E; apply list_elem_of_here).
    apply list_elem_of_filter in Hin as [? ?]. by exists x.
  - intros (x & Hx & HP).
    assert (x ∈ filter P l) as Hin by (by apply list_elem_of_filter).
    destruct (filter P l); [by apply elem_of_nil in Hin|simpl; lia].
Qed.

(** The conflict check of the routes finds exactly the overlapping events
    of the user. *)
Lemma checkTimeConflicts_spec userId s e skip w :
  ∃ found,
    Events.checkTimeConflicts userId s e skip w = (w, Returned found) ∧
    (∀ j x, (j, x) ∈ found ↔ overlapping (db w) userId s e skip j x) ∧
    ((0 < length found)%nat ↔ ∃ j x, overlapping (db w) userId s e skip j x).
Proof.
  unfold Events.checkTimeConflicts, EventModel.find. unfold_M.
  eexists. split; [reflexivity|].
  assert (∀ j x, (j, x) ∈ filter
           (λ p : nat * Event.doc,
              bool_decide (Event.userId p.2 = userId) &&
              bool_decide (Event.startTime p.2 < e) &&
              bool_decide (Event.endTime p.2 > s) &&
              match skip with
              | Some x => bool_decide (p.1 ≠ x)
              | None => true
              end = true) (map_to_list (events (db w)))
          ↔ overlapping (db w) userId s e skip j x) as Hspec.
  { intros j x. rewrite list_elem_of_filter, elem_of_map_to_list. simpl.
    unfold overlapping. rewrite !andb_true_iff, !bool_decide_eq_true.
    destruct skip as [k|]; [rewrite bool_decide_eq_true|];
      (split; [intros [[[[? ?] ?] ?] ?]|intros (? & ? & ? & ? & ?)]);
      repeat split; try done; congruence. }
  split; [done|]. rewrite filter_nonempty. split.
  - intros ([j x] & Hin & HP). exists j, x. apply Hspec.
    by apply list_elem_of_filter.
  - intros (j & x & H). apply Hspec, list_elem_of_filter in H as [HP Hin].
    by exists (j, x).
Qed.

(** The four outcomes of POST /api/events. *)
Lemma post_cases now fs user body d :
  let res := run fs d (Events.post now user body) in
  let conflict j x :=
    overlapping d user (Events.b_startTime body) (Events.b_endTime body)
      None j x in
  (Events.validateEvent now body = None ∧
   res = (d, Failure 400 "Validation failed")) ∨
  (is_Some (Events.validateEvent now body) ∧ (∃ j x, conflict j x) ∧
   res = (d, Failure 400 "Time conflict detected with existing events")) ∨
  (is_Some (Events.validateEvent now body) ∧ (∀ j x, ¬ conflict j x) ∧
   head fs = Some true ∧
   res = (d, Failure 500 "Failed to create event")) ∨
  (is_Some (Events.validateEvent now body) ∧ (∀ j x, ¬ conflict j x) ∧
   head fs ≠ Some true ∧
   res = (with_events (insert (newObjectId (events d)) (new_event user body)) d,
          Success 201 (newObjectId (events d), new_event user body))).
Proof.
  unfold Events.post.
  destruct (Events.validateEvent now body) as [b|] eqn:Hv; [|by left].
  right. unfold validated, handler, run, mbind, M_bind.
  destruct (validateEvent_fields _ _ _ Hv)
    as (Et & Ed & Es & Ee & Ec & El & _).
  destruct (checkTimeConflicts_spec user (Events.b_startTime b)
              (Events.b_endTime b) None {| db := d; faults := fs |})
    as (found & -> & _ & Hne).
  rewrite Es, Ee in Hne. simpl in Hne.
  case_bool_decide as Hc.
  { left. split; [by eexists|]. split; [by apply Hne|done]. }
  right.
  assert (∀ j x, ¬ overlapping d user (Events.b_startTime body)
                     (Events.b_endTime body) None j x) as Hno.
  { intros j x H. apply Hc, Hne. eauto. }
  pose proof (new_event_valid now user body (mk_is_Some _ _ Hv)) as Hval.
  unfold EventModel.save, read. unfold_M. run_simpl.
  rewrite Et, Ed, Es, Ee, Ec, El, !trim_idemp.
  assert ({| Event.title := Js.trim (Events.b_title body);
             Event.description :=
               Js.trim (from_option Js.trim ""
                          (Js.trim <$> Events.b_description body));
             Event.startTime := Events.b_startTime body;
             Event.endTime := Events.b_endTime body;
             Event.status := Event.BUSY;
             Event.userId := user;
             Event.originalUserId := None;
             Event.category := default Event.other (Events.b_category body);
             Event.location :=
               Js.trim (from_option Js.trim ""
                          (Js.trim <$> Events.b_location body));
             Event.isRecurring := false;
             Event.swapHistory := [] |}
          = Event.set_originalUserId None (new_event user body)) as ->.
  { unfold new_event, Event.set_originalUserId. simpl.
    by destruct (Events.b_description body), (Events.b_location body);
      simpl; rewrite ?trim_idemp. }
  replace (Event.validate now (Event.set_originalUserId None (new_event user body)))
    with true by (by rewrite <- Hval).
  run_simpl.
  destruct fs as [|[] fs]; run_simpl.
  - right. repeat (split; [done || (by eexists)|]). done.
  - left. repeat (split; [done || (by eexists)|]). done.
  - right. repeat (split; [done || (by eexists)|]). done.
Qed.

(** What POST /api/events can do: fail and change nothing, or store a new
    event of the caller under a fresh id. *)
Lemma post_outcome now fs user body d :
  let res := run fs d (Events.post now user body) in
  fails d res ∨
  (res = (with_events (insert (newObjectId (events d)) (new_event user body)) d,
          Success 201 (newObjectId (events d), new_event user body)) ∧
   is_Some (Events.validateEvent now body) ∧
   ∀ j x, ¬ overlapping d user (Events.b_startTime body)
               (Events.b_endTime body) None j x).
Proof.
  destruct (post_cases now fs user body d)
    as [[_ ->]|[(_ & _ & ->)|[(_ & _ & _ & ->)|(? & ? & _ & ->)]]];
    [by left..|by right].
Qed.

Lemma patch_outcome now fs user id s d :
  let res := run fs d (Events.patch_status now user id s) in
  fails d res ∨
  ∃ e,
    events d !! id = Some e ∧ Event.userId e = user ∧
    Event.status e ≠ Event.SWAP_PENDING ∧ s ≠ Event.SWAP_PENDING ∧
    now < Event.startTime e ∧
    Event.validate now e = true ∧
    res = (with_events (insert id (Event.set_status s e)) d,
           Success 200 (id, Event.set_status s e)).
Proof.
  unfold fails, Events.patch_status, EventModel.save.
  unfold_M. run_simpl.
  destruct (events d !! id) as [e|] eqn:He; run_simpl; [|by left].
  case_bool_decide as Hu; run_simpl; [by left|].
  destruct (Events.status_allowed s) eqn:Hs; run_simpl; [|by left].
  case_bool_decide as Hst; run_simpl; [by left|].
  case_bool_decide as Hpast; run_simpl; [by left|].
  destruct (Event.validate now (Event.set_status s e)) eqn:Hval; run_simpl;
    [|by left].
  destruct fs as [|[] fs]; run_simpl; [|by left|].
  all: right; exists e; do 3 (split; [done|]).
  all: split; [by intros ->; vm_compute in Hs|]; split; [lia|]; done.
Qed.

Lemma delete_outcome fs user id d :
  let res := run fs d (Events.delete user id) in
  fails d res ∨
  ∃ e,
    events d !! id = Some e ∧ Event.userId e = user ∧
    Event.status e ≠ Event.SWAP_PENDING ∧
    res = (with_events (delete id) d, Success 200 ()).
Proof.
  unfold fails, Events.delete, EventModel.findByIdAndDelete.
  unfold_M. run_simpl.
  destruct (events d !! id) as [e|] eqn:He; run_simpl; [|by left].
  case_bool_decide as Hu; run_simpl; [by left|].
  case_bool_decide as Hst; run_simpl; [by left|].
  destruct fs as [|[] fs]; run_simpl; [|by left|].
  all: right; by exists e.
Qed.

(** ** The outcomes of the routes of swaps.js *)

Lemma validate_message_trimmed message msg :
  Swaps.validate_message message = Some msg →
  Js.trim (Js.trim (default "" msg)) = Js.trim (default "" message) ∧
  Js.isLength 0 300 (Js.trim (default "" message)) = true.
Proof.
  unfold Swaps.validate_message. destruct message as [m|]; simpl.
  - case_match eqn:H; [|done]. intros ?; simplify_eq. simpl.
    by rewrite !trim_idemp.
  - intros ?; simplify_eq. done.
Qed.

Lemma no_pending_no_conflict a b reqs id r :
  existsb (λ p : nat * SwapRequest.doc, Swaps.pending_between a b p.2)
    (map_to_list reqs) = false →
  SwapRequest.mySlotId r = a → SwapRequest.theirSlotId r = b →
  SwapRequestModel.index_conflict reqs id r = false.
Proof.
  intros Hex Ha Hb. unfold SwapRequestModel.index_conflict.
  destruct (SwapRequest.in_partial_filter r) eqn:Hp; [|done]. simpl.
  apply not_true_is_false. intros Hc.
  apply existsb_map_to_list in Hc as (i & x & Hx & Hc). simpl in Hc.
  rewrite !andb_true_iff, !bool_decide_eq_true in Hc.
  destruct Hc as [[_ Hpx] Hk].
  apply (existsb_map_to_list_false _ _ i x Hex) in Hx. simpl in Hx.
  apply not_true_iff_false in Hx. apply Hx.
  apply pending_between_spec. unfold SwapRequest.in_partial_filter in Hpx.
  apply bool_decide_eq_true in Hpx. unfold SwapRequest.index_key in Hk.
  split; [done|]. left. split; congruence.
Qed.

(** What POST /api/swap/request can do: fail and change nothing, or store
    one new Pending request and leave the events as they were. *)
Lemma create_outcome now fs user a b message d :
  let res := run fs d (Swaps.create now user a b message) in
  fails d res ∨
  ∃ m t,
    is_Some (Swaps.validate_message message) ∧
    a ≠ b ∧ events d !! a = Some m ∧ events d !! b = Some t ∧
    Event.userId m = user ∧ Event.userId t ≠ user ∧
    Event.status m = Event.SWAPPABLE ∧ Event.status t = Event.SWAPPABLE ∧
    now < Event.startTime m ∧ now < Event.startTime t ∧
    (∀ i x, swapRequests d !! i = Some x → Swaps.pending_between a b x = false) ∧
    res = (with_swapRequests
             (insert (newObjectId (swapRequests d))
                (new_request now user a b t message)) d,
           Success 201 (newObjectId (swapRequests d),
                        new_request now user a b t message)).
Proof.
  unfold fails, Swaps.create, Swaps.create_handler, SwapRequestModel.save,
    SwapRequestModel.pre_save, SwapRequestModel.post_save,
    SwapRequestModel.store_doc, SwapRequestModel.findOne, EventModel.findById.
  destruct (Swaps.validate_message message) as [msg|] eqn:Hmsg;
    unfold_M; run_simpl; [|by left].
  destruct (validate_message_trimmed _ _ Hmsg) as [Etrim Vmsg].
  rewrite Etrim.
  case_bool_decide as Hab; run_simpl; [by left|].
  destruct (events d !! a) as [m|] eqn:Hm; run_simpl; [|by left].
  destruct (events d !! b) as [t|] eqn:Ht; run_simpl; [|by left].
  case_bool_decide as H1; run_simpl; [by left|].
  case_bool_decide as H2; run_simpl; [by left|].
  case_bool_decide as H3; run_simpl; [by left|].
  case_bool_decide as H4; run_simpl; [by left|].
  case_bool_decide as H5; run_simpl; [by left|].
  case_bool_decide as H6; run_simpl; [by left|].
  destruct (existsb _ _) eqn:Hex; run_simpl; [by left|].
  destruct (negb _); run_simpl; [by left|].
  rewrite Hm, Ht. run_simpl.
  repeat (case_bool_decide; run_simpl; [by left|]).
  destruct fs as [|[] fs]; run_simpl; try (by left).
  all: rewrite (no_pending_no_conflict a b) by done; run_simpl.
  all: right; exists m, t; split; [by eexists|].
  all: repeat (split; [done || lia|]).
  all: split; [|done].
  all: intros i x Hx; by apply (existsb_map_to_list_false _ _ i x Hex Hx).
Qed.

Global Instance requests_but_refl rid r' : Reflexive (requests_but rid r').
Proof. intros d i. by left. Qed.

Global Instance requests_but_trans rid r' : Transitive (requests_but rid r').
Proof.
  intros d1 d2 d3 H12 H23 i.
  destruct (H23 i) as [E|[-> E]]; [|by right].
  rewrite E. apply H12.
Qed.

Lemma event_write_requests_but rid r'
    (f : gmap nat Event.doc → gmap nat Event.doc) :
  preserves (requests_but rid r') (write (λ d, Returned (with_events f d))).
Proof. apply preserves_write; [apply _|]. intros d d' [= <-] i. by left. Qed.

Lemma store_doc_requests_but rid r' :
  preserves (requests_but rid r') (SwapRequestModel.store_doc rid r').
Proof.
  apply preserves_write; [apply _|]. intros d d'.
  case_match; [done|]. intros [= <-] i. simpl.
  destruct (decide (i = rid)) as [->|Hne].
  - right. by rewrite lookup_insert_eq.
  - left. by rewrite lookup_insert_ne.
Qed.

Lemma request_save_requests_but now rid r' :
  preserves (requests_but rid r') (SwapRequestModel.save now false rid r').
Proof.
  unfold SwapRequestModel.save, SwapRequestModel.pre_save,
    SwapRequestModel.post_save.
  preserves_auto. apply store_doc_requests_but.
Qed.

Lemma accept_requests_but now rid r msg :
  preserves (requests_but rid (answered now SwapRequest.ACCEPTED msg r))
    (SwapRequestModel.accept now rid r msg).
Proof.
  unfold SwapRequestModel.accept, EventModel.findById, EventModel.save.
  preserves_auto; try apply event_write_requests_but.
  apply request_save_requests_but.
Qed.

Lemma reject_requests_but now rid r msg :
  preserves (requests_but rid (answered now SwapRequest.REJECTED msg r))
    (SwapRequestModel.reject now rid r msg).
Proof.
  unfold SwapRequestModel.reject, EventModel.findByIdAndUpdate.
  preserves_auto; try apply event_write_requests_but.
  apply request_save_requests_but.
Qed.

Lemma cancel_requests_but now rid r :
  preserves
    (requests_but rid
       (SwapRequest.set_respondedAt now
          (SwapRequest.set_status SwapRequest.CANCELLED r)))
    (SwapRequestModel.cancel now rid r).
Proof.
  unfold SwapRequestModel.cancel, EventModel.findByIdAndUpdate.
  preserves_auto; try apply event_write_requests_but.
  apply request_save_requests_but.
Qed.

Lemma validate_response_Some action message act msg :
  Swaps.validate_response action message = Some (act, msg) →
  act = action ∧ action ∈ ["accept"; "reject"] ∧
  Swaps.validate_message message = Some msg.
Proof.
  unfold Swaps.validate_response. case_bool_decide; [|done].
  destruct (Swaps.validate_message message); simpl; [|done].
  by intros [= <- <-].
Qed.

(** What POST /api/swap/response does to the stored requests: nothing, or
    the answer of the recipient is recorded on the Pending request. *)
Lemma respond_requests now fs user rid action message d i :
  let d' := (run fs d (Swaps.respond now user rid action message)).1 in
  swapRequests d' !! i = swapRequests d !! i ∨
  ∃ r s,
    i = rid ∧ swapRequests d !! rid = Some r ∧
    SwapRequest.status r = SwapRequest.PENDING ∧
    SwapRequest.requestedTo r = user ∧
    ((action = "accept" ∧ s = SwapRequest.ACCEPTED) ∨
     (action = "reject" ∧ s = SwapRequest.REJECTED)) ∧
    swapRequests d' !! rid
    = Some (answered now s (Js.trim (default "" message)) r).
Proof.
  unfold Swaps.respond, Swaps.respond_handler, SwapRequestModel.findById,
    EventModel.findById.
  destruct (Swaps.validate_response action message) as [[act msg]|] eqn:Hv;
    unfold_M; run_simpl; [|by left].
  apply validate_response_Some in Hv as (-> & Hact & Hmsg).
  destruct (validate_message_trimmed _ _ Hmsg) as [Etrim _].
  destruct (swapRequests d !! rid) as [r|] eqn:Hr; run_simpl; [|by left].
  case_bool_decide as Hto; run_simpl; [by left|].
  case_bool_decide as Hst; run_simpl; [by left|].
  destruct (SwapRequest.isExpired now r); run_simpl; [by left|].
  destruct (events d !! SwapRequest.mySlotId r) as [m|]; run_simpl; [|by left].
  destruct (events d !! SwapRequest.theirSlotId r) as [t|]; run_simpl;
    [|by left].
  destruct (_ || _); run_simpl; [by left|].
  case_bool_decide as Ha.
  - pose proof (accept_requests_but now rid r (Js.trim (default "" msg))
                  {| db := d; faults := fs |} i) as H'.
    destruct (SwapRequestModel.accept _ _ _ _ _) as [w' [x|e]]; simpl in *.
    all: destruct H' as [H'|[-> H']]; [by left|].
    all: right; exists r, SwapRequest.ACCEPTED; rewrite H'.
    all: unfold answered, SwapRequest.set_responseMessage;
      rewrite Etrim, trim_idemp.
    all: repeat (split; [done || (by apply dec_stable) || auto|]); done.
  - assert (action = "reject") as Hrej.
    { rewrite !elem_of_cons, elem_of_nil in Hact. tauto. }
    pose proof (reject_requests_but now rid r (Js.trim (default "" msg))
                  {| db := d; faults := fs |} i) as H'.
    destruct (SwapRequestModel.reject _ _ _ _ _) as [w' [x|e]]; simpl in *.
    all: destruct H' as [H'|[-> H']]; [by left|].
    all: right; exists r, SwapRequest.REJECTED; rewrite H'.
    all: unfold answered, SwapRequest.set_responseMessage;
      rewrite Etrim, trim_idemp.
    all: repeat (split; [done || (by apply dec_stable) || auto|]); done.
Qed.

(** What POST /api/swap/cancel does to the stored requests. *)
Lemma cancel_requests now fs user rid d i :
  let d' := (run fs d (Swaps.cancel now user rid)).1 in
  swapRequests d' !! i = swapRequests d !! i ∨
  ∃ r,
    i = rid ∧ swapRequests d !! rid = Some r ∧
    SwapRequest.status r = SwapRequest.PENDING ∧
    SwapRequest.requestedBy r = user ∧
    swapRequests d' !! rid
    = Some (SwapRequest.set_respondedAt now
              (SwapRequest.set_status SwapRequest.CANCELLED r)).
Proof.
  unfold Swaps.cancel, SwapRequestModel.findById.
  unfold_M; run_simpl.
  destruct (swapRequests d !! rid) as [r|] eqn:Hr; run_simpl; [|by left].
  case_bool_decide as Hby; run_simpl; [by left|].
  case_bool_decide as Hst; run_simpl; [by left|].
  pose proof (cancel_requests_but now rid r {| db := d; faults := fs |} i) as H'.
  destruct (SwapRequestModel.cancel _ _ _ _) as [w' [x|e]]; simpl in *.
  all: destruct H' as [H'|[-> H']]; [by left|].
  all: right; exists r; rewrite H'.
  all: repeat (split; [done || (by apply dec_stable)|]); done.
Qed.

(** ** The life of a swap request *)

(** What one request of the API does to the stored request [i]: nothing;
    or it creates it; or it records the cancellation by its requester or
    the answer by its recipient, when it was Pending. *)
Lemma exec_request now fs c d i :
  let d' := exec now fs c d in
  swapRequests d' !! i = swapRequests d !! i ∨
  (swapRequests d !! i = None ∧
   ∃ user a b message t,
     c = PostSwapRequest user a b message ∧
     swapRequests d' !! i = Some (new_request now user a b t message)) ∨
  (∃ r, swapRequests d !! i = Some r ∧
     SwapRequest.status r = SwapRequest.PENDING ∧
     ((c = PostSwapCancel (SwapRequest.requestedBy r) i ∧
       swapRequests d' !! i
       = Some (SwapRequest.set_respondedAt now
                 (SwapRequest.set_status SwapRequest.CANCELLED r))) ∨
      (∃ action message s,
         c = PostSwapResponse (SwapRequest.requestedTo r) i action message ∧
         ((action = "accept" ∧ s = SwapRequest.ACCEPTED) ∨
          (action = "reject" ∧ s = SwapRequest.REJECTED)) ∧
         swapRequests d' !! i
         = Some (answered now s (Js.trim (default "" message)) r)))).
Proof.
  destruct (events_routes_same_swapRequests now) as (Hpost & Hput & Hdel & Hpatch).
  destruct c as [u b|u j b|u j|u j s|u a b m|u rid act m|u rid]; simpl.
  - left. f_equal. apply (preserves_run same_swapRequests), Hpost.
  - left. f_equal. apply (preserves_run same_swapRequests), Hput.
  - left. f_equal. apply (preserves_run same_swapRequests), Hdel.
  - left. f_equal. apply (preserves_run same_swapRequests), Hpatch.
  - destruct (create_outcome now fs u a b m d)
      as [[-> _]|(x & t & _ & _ & _ & _ & _ & _ & _ & _ & _ & _ & _ & ->)];
      [by left|]. simpl.
    destruct (decide (i = newObjectId (swapRequests d))) as [->|Hne].
    + right; left. split; [apply newObjectId_fresh|].
      exists u, a, b, m, t. by rewrite lookup_insert_eq.
    + left. by rewrite lookup_insert_ne.
  - destruct (respond_requests now fs u rid act m d i)
      as [H|(r & s & -> & Hr & Hp & <- & Hs & H)]; [by left|].
    right; right. exists r. do 2 (split; [done|]). right.
    by exists act, m, s.
  - destruct (cancel_requests now fs u rid d i)
      as [H|(r & -> & Hr & Hp & <- & H)]; [by left|].
    right; right. exists r. do 2 (split; [done|]). by left.
Qed.

(** X3.  No request of the API deletes a swap request or changes its
    slots, its parties, its message or its dates of creation and expiry;
    and a request that is no longer Pending is never changed again. *)
Theorem swap_requests_are_kept now fs c d i r :
  swapRequests d !! i = Some r →
  ∃ r', swapRequests (exec now fs c d) !! i = Some r' ∧
        same_request r r' ∧
        (SwapRequest.status r ≠ SwapRequest.PENDING → r' = r).
Proof.
  intros Hr.
  destruct (exec_request now fs c d i)
    as [H|[[H _]|(x & Hx & Hp & [[_ H]|(act & m & s & _ & _ & H)])]].
  - exists r. by rewrite H.
  - congruence.
  - rewrite Hr in Hx. simplify_eq. eexists. split; [exact H|]. by split.
  - rewrite Hr in Hx. simplify_eq. eexists. split; [exact H|]. by split.
Qed.

Lemma swap_requests_are_kept_witness :
  ∃ r', swapRequests (exec 6 [] (PostSwapCancel 10 0) Scenario.pending) !! 0%nat
          = Some r' ∧
        same_request (Scenario.request 1 2 10 20 SwapRequest.PENDING 5) r'.
Proof.
  destruct (swap_requests_are_kept 6 [] (PostSwapCancel 10 0) Scenario.pending
              0 (Scenario.request 1 2 10 20 SwapRequest.PENDING 5))
    as (r' & H1 & H2 & _); [reflexivity|].
  exists r'. by split.
Defined.

(** X4.  The status of a stored swap request changes only from Pending,
    and only through the cancellation by its requester (to CANCELLED) or
    the answer of its recipient (to ACCEPTED on "accept", to REJECTED on
    "reject"); the change sets [respondedAt] to the time of the request. *)
Theorem status_changes_are_authorized now fs c d i r r' :
  swapRequests d !! i = Some r →
  swapRequests (exec now fs c d) !! i = Some r' →
  r' ≠ r →
  SwapRequest.status r = SwapRequest.PENDING ∧
  SwapRequest.respondedAt r' = Some now ∧
  ((c = PostSwapCancel (SwapRequest.requestedBy r) i ∧
    SwapRequest.status r' = SwapRequest.CANCELLED) ∨
   (∃ message,
      c = PostSwapResponse (SwapRequest.requestedTo r) i "accept" message ∧
      SwapRequest.status r' = SwapRequest.ACCEPTED ∧
      SwapRequest.responseMessage r' = Js.trim (default "" message)) ∨
   (∃ message,
      c = PostSwapResponse (SwapRequest.requestedTo r) i "reject" message ∧
      SwapRequest.status r' = SwapRequest.REJECTED ∧
      SwapRequest.responseMessage r' = Js.trim (default "" message))).
Proof.
  intros Hr Hr' Hne.
  destruct (exec_request now fs c d i)
    as [H|[[H _]|(x & Hx & Hp & [[Hc H]|(act & m & s & Hc & Hs & H)])]].
  - congruence.
  - congruence.
  - rewrite Hr in Hx. rewrite Hr' in H. simplify_eq.
    split; [done|]. split; [done|]. by left.
  - rewrite Hr in Hx. rewrite Hr' in H. simplify_eq.
    split; [done|]. split; [done|]. right.
    destruct Hs as [[-> ->]|[-> ->]]; [left|right]; exists m; simpl;
      by rewrite trim_idemp.
Qed.

Lemma status_changes_are_authorized_witness :
  let r := Scenario.request 1 2 10 20 SwapRequest.PENDING 5 in
  let r' := SwapRequest.set_respondedAt 6
              (SwapRequest.set_status SwapRequest.CANCELLED r) in
  swapRequests (exec 6 [] (PostSwapCancel 10 0) Scenario.pending) !! 0%nat
    = Some r' ∧
  SwapRequest.status r = SwapRequest.PENDING ∧
  SwapRequest.respondedAt r' = Some 6.
Proof.
  intros r r'. split; [vm_compute; reflexivity|].
  destruct (status_changes_are_authorized 6 [] (PostSwapCancel 10 0)
              Scenario.pending 0 r r') as (H1 & H2 & _).
  - reflexivity.
  - vm_compute. reflexivity.
  - intros H. apply (f_equal SwapRequest.status) in H. discriminate H.
  - by split.
Defined.

(** ** No request sets SWAP_PENDING *)

Global Instance no_new_swap_pending_refl : Reflexive no_new_swap_pending.
Proof. by intros d id e. Qed.

Global Instance no_new_swap_pending_trans : Transitive no_new_swap_pending.
Proof. intros d1 d2 d3 H12 H23 id e He Hs. eauto. Qed.

Lemma update_status_no_new_swap_pending id s :
  s ≠ Event.SWAP_PENDING →
  preserves no_new_swap_pending
    (EventModel.findByIdAndUpdate id (Event.set_status s)).
Proof.
  intros Hs. apply preserves_write; [apply _|].
  intros d d' [= <-] j e. simpl. rewrite lookup_alter.
  case_decide as Hj; [subst j|done].
  destruct (events d !! id) as [x|]; simpl; [|done].
  intros [= <-]. done.
Qed.

Lemma event_save_no_new_swap_pending now isNew id e :
  Event.status e ≠ Event.SWAP_PENDING →
  preserves no_new_swap_pending (EventModel.save now isNew id e).
Proof.
  intros Hs. unfold EventModel.save. preserves_auto.
  apply preserves_write; [apply _|].
  intros d d' [= <-] j x. simpl.
  destruct (decide (j = id)) as [->|Hne].
  - rewrite lookup_insert_eq. intros [= <-] Hx. destruct Hs.
    unfold Event.pre_save in Hx. by case_match.
  - by rewrite lookup_insert_ne.
Qed.

Lemma store_doc_no_new_swap_pending id r :
  preserves no_new_swap_pending (SwapRequestModel.store_doc id r).
Proof.
  apply preserves_write; [apply _|]. intros d d'.
  case_match; [done|]. intros [= <-]. by intros j e.
Qed.

Lemma respond_no_new_swap_pending now user rid action message :
  preserves no_new_swap_pending (Swaps.respond now user rid action message).
Proof.
  unfold Swaps.respond, Swaps.respond_handler, SwapRequestModel.accept,
    SwapRequestModel.reject, SwapRequestModel.save, SwapRequestModel.pre_save,
    SwapRequestModel.post_save, SwapRequestModel.findById, EventModel.findById.
  preserves_auto;
    first [ apply store_doc_no_new_swap_pending
          | by apply update_status_no_new_swap_pending
          | by apply event_save_no_new_swap_pending ].
Qed.

Lemma cancel_no_new_swap_pending now user rid :
  preserves no_new_swap_pending (Swaps.cancel now user rid).
Proof.
  unfold Swaps.cancel, SwapRequestModel.cancel, SwapRequestModel.save,
    SwapRequestModel.pre_save, SwapRequestModel.post_save,
    SwapRequestModel.findById.
  preserves_auto;
    first [ apply store_doc_no_new_swap_pending
          | by apply update_status_no_new_swap_pending ].
Qed.

Lemma assign_status u e :
  Events.u_status u ≠ Some Event.SWAP_PENDING →
  Event.status e ≠ Event.SWAP_PENDING →
  Event.status (Events.assign u e) ≠ Event.SWAP_PENDING.
Proof. simpl. destruct (Events.u_status u); simpl; congruence. Qed.

(** No request of the API gives a slot the status SWAP_PENDING. *)
Lemma exec_no_new_swap_pending now fs c d :
  no_new_swap_pending d (exec now fs c d).
Proof.
  destruct c as [u b|u j b|u j|u j s|u a b m|u rid act m|u rid]; simpl.
  - destruct (post_outcome now fs u b d) as [[-> _]|(-> & _)]; [done|].
    intros id x. simpl. destruct (decide (id = newObjectId (events d))) as [->|Hne].
    + rewrite lookup_insert_eq. by intros [= <-].
    + by rewrite lookup_insert_ne.
  - destruct (put_outcome now fs u j b d)
      as [[-> _]|(e & v & He & _ & Hst & Hv & _ & -> & _)]; [done|].
    intros id x. simpl. destruct (decide (id = j)) as [->|Hne].
    + rewrite lookup_insert_eq. intros [= <-] Hx.
      apply validateEventUpdate_status in Hv as [Hv _].
      by destruct (assign_status v e).
    + by rewrite lookup_insert_ne.
  - destruct (delete_outcome fs u j d) as [[-> _]|(e & _ & _ & _ & ->)]; [done|].
    intros id x. simpl. rewrite lookup_delete_Some. by intros [_ ?].
  - destruct (patch_outcome now fs u j s d)
      as [[-> _]|(e & _ & _ & _ & Hs & _ & _ & ->)]; [done|].
    intros id x. simpl. destruct (decide (id = j)) as [->|Hne].
    + rewrite lookup_insert_eq. by intros [= <-].
    + by rewrite lookup_insert_ne.
  - pose proof (preserves_run same_events _ fs d (create_same_events now u a b m)) as H.
    unfold same_events in H. intros id x. by rewrite H.
  - apply (preserves_run no_new_swap_pending), respond_no_new_swap_pending.
  - apply (preserves_run no_new_swap_pending), cancel_no_new_swap_pending.
Qed.

(** Without a SWAP_PENDING slot POST /api/swap/response stops at one of its
    checks. *)
Lemma respond_needs_swap_pending now fs user rid action message d :
  no_swap_pending d →
  fails d (run fs d (Swaps.respond now user rid action message)).
Proof.
  intros Hn.
  unfold fails, Swaps.respond, Swaps.respond_handler, SwapRequestModel.findById,
    EventModel.findById.
  destruct (Swaps.validate_response action message) as [[act msg]|];
    unfold_M; run_simpl; [|done].
  destruct (swapRequests d !! rid) as [r|] eqn:Hr; run_simpl; [|done].
  case_bool_decide; run_simpl; [done|].
  case_bool_decide; run_simpl; [done|].
  destruct (SwapRequest.isExpired now r); run_simpl; [done|].
  destruct (events d !! SwapRequest.mySlotId r) as [m|] eqn:Hm; run_simpl;
    [|done].
  destruct (events d !! SwapRequest.theirSlotId r) as [t|]; run_simpl; [|done].
  rewrite (bool_decide_eq_true_2 (Event.status m ≠ _)) by eauto. done.
Qed.

(** X5.  If a slot has the status SWAP_PENDING after a request of the API,
    it was the same slot, with that status, before: no request of the
    API sets the status (the post-save hook that should do so reads
    [isNew] after Mongoose has cleared it). *)
Theorem swap_pending_is_never_set now fs c d id e :
  events (exec now fs c d) !! id = Some e →
  Event.status e = Event.SWAP_PENDING →
  events d !! id = Some e.
Proof. apply exec_no_new_swap_pending. Qed.

Lemma swap_pending_is_never_set_witness :
  events Scenario.pending !! 1%nat
  = Some (Scenario.slot 10 Event.SWAP_PENDING 1000).
Proof.
  apply (swap_pending_is_never_set 6 [] (DeleteEvent 10 1) Scenario.pending).
  - vm_compute. reflexivity.
  - reflexivity.
Defined.

Lemma reachable_invariant d :
  reachable d →
  no_swap_pending d ∧
  ∀ i r, swapRequests d !! i = Some r →
         SwapRequest.status r = SwapRequest.PENDING ∨
         SwapRequest.status r = SwapRequest.CANCELLED.
Proof.
  induction 1 as [|now fs c d _ [IHe IHr]].
  - split; [by intros id e|by intros i r].
  - assert (no_swap_pending (exec now fs c d)) as Hn.
    { intros id e He Hs. apply (IHe id e); [|done].
      by apply (exec_no_new_swap_pending now fs c d). }
    split; [done|]. intros i r Hr.
    destruct (exec_request now fs c d i)
      as [H|[(_ & u & a & b & m & t & _ & H)
            |(x & Hx & Hp & [[_ H]|(act & m & s & -> & Hs & H)])]].
    + rewrite H in Hr. eauto.
    + rewrite H in Hr. simplify_eq. by left.
    + rewrite H in Hr. simplify_eq. by right.
    + exfalso. simpl in H, Hr.
      destruct (respond_needs_swap_pending now fs (SwapRequest.requestedTo x)
                  i act m d IHe) as [E _].
      rewrite E, Hx in H. simplify_eq.
      assert (SwapRequest.status x = s) as Hxs by (by rewrite H at 1).
      destruct Hs as [[_ ->]|[_ ->]]; congruence.
Qed.

(** ** Overlapping events *)

Lemma conflict_freeb_correct d : conflict_freeb d = true → conflict_free d.
Proof.
  unfold conflict_freeb. intros H i j a b Hij Ha Hb Hu.
  rewrite forallb_forall in H.
  apply elem_of_map_to_list, list_elem_of_In in Ha, Hb.
  specialize (H _ Ha). rewrite forallb_forall in H. specialize (H _ Hb).
  simpl in H. rewrite !orb_true_iff, !negb_true_iff in H.
  rewrite bool_decide_eq_true, bool_decide_eq_false in H.
  destruct H as [[?|?]|?]; done.
Qed.

Global Instance same_schedule_refl : Reflexive same_schedule.
Proof. intros d id e He. by exists e. Qed.

Global Instance same_schedule_trans : Transitive same_schedule.
Proof.
  intros d1 d2 d3 H12 H23 id e3 He3.
  destruct (H23 id e3 He3) as (e2 & He2 & ? & ? & ?).
  destruct (H12 id e2 He2) as (e1 & He1 & ? & ? & ?).
  exists e1. repeat split; congruence.
Qed.

Lemma hasConflictWith_false a b :
  Event.hasConflictWith a b = false ↔
  ¬ (Event.startTime a < Event.endTime b ∧ Event.endTime a > Event.startTime b).
Proof.
  unfold Event.hasConflictWith.
  rewrite <- not_true_iff_false, andb_true_iff, !bool_decide_eq_true. done.
Qed.










(** ** What an accepted swap writes *)

(** When POST /api/swap/response answers an "accept" with a success, the
    request was Pending, unexpired and directed to the caller, both
    slots were SWAP_PENDING, and the store holds the two slots exchanged
    and the request ACCEPTED. *)
Lemma accept_success now fs user rid message d d' code x :
  run fs d (Swaps.respond now user rid "accept" message)
    = (d', Success code x) →
  ∃ r m t,
    swapRequests d !! rid = Some r ∧
    SwapRequest.status r = SwapRequest.PENDING ∧
    SwapRequest.requestedTo r = user ∧
    now ≤ SwapRequest.expiresAt r ∧
    events d !! SwapRequest.mySlotId r = Some m ∧
    events d !! SwapRequest.theirSlotId r = Some t ∧
    Event.status m = Event.SWAP_PENDING ∧
    Event.status t = Event.SWAP_PENDING ∧
    code = 200%nat ∧
    x = (rid, answered now SwapRequest.ACCEPTED
                (Js.trim (default "" message)) r) ∧
    events d' = <[SwapRequest.theirSlotId r :=
                    exchanged now rid (Event.userId m) t]>
                  (<[SwapRequest.mySlotId r :=
                       exchanged now rid (Event.userId t) m]> (events d)) ∧
    swapRequests d' = <[rid := answered now SwapRequest.ACCEPTED
                                 (Js.trim (default "" message)) r]>
                        (swapRequests d).
Proof.
  unfold Swaps.respond, Swaps.respond_handler, SwapRequestModel.findById,
    EventModel.findById.
  destruct (Swaps.validate_response "accept" message) as [[act msg]|] eqn:Hv;
    unfold_M; run_simpl; [|done].
  apply validate_response_Some in Hv as (-> & _ & Hmsg).
  destruct (validate_message_trimmed _ _ Hmsg) as [Etrim _].
  destruct (swapRequests d !! rid) as [r|] eqn:Hr; run_simpl; [|done].
  case_bool_decide as Hto; run_simpl; [done|].
  case_bool_decide as Hst; run_simpl; [done|].
  destruct (SwapRequest.isExpired now r) eqn:Hexp; run_simpl; [done|].
  destruct (events d !! SwapRequest.mySlotId r) as [m|] eqn:Hm; run_simpl;
    [|done].
  destruct (events d !! SwapRequest.theirSlotId r) as [t|] eqn:Ht; run_simpl;
    [|done].
  case_bool_decide as Hms; run_simpl; [done|].
  case_bool_decide as Hts; run_simpl; [done|].
  rewrite (bool_decide_eq_true_2 ("accept" = "accept")) by done.
  unfold SwapRequestModel.accept, SwapRequestModel.save,
    SwapRequestModel.pre_save, SwapRequestModel.post_save,
    SwapRequestModel.store_doc, EventModel.save, EventModel.findById,
    SwapRequest.isExpired in *.
  unfold_M. run_simpl. rewrite Hexp. bd_false. rewrite Hm, Ht. run_simpl.
  destruct (negb (Event.validate now
              (Event.push_swapHistory _
                 (Event.set_status _ (Event.set_userId _ m))))); run_simpl.
  { destruct (negb (Event.validate _ _)); run_simpl; [done|].
    by destruct fs as [|[] fs]. }
  destruct (negb (Event.validate _ _)); run_simpl.
  { by destruct fs as [|[] fs]. }
  destruct (negb (SwapRequest.validate _)) eqn:Hval; run_simpl.
  { destruct fs as [|[] [|[] fs]]; run_simpl; try done; by rewrite Hval. }
  destruct fs as [|[] [|[] [|[] [|[] fs]]]]; run_simpl; rewrite ?Hval;
    run_simpl; try done.
  all: rewrite index_conflict_not_pending by done; run_simpl.
  all: intros [= <- <- <-]; exists r, m, t.
  all: apply bool_decide_eq_false in Hexp.
  all: unfold answered, SwapRequest.set_responseMessage;
    rewrite Etrim, trim_idemp.
  all: repeat (split; [done || lia || (by apply dec_stable)|]); done.
Qed.

(** X7.  A successful "accept" through POST /api/swap/response changes
    exactly the two slots of the request: each gets the owner of the other,
    the status BUSY and one more entry of swap history, dated [now],
    naming the request and, as [swappedWith], the slot's new owner; title,
    description, times, [originalUserId], category, location and
    [isRecurring] of both slots, and every other event, stay as they
    were. *)
Theorem accept_rewrites_two_slots now fs user rid message d d' code x :
  run fs d (Swaps.respond now user rid "accept" message)
    = (d', Success code x) →
  ∃ r m t,
    swapRequests d !! rid = Some r ∧
    events d !! SwapRequest.mySlotId r = Some m ∧
    events d !! SwapRequest.theirSlotId r = Some t ∧
    events d' !! SwapRequest.mySlotId r
      = Some (exchanged now rid (Event.userId t) m) ∧
    events d' !! SwapRequest.theirSlotId r
      = Some (exchanged now rid (Event.userId m) t) ∧
    Event.swapHistory (exchanged now rid (Event.userId t) m)
      = Event.swapHistory m ++
        [{| Event.swappedWith := Event.userId t; Event.swappedAt := now;
            Event.swapRequestId := rid |}] ∧
    Event.originalUserId (exchanged now rid (Event.userId t) m)
      = Event.originalUserId m ∧
    (∀ id, id ≠ SwapRequest.mySlotId r → id ≠ SwapRequest.theirSlotId r →
           events d' !! id = events d !! id).
Proof.
  intros H. apply accept_success in H
    as (r & m & t & Hr & _ & _ & _ & Hm & Ht & _ & _ & _ & _ & He & _).
  exists r, m, t. rewrite He. do 3 (split; [done|]).
  split.
  { destruct (decide (SwapRequest.theirSlotId r = SwapRequest.mySlotId r))
      as [E|E].
    - rewrite E, lookup_insert_eq. rewrite E, Hm in Ht. by simplify_eq.
    - rewrite lookup_insert_ne by done. by rewrite lookup_insert_eq. }
  split; [by rewrite lookup_insert_eq|].
  do 2 (split; [done|]).
  intros id H1 H2. by rewrite !lookup_insert_ne.
Qed.

Lemma accept_rewrites_two_slots_witness :
  Event.userId <$> events Scenario.swapped !! 1%nat = Some 20%nat ∧
  Event.swapHistory <$> events Scenario.swapped !! 1%nat
    = Some [{| Event.swappedWith := 20%nat; Event.swappedAt := 6;
               Event.swapRequestId := 0%nat |}].
Proof.
  destruct (accept_rewrites_two_slots 6 [] 20 0 None Scenario.pending
              Scenario.swapped 200
              (0%nat, answered 6 SwapRequest.ACCEPTED ""
                        (Scenario.request 1 2 10 20 SwapRequest.PENDING 5)))
    as (r & m & t & Hr & Hm & Ht & Hm' & _); [vm_compute; reflexivity|].
  vm_compute in Hr. simplify_eq. vm_compute in Hm, Ht. simplify_eq.
  change (events Scenario.swapped !! 1%nat
          = Some (exchanged 6 0 20 (Scenario.slot 10 Event.SWAP_PENDING 1000)))
    in Hm'.
  rewrite Hm'. split; reflexivity.
Defined.

(** X8.  Accepting a swap checks no calendar: when the requester owns
    another event that overlaps the slot they receive, the accept still
    succeeds and the requester then owns two overlapping events. *)
Theorem accept_can_double_book now fs user rid message d d' code x r m t k c :
  run fs d (Swaps.respond now user rid "accept" message)
    = (d', Success code x) →
  swapRequests d !! rid = Some r →
  events d !! SwapRequest.mySlotId r = Some m →
  events d !! SwapRequest.theirSlotId r = Some t →
  events d !! k = Some c →
  k ≠ SwapRequest.mySlotId r → k ≠ SwapRequest.theirSlotId r →
  Event.userId c = Event.userId m →
  Event.hasConflictWith c t = true →
  ¬ conflict_free d'.
Proof.
  intros H Hr Hm Ht Hc Hk1 Hk2 Hu Hov Hfree.
  apply accept_success in H
    as (r0 & m0 & t0 & Hr0 & _ & _ & _ & Hm0 & Ht0 & _ & _ & _ & _ & He & _).
  rewrite Hr in Hr0. simplify_eq.
  assert (Event.hasConflictWith c (exchanged now rid (Event.userId m0) t0) = false)
    as Hno.
  { apply (Hfree k (SwapRequest.theirSlotId r0)); [done| | |done].
    - rewrite He. by rewrite !lookup_insert_ne.
    - rewrite He. by rewrite lookup_insert_eq. }
  unfold Event.hasConflictWith in *. simpl in Hno. congruence.
Qed.

Lemma accept_can_double_book_witness :
  conflict_free Scenario.booked ∧
  ¬ conflict_free
      (run [] Scenario.booked (Swaps.respond 6 20 0 "accept" None)).1.
Proof.
  split; [apply conflict_freeb_correct; vm_compute; reflexivity|].
  eapply (accept_can_double_book 6 [] 20 0 None Scenario.booked _ _ _
            (Scenario.request 1 2 10 20 SwapRequest.PENDING 5)
            (Scenario.slot 10 Event.SWAP_PENDING 1000)
            (Scenario.slot 20 Event.SWAP_PENDING 2000)
            3 (Scenario.slot 10 Event.BUSY 2050));
    try (vm_compute; reflexivity); try (vm_compute; discriminate).
Defined.

(** ** The routes of one event *)

(** X9.  An event is reached through GET, PUT, DELETE and PATCH
    /api/events/:id by its owner only: for a missing id the four routes
    answer 404, for the event of another user 403, whatever the body, and
    change nothing; the owner's GET returns the stored event. *)
Theorem events_are_private now fs user id d :
  let refused k :=
    fails_with k d (run fs d (Events.get user id)) ∧
    (∀ body, fails_with k d (run fs d (Events.put now user id body))) ∧
    fails_with k d (run fs d (Events.delete user id)) ∧
    (∀ s, fails_with k d (run fs d (Events.patch_status now user id s))) in
  match events d !! id with
  | None => refused NotFound
  | Some e =>
      if decide (Event.userId e = user)
      then run fs d (Events.get user id) = (d, Success 200 (id, e))
      else refused Forbidden
  end.
Proof.
  unfold fails_with, Events.get, Events.put, Events.delete, Events.patch_status.
  unfold_M. run_simpl.
  destruct (events d !! id) as [e|]; [|done].
  destruct (decide (Event.userId e = user)) as [Hu|Hu].
  - by rewrite bool_decide_eq_false_2 by (by intros ?).
  - by rewrite bool_decide_eq_true_2.
Qed.

Lemma DB_eta d : {| events := events d; swapRequests := swapRequests d |} = d.
Proof. by destruct d. Qed.


(** X10.  POST /api/events succeeds exactly when the body passes the
    validators of the route, no event of the caller overlaps the new period
    and the write is not refused by the store.  It then stores, under a
    fresh id, a BUSY event of the caller with [originalUserId] the caller,
    an empty swap history and the trimmed texts of the body, and answers
    201; when it fails the store is as it was. *)
Theorem post_event_outcomes now fs user body d :
  let res := run fs d (Events.post now user body) in
  (is_failure res.2 = false ↔
     is_Some (Events.validateEvent now body) ∧
     (∀ j x, ¬ overlapping d user (Events.b_startTime body)
                 (Events.b_endTime body) None j x) ∧
     head fs ≠ Some true) ∧
  (is_failure res.2 = false →
     events d !! newObjectId (events d) = None ∧
     Event.validate now (new_event user body) = true ∧
     res = (with_events (insert (newObjectId (events d)) (new_event user body)) d,
            Success 201 (newObjectId (events d), new_event user body))) ∧
  (is_failure res.2 = true → res.1 = d).
Proof.
  destruct (post_cases now fs user body d)
    as [[Hv ->]|[(Hv & Hc & ->)|[(Hv & Hc & Hf & ->)|(Hv & Hc & Hf & ->)]]];
    simpl.
  - split; [|done]. split; [done|]. intros [[? ?] _]. congruence.
  - split; [|done]. split; [done|]. intros (_ & Hno & _).
    destruct Hc as (j & x & Hc). by destruct (Hno j x).
  - split; [|done]. split; [done|]. by intros (_ & _ & ?).
  - split; [done|]. split; [|done]. intros _.
    split; [apply newObjectId_fresh|]. split; [|done].
    by apply new_event_valid.
Qed.

(** X11.  Deleting an event right after its creation gives back the store
    from before the creation. *)
Theorem post_then_delete_restores now fs fs' user body d :
  let res := run fs d (Events.post now user body) in
  is_failure res.2 = false → head fs' ≠ Some true →
  ∃ id e, res.2 = Success 201 (id, e) ∧
          run fs' res.1 (Events.delete user id) = (d, Success 200 ()).
Proof.
  intros res Hok Hf. subst res.
  destruct (post_cases now fs user body d)
    as [[Hv E]|[(Hv & Hc & E)|[(Hv & Hc & Hf' & E)|(Hv & Hc & Hf' & E)]]];
    rewrite E in *; simpl in Hok; try done.
  eexists _, _. split; [reflexivity|]. simpl.
  unfold Events.delete, EventModel.findByIdAndDelete. unfold_M. run_simpl.
  rewrite lookup_insert_eq. run_simpl.
  rewrite (bool_decide_eq_false_2 (Event.userId _ ≠ user))
    by (intros H; by apply H).
  run_simpl. bd_false.
  destruct fs' as [|[] fs']; run_simpl; try done.
  all: unfold with_events; simpl.
  all: rewrite delete_insert_id by apply newObjectId_fresh.
  all: by rewrite DB_eta.
Qed.

Lemma post_then_delete_restores_witness :
  ∃ id e,
    (run [] Scenario.offered (Events.post 5 10 (Scenario.body 3000))).2
      = Success 201 (id, e) ∧
    run [] (run [] Scenario.offered (Events.post 5 10 (Scenario.body 3000))).1
      (Events.delete 10 id)
    = (Scenario.offered, Success 200 ()).
Proof.
  apply (post_then_delete_restores 5 [] [] 10 (Scenario.body 3000)
           Scenario.offered).
  - vm_compute. reflexivity.
  - discriminate.
Defined.



(** X13.  Once an event has started, PUT /api/events/:id can only change it
    by moving its start into the future: every PUT whose body has no
    [startTime] fails and changes nothing, and when the owner sends a body
    that passes the route's validators and names no time, the failure is
    the 500 of the handler (the schema refuses the stored start time). *)
Theorem put_of_started_event_fails now fs user id body d e :
  events d !! id = Some e → Event.startTime e ≤ now →
  Events.u_startTime body = None →
  fails d (run fs d (Events.put now user id body)) ∧
  (Event.userId e = user → Event.status e ≠ Event.SWAP_PENDING →
   is_Some (Events.validateEventUpdate now body) →
   Events.u_endTime body = None →
   run fs d (Events.put now user id body)
   = (d, Failure 500 "Failed to update event")).
Proof.
  intros He Hs Hb.
  assert (∀ u, Events.validateEventUpdate now body = Some u →
               Event.validate now (Events.assign u e) = false) as Hinv.
  { intros u Hv. apply validateEventUpdate_status in Hv as (_ & _ & Es & _).
    unfold Event.validate, Event.startTime_validator. simpl.
    rewrite Es, Hb. simpl. rewrite (bool_decide_eq_false_2 (_ > _)) by lia.
    by rewrite !andb_false_r. }
  split.
  - destruct (put_outcome now fs user id body d)
      as [Hf|(e' & u & He' & _ & _ & Hv & Hval & _)]; [done|].
    rewrite He in He'. simplify_eq. rewrite (Hinv u Hv) in Hval. done.
  - intros Hu Hst [u Hv] Hen.
    pose proof (validateEventUpdate_status _ _ _ Hv) as (_ & _ & Es & Ee).
    unfold Events.put, EventModel.save. unfold_M. run_simpl. rewrite He.
    bd_false. rewrite Hv. run_simpl. bd_false.
    rewrite Es, Ee, Hb, Hen. simpl.
    rewrite (Hinv u Hv). done.
Qed.

Lemma put_of_started_event_fails_witness :
  run [] Scenario.offered (Events.put 1500 10 1 Scenario.retitle)
  = (Scenario.offered, Failure 500 "Failed to update event").
Proof.
  apply (put_of_started_event_fails 1500 [] 10 1 Scenario.retitle
           Scenario.offered (Scenario.slot 10 Event.SWAPPABLE 1000));
    try reflexivity; try (vm_compute; discriminate).
  vm_compute. eauto.
Defined.

(** ** Reassigning an event, and creating a request *)

(** X14.  PUT /api/events/:id assigns every path of the body, also the
    ones its validators do not look at: with the body [{ userId: v }] the
    owner of an event that still passes the validators of the schema hands
    it to user [v]; nothing else of the event changes, and the former owner
    is then refused on it like any stranger. *)
Theorem put_can_give_an_event_away now user id v d e :
  events d !! id = Some e → Event.userId e = user →
  Event.status e ≠ Event.SWAP_PENDING → Event.validate now e = true →
  let res := run [] d (Events.put now user id (only_userId v)) in
  res = (with_events (insert id (Event.set_userId v e)) d,
         Success 200 (id, Event.set_userId v e)) ∧
  (v ≠ user → fails_with Forbidden res.1 (run [] res.1 (Events.get user id))).
Proof.
  intros He Hu Hst Hval res.
  assert (res = (with_events (insert id (Event.set_userId v e)) d,
                 Success 200 (id, Event.set_userId v e))) as E.
  { subst res. unfold Events.put, EventModel.save. unfold_M. run_simpl.
    rewrite He. bd_false.
    replace (Events.validateEventUpdate now (only_userId v))
      with (Some (only_userId v)) by done.
    run_simpl. bd_false.
    replace (Events.assign (only_userId v) e) with (Event.set_userId v e)
      by done.
    replace (Event.validate now (Event.set_userId v e)) with true
      by (by rewrite <- Hval).
    done. }
  split; [done|]. intros Hv. rewrite E. simpl.
  unfold fails_with, Events.get. unfold_M. run_simpl.
  rewrite lookup_insert_eq. run_simpl. by bd_true.
Qed.

Lemma put_can_give_an_event_away_witness :
  Event.userId <$>
    events (run [] Scenario.offered (Events.put 5 10 1 (only_userId 20))).1
      !! 1%nat = Some 20%nat ∧
  fails_with Forbidden
    (run [] Scenario.offered (Events.put 5 10 1 (only_userId 20))).1
    (run [] (run [] Scenario.offered (Events.put 5 10 1 (only_userId 20))).1
       (Events.get 10 1)).
Proof.
  destruct (put_can_give_an_event_away 5 10 1 20 Scenario.offered
              (Scenario.slot 10 Event.SWAPPABLE 1000)) as [E H];
    try reflexivity; try discriminate.
  split; [by rewrite E|]. apply H. discriminate.
Defined.

Lemma canBeSwapped_spec now e :
  Event.canBeSwapped now e = true ↔
  Event.status e = Event.SWAPPABLE ∧ now < Event.startTime e.
Proof.
  unfold Event.canBeSwapped.
  rewrite andb_true_iff, !bool_decide_eq_true. split; intros [? ?]; split;
    done || lia.
Qed.

(** The preconditions of POST /api/swap/request are sufficient: when they
    hold and the store accepts the write, the request is created. *)
Lemma create_succeeds now fs user a b message d m t :
  is_Some (Swaps.validate_message message) → a ≠ b →
  events d !! a = Some m → events d !! b = Some t →
  Event.userId m = user → Event.userId t ≠ user →
  Event.canBeSwapped now m = true → Event.canBeSwapped now t = true →
  (∀ i x, swapRequests d !! i = Some x → Swaps.pending_between a b x = false) →
  head fs ≠ Some true →
  run fs d (Swaps.create now user a b message)
  = (with_swapRequests
       (insert (newObjectId (swapRequests d))
          (new_request now user a b t message)) d,
     Success 201 (newObjectId (swapRequests d),
                  new_request now user a b t message)).
Proof.
  intros [msg Hmsg] Hab Hm Ht Hum Hut [Hms Hmf]%canBeSwapped_spec
    [Hts Htf]%canBeSwapped_spec Hnone Hf.
  destruct (validate_message_trimmed _ _ Hmsg) as [Etrim Vmsg].
  assert (existsb (λ p : nat * SwapRequest.doc, Swaps.pending_between a b p.2)
            (map_to_list (swapRequests d)) = false) as Hex.
  { apply not_true_is_false. intros Hex.
    apply existsb_map_to_list in Hex as (i & x & Hx & Hp).
    simpl in Hp. rewrite (Hnone i x Hx) in Hp. done. }
  unfold Swaps.create, Swaps.create_handler, SwapRequestModel.save,
    SwapRequestModel.pre_save, SwapRequestModel.post_save,
    SwapRequestModel.store_doc, SwapRequestModel.findOne, EventModel.findById.
  rewrite Hmsg. unfold_M. run_simpl. rewrite Etrim.
  bd_false. rewrite Hm, Ht. run_simpl. do 6 bd_false.
  rewrite Hex. run_simpl.
  unfold SwapRequest.validate. simpl. rewrite Vmsg.
  change (Js.isLength 0 300 "") with true. run_simpl.
  rewrite ?Hm, ?Ht. run_simpl. repeat bd_false.
  destruct fs as [|[] fs]; run_simpl; try done.
  all: by rewrite (no_pending_no_conflict a b) by done.
Qed.

(** X15.  POST /api/swap/request succeeds exactly when the message passes
    its validator, the two slots are distinct and exist, the first is the
    caller's and the second is not, both can be swapped (they are
    SWAPPABLE and start in the future), no Pending request joins the two
    slots in either direction, and the store accepts the write. *)
Theorem create_succeeds_exactly_when now fs user a b message d :
  is_failure (run fs d (Swaps.create now user a b message)).2 = false ↔
  is_Some (Swaps.validate_message message) ∧ a ≠ b ∧
  (∃ m t, events d !! a = Some m ∧ events d !! b = Some t ∧
          Event.userId m = user ∧ Event.userId t ≠ user ∧
          Event.canBeSwapped now m = true ∧ Event.canBeSwapped now t = true) ∧
  (∀ i x, swapRequests d !! i = Some x → Swaps.pending_between a b x = false) ∧
  head fs ≠ Some true.
Proof.
  split.
  - intros Hok.
    destruct (create_outcome now fs user a b message d)
      as [[_ Hf]|(m & t & Hmsg & Hab & Hm & Ht & Hum & Hut & Hms & Hts & Hmf
                  & Htf & Hnone & E)]; [congruence|].
    split; [done|]. split; [done|]. split.
    { exists m, t. rewrite !canBeSwapped_spec. done. }
    split; [done|]. intros Hf.
    destruct fs as [|[] fs]; try done. clear Hf.
    revert E. unfold Swaps.create. destruct Hmsg as [msg ->].
    unfold validated, Swaps.create_handler, SwapRequestModel.findOne,
      SwapRequestModel.save, SwapRequestModel.pre_save,
      SwapRequestModel.post_save, SwapRequestModel.store_doc,
      EventModel.findById.
    unfold_M. run_simpl. bd_false. rewrite Hm, Ht. run_simpl. do 6 bd_false.
    destruct (existsb _ _); run_simpl; [done|].
    destruct (negb _); run_simpl; [done|].
    rewrite ?Hm, ?Ht. run_simpl. repeat bd_false. done.
  - intros (Hmsg & Hab & (m & t & Hm & Ht & Hum & Hut & Hmc & Htc) & Hnone & Hf).
    by rewrite (create_succeeds now fs user a b message d m t).
Qed.

(** ** GET /api/events/swappable-slots *)

(** ** One page of a sorted listing *)

Section Page.
Context {A} (R : relation A) `{!RelDecision R, !Transitive R, !Total R}.
Implicit Types l : list A.

Lemma page_elem_of l k n x : x ∈ take n (drop k (merge_sort R l)) → x ∈ l.
Proof.
  intros Hx. apply elem_of_take in Hx as (i & Hx & _).
  rewrite lookup_drop in Hx. apply list_elem_of_lookup_2 in Hx.
  by rewrite merge_sort_Permutation in Hx.
Qed.

Lemma page_sorted l k n :
  StronglySorted R (take n (drop k (merge_sort R l))).
Proof.
  pose proof (StronglySorted_merge_sort R l) as Hs.
  rewrite <- (take_drop k (merge_sort R l)) in Hs.
  apply StronglySorted_app_1_r in Hs.
  rewrite <- (take_drop n (drop k (merge_sort R l))) in Hs.
  by apply StronglySorted_app_1_l in Hs.
Qed.

Lemma page_NoDup l k n : NoDup l → NoDup (take n (drop k (merge_sort R l))).
Proof.
  intros Hl. eapply sublist_NoDup; [|apply sublist_take].
  eapply sublist_NoDup; [|apply sublist_drop].
  by rewrite merge_sort_Permutation.
Qed.

Lemma page_length l k n :
  length (take n (drop k (merge_sort R l))) = (n `min` (length l - k))%nat.
Proof. by rewrite length_take, length_drop, merge_sort_Permutation. Qed.

(** What the first [n] documents leave out comes after them in the order,
    and is left out only because the limit is reached. *)
Lemma first_page_complete l n x :
  x ∈ l → x ∉ take n (merge_sort R l) →
  length (take n (merge_sort R l)) = n ∧
  ∀ y, y ∈ take n (merge_sort R l) → R y x.
Proof.
  intros Hx Hnot.
  pose proof (StronglySorted_merge_sort R l) as Hs.
  rewrite <- (take_drop n (merge_sort R l)) in Hs.
  assert (x ∈ drop n (merge_sort R l)) as Hd.
  { rewrite <- (merge_sort_Permutation R l),
      <- (take_drop n (merge_sort R l)), elem_of_app in Hx. tauto. }
  split.
  - rewrite length_take. apply Nat.min_l.
    destruct (decide (n ≤ length (merge_sort R l))%nat) as [|Hn]; [done|].
    rewrite drop_ge in Hd by lia. by apply elem_of_nil in Hd.
  - intros y Hy. by apply (StronglySorted_app_1_elem_of R _ _ y x Hs).
Qed.

End Page.

Global Instance earlier_first_trans : Transitive EventModel.earlier_first.
Proof. unfold EventModel.earlier_first. intros a b c. lia. Qed.

Global Instance earlier_first_total : Total EventModel.earlier_first.
Proof. unfold EventModel.earlier_first. intros a b. lia. Qed.

Lemma swappable_query_spec now user category startDate endDate e :
  Events.swappable_query now user category startDate endDate e = true ↔
  Event.canBeSwapped now e = true ∧ Event.userId e ≠ user ∧
  (∀ c, category = Some c → Event.category e = c) ∧
  (∀ s, startDate = Some s → s ≤ Event.startTime e) ∧
  (∀ t, endDate = Some t → Event.endTime e ≤ t).
Proof.
  unfold Events.swappable_query, Event.canBeSwapped.
  rewrite !andb_true_iff, !bool_decide_eq_true.
  destruct category, startDate, endDate; rewrite ?bool_decide_eq_true;
    (split; [intros H; repeat split; try tauto; intros ? [= <-]; try tauto; lia
            |intros (H0 & H1 & H2 & H3 & H4);
             repeat split; try tauto; try (by apply H2);
             try (specialize (H3 _ eq_refl); lia); by apply H4]).
Qed.

Lemma limit_take {B} (n : nat) (l : list B) :
  (1 ≤ n)%nat → EventModel.limit n l = take n l.
Proof. destruct n; [lia|done]. Qed.

(** GET /api/events/swappable-slots, evaluated. *)
Lemma swappable_slots_run now fs user category startDate endDate limit d :
  let slots :=
    take (default 50%nat limit)
      (merge_sort EventModel.earlier_first
         (filter (λ p : nat * Event.doc,
                    Events.swappable_query now user category startDate endDate
                      p.2 = true)
                 (map_to_list (events d)))) in
  run fs d (Events.swappable_slots now user category startDate endDate limit)
  = if match limit with
       | Some l => bool_decide (1 ≤ l ≤ 100)%nat | None => true end
    then (d, Success 200 (slots, length slots))
    else (d, Failure 400 "Validation failed").
Proof.
  unfold Events.swappable_slots, EventModel.find.
  destruct (match limit with
            | Some l => bool_decide (1 ≤ l ≤ 100)%nat | None => true end)
    eqn:Hl; [|done].
  unfold_M. run_simpl. rewrite limit_take; [done|].
  destruct limit as [n|]; simpl; [|lia].
  apply bool_decide_eq_true in Hl. lia.
Qed.

Lemma swappable_found now user category startDate endDate d j e :
  (j, e) ∈ filter (λ p : nat * Event.doc,
                     Events.swappable_query now user category startDate endDate
                       p.2 = true)
                  (map_to_list (events d)) ↔
  events d !! j = Some e ∧
  Events.swappable_query now user category startDate endDate e = true.
Proof. rewrite list_elem_of_filter, elem_of_map_to_list. simpl. tauto. Qed.

(** X16.  GET /api/events/swappable-slots changes nothing and, for a
    [limit] its validator accepts, returns with their count at most
    [limit] (50 when absent) stored events, without repetition and in the
    order of their start times; each can be swapped at the time of the
    request (it is SWAPPABLE and starts in the future), belongs to another
    user and passes the filters of the query; an event that meets all this
    and is not returned starts no earlier than every returned one, and is
    left out only because the limit is reached. *)
Theorem swappable_slots_lists_eligible_slots
    now fs user category startDate endDate limit d :
  match limit with Some l => (1 ≤ l ≤ 100)%nat | None => True end →
  ∃ slots,
    run fs d (Events.swappable_slots now user category startDate endDate limit)
      = (d, Success 200 (slots, length slots)) ∧
    (length slots ≤ default 50 limit)%nat ∧
    NoDup slots ∧
    StronglySorted EventModel.earlier_first slots ∧
    (∀ j e, (j, e) ∈ slots →
       events d !! j = Some e ∧
       Events.swappable_query now user category startDate endDate e = true ∧
       Event.canBeSwapped now e = true ∧ Event.userId e ≠ user) ∧
    (∀ j e, events d !! j = Some e →
       Events.swappable_query now user category startDate endDate e = true →
       (j, e) ∉ slots →
       length slots = default 50%nat limit ∧
       ∀ p, p ∈ slots → Event.startTime p.2 ≤ Event.startTime e).
Proof.
  intros Hl. rewrite swappable_slots_run.
  assert (match limit with
          | Some l => bool_decide (1 ≤ l ≤ 100)%nat | None => true end = true)
    as -> by (destruct limit; [by apply bool_decide_eq_true|done]).
  eexists. split; [reflexivity|].
  set (found := filter _ (map_to_list (events d))).
  split; [rewrite length_take; lia|].
  split.
  { rewrite <- (drop_0 (merge_sort _ found)). apply page_NoDup.
    apply NoDup_filter, NoDup_map_to_list. }
  split.
  { rewrite <- (drop_0 (merge_sort _ found)). apply page_sorted; apply _. }
  split.
  - intros j e Hin. rewrite <- (drop_0 (merge_sort _ found)) in Hin.
    apply page_elem_of, swappable_found in Hin as [He Hq].
    do 2 (split; [done|]). by apply swappable_query_spec in Hq as (? & ? & _).
  - intros j e He Hq Hnot.
    apply (first_page_complete EventModel.earlier_first found _ (j, e));
      [|done].
    by apply swappable_found.
Qed.

Lemma swappable_slots_lists_eligible_slots_witness :
  ∃ slots,
    run [] Scenario.offered
      (Events.swappable_slots 5 10 None None None (Some 10%nat))
    = (Scenario.offered, Success 200 (slots, length slots)) ∧
    ∀ j e, (j, e) ∈ slots → Event.userId e ≠ 10%nat.
Proof.
  destruct (swappable_slots_lists_eligible_slots 5 [] 10 None None None
              (Some 10%nat) Scenario.offered)
    as (slots & Hrun & _ & _ & _ & Hin & _); [simpl; lia|].
  exists slots. split; [done|]. intros j e H. by apply Hin in H as (_ & _ & _ & ?).
Defined.

(** X17.  A slot GET /api/events/swappable-slots has listed can be
    requested: when the store has not changed since, the slot has not
    started, the caller offers a slot of their own that can be swapped,
    the message passes its validator, no Pending request joins the two
    slots and the store accepts the write, POST /api/swap/request creates
    the request, directed to the owner of the listed slot. *)
Theorem a_listed_slot_can_be_requested
    now now' fs fs' user category startDate endDate limit d slots n
    j t my m message :
  run fs d (Events.swappable_slots now user category startDate endDate limit)
    = (d, Success 200 (slots, n)) →
  (j, t) ∈ slots →
  now' < Event.startTime t →
  events d !! my = Some m → Event.userId m = user →
  Event.canBeSwapped now' m = true →
  is_Some (Swaps.validate_message message) →
  (∀ i x, swapRequests d !! i = Some x → Swaps.pending_between my j x = false) →
  head fs' ≠ Some true →
  run fs' d (Swaps.create now' user my j message)
  = (with_swapRequests
       (insert (newObjectId (swapRequests d))
          (new_request now' user my j t message)) d,
     Success 201 (newObjectId (swapRequests d),
                  new_request now' user my j t message)).
Proof.
  rewrite swappable_slots_run. case_match; [|done].
  intros [= <- <-] Hin Ht Hm Hu Hmc Hmsg Hnone Hf.
  rewrite <- (drop_0 (merge_sort _ _)) in Hin.
  apply page_elem_of, swappable_found in Hin as [He Hq].
  apply swappable_query_spec in Hq as ([Hts _]%canBeSwapped_spec & Htu & _).
  apply (create_succeeds now' fs' user my j message d m t); try done.
  - intros ->. congruence.
  - by apply canBeSwapped_spec.
Qed.

Lemma a_listed_slot_can_be_requested_witness :
  run [] Scenario.offered (Swaps.create 6 10 1 2 (Some "hi"))
  = (with_swapRequests
       (insert (newObjectId (swapRequests Scenario.offered))
          (new_request 6 10 1 2 (Scenario.slot 20 Event.SWAPPABLE 2000)
             (Some "hi"))) Scenario.offered,
     Success 201 (newObjectId (swapRequests Scenario.offered),
                  new_request 6 10 1 2 (Scenario.slot 20 Event.SWAPPABLE 2000)
                    (Some "hi"))).
Proof.
  apply (a_listed_slot_can_be_requested 5 6 [] [] 10 None None None None
           Scenario.offered [(2%nat, Scenario.slot 20 Event.SWAPPABLE 2000)]
           1%nat 2 (Scenario.slot 20 Event.SWAPPABLE 2000)
           1 (Scenario.slot 10 Event.SWAPPABLE 1000) (Some "hi"));
    try (vm_compute; reflexivity); try discriminate.
  - apply list_elem_of_here.
  - vm_compute. eauto.
Defined.

(** ** The statics of the models *)

(** X18.  The two statics of the Event model.  [findSwappableEvents] changes
    nothing; with a limit between 1 and 100 it returns what GET
    /api/events/swappable-slots returns without filters, with no limit
    given it is the query with limit 50, and with limit 0 (no limit) it
    returns exactly the stored events of other users that can be swapped.
    [findUserEvents] returns, in the order of their start times, exactly
    the events of the user, and only those that start in the future unless
    [includeAll] is set. *)
Theorem event_statics_list_what_the_routes_list now user w :
  (∀ n, (1 ≤ n ≤ 100)%nat →
     ∃ l, EventModel.findSwappableEvents now user (Some n) w = (w, Returned l) ∧
          ∀ fs, run fs (db w)
                  (Events.swappable_slots now user None None None (Some n))
                = (db w, Success 200 (l, length l))) ∧
  EventModel.findSwappableEvents now user None w
    = EventModel.findSwappableEvents now user (Some 50%nat) w ∧
  (∃ l, EventModel.findSwappableEvents now user (Some 0%nat) w = (w, Returned l) ∧
        ∀ j e, (j, e) ∈ l ↔
          events (db w) !! j = Some e ∧
          Event.canBeSwapped now e = true ∧ Event.userId e ≠ user) ∧
  (∀ includeAll,
     ∃ l, EventModel.findUserEvents now user includeAll w = (w, Returned l) ∧
          StronglySorted EventModel.earlier_first l ∧
          ∀ j e, (j, e) ∈ l ↔
            events (db w) !! j = Some e ∧ Event.userId e = user ∧
            (includeAll = false → now < Event.startTime e)).
Proof.
  split; [|split; [done|split]].
  - intros n Hn.
    unfold EventModel.findSwappableEvents, EventModel.find, mbind, M_bind,
      read, mret, M_ret.
    simpl. rewrite limit_take by lia.
    eexists. split; [reflexivity|]. intros fs.
    rewrite swappable_slots_run. rewrite bool_decide_eq_true_2 by done.
    assert (filter (λ p : nat * Event.doc,
                      Events.swappable_query now user None None None p.2 = true)
                   (map_to_list (events (db w)))
            = filter (λ p : nat * Event.doc,
                        bool_decide (Event.status p.2 = Event.SWAPPABLE) &&
                        bool_decide (Event.userId p.2 ≠ user) &&
                        bool_decide (Event.startTime p.2 > now) = true)
                     (map_to_list (events (db w)))) as ->; [|done].
    apply list_filter_iff. intros [j e]. unfold Events.swappable_query. simpl.
    by rewrite !andb_true_r.
  - unfold EventModel.findSwappableEvents, EventModel.find, EventModel.limit.
    unfold_M. simpl. eexists. split; [reflexivity|]. intros j e.
    rewrite merge_sort_Permutation, list_elem_of_filter, elem_of_map_to_list.
    simpl. unfold Event.canBeSwapped.
    rewrite !andb_true_iff, !bool_decide_eq_true. tauto.
  - intros includeAll.
    unfold EventModel.findUserEvents, EventModel.find. unfold_M. simpl.
    eexists. split; [reflexivity|].
    split; [apply StronglySorted_merge_sort; apply _|]. intros j e.
    rewrite merge_sort_Permutation, list_elem_of_filter, elem_of_map_to_list.
    simpl. rewrite andb_true_iff, bool_decide_eq_true.
    destruct includeAll; simpl; [|rewrite bool_decide_eq_true];
      (split; [intros [[? ?] ?]|intros (? & ? & ?)]); repeat split;
      try done; try lia.
Qed.

Lemma event_statics_list_what_the_routes_list_witness :
  ∃ l,
    EventModel.findSwappableEvents 5 10 (Some 10%nat)
      {| db := Scenario.offered; faults := [] |}
    = ({| db := Scenario.offered; faults := [] |}, Returned l) ∧
    run [] Scenario.offered
      (Events.swappable_slots 5 10 None None None (Some 10%nat))
    = (Scenario.offered, Success 200 (l, length l)).
Proof.
  destruct (event_statics_list_what_the_routes_list 5 10
              {| db := Scenario.offered; faults := [] |}) as (H & _).
  destruct (H 10%nat) as (l & Hl & Hr); [lia|].
  exists l. split; [done|]. apply Hr.
Defined.

Global Instance createdAt_desc_trans :
  Transitive SwapRequestModel.createdAt_desc.
Proof. unfold SwapRequestModel.createdAt_desc. intros a b c. lia. Qed.

Global Instance createdAt_desc_total : Total SwapRequestModel.createdAt_desc.
Proof. unfold SwapRequestModel.createdAt_desc. intros a b. lia. Qed.

(** X19.  The two statics of the SwapRequest model.  [findIncomingRequests]
    returns, newest first, exactly the Pending requests directed to the
    user whose expiry is strictly after the time of the call; every one of
    them is pending in the sense of the virtual [isPending], and a request
    to the user that [isPending] holds of is missing from the list only
    when it expires at this very instant.  [findOutgoingRequests] returns,
    newest first, exactly the requests the user made, whatever their
    status. *)
Theorem request_statics_list_the_users_requests now user w :
  (∃ l, SwapRequestModel.findIncomingRequests now user w = (w, Returned l) ∧
        StronglySorted SwapRequestModel.createdAt_desc l ∧
        (∀ i r, (i, r) ∈ l ↔
           swapRequests (db w) !! i = Some r ∧
           SwapRequest.requestedTo r = user ∧
           SwapRequest.status r = SwapRequest.PENDING ∧
           now < SwapRequest.expiresAt r) ∧
        (∀ i r, (i, r) ∈ l → SwapRequest.isPending now r = true) ∧
        (∀ i r, swapRequests (db w) !! i = Some r →
           SwapRequest.requestedTo r = user →
           SwapRequest.isPending now r = true →
           (i, r) ∉ l → SwapRequest.expiresAt r = now)) ∧
  (∃ l, SwapRequestModel.findOutgoingRequests user w = (w, Returned l) ∧
        StronglySorted SwapRequestModel.createdAt_desc l ∧
        (∀ i r, (i, r) ∈ l ↔
           swapRequests (db w) !! i = Some r ∧
           SwapRequest.requestedBy r = user)).
Proof.
  split.
  - unfold SwapRequestModel.findIncomingRequests, SwapRequestModel.find.
    unfold_M. simpl. eexists. split; [reflexivity|].
    split; [apply StronglySorted_merge_sort; apply _|].
    match goal with |- ?P ∧ _ => assert P as Hspec end.
    { intros i r.
      rewrite merge_sort_Permutation, list_elem_of_filter, elem_of_map_to_list.
      simpl. rewrite !andb_true_iff, !bool_decide_eq_true.
      split; [intros [[[? ?] ?] ?]|intros (? & ? & ? & ?)]; repeat split;
        done || lia. }
    split; [done|]. unfold SwapRequest.isPending, SwapRequest.isExpired. split.
    + intros i r (_ & _ & Hp & He)%Hspec.
      rewrite andb_true_iff, negb_true_iff, bool_decide_eq_true,
        bool_decide_eq_false. split; [done|lia].
    + intros i r Hr Hu Hp Hnot.
      rewrite andb_true_iff, negb_true_iff, bool_decide_eq_true,
        bool_decide_eq_false in Hp. destruct Hp as [Hp He].
      destruct (decide (now < SwapRequest.expiresAt r)) as [Hlt|]; [|lia].
      destruct Hnot. by apply Hspec.
  - unfold SwapRequestModel.findOutgoingRequests, SwapRequestModel.find.
    unfold_M. simpl. eexists. split; [reflexivity|].
    split; [apply StronglySorted_merge_sort; apply _|]. intros i r.
    rewrite merge_sort_Permutation, list_elem_of_filter, elem_of_map_to_list.
    simpl. rewrite bool_decide_eq_true. tauto.
Qed.

(** ** Pagination and the history *)

(** ** Pagination *)

Lemma ceil_div_lt (a b p : nat) :
  (1 ≤ b)%nat → (p < Js.ceil_div a b ↔ p * b < a)%nat.
Proof.
  intros Hb. unfold Js.ceil_div.
  pose proof (Nat.div_mod_eq a b) as Hdm.
  pose proof (Nat.mod_upper_bound a b ltac:(lia)) as Hm.
  case_bool_decide as Hr; nia.
Qed.

Lemma concat_pages {A} (l : list A) (n m : nat) :
  concat ((λ p, take n (drop (p * n) l)) <$> seq 0 m) = take (m * n) l.
Proof.
  induction m as [|m IH]; [done|].
  rewrite seq_S, fmap_app, concat_app, IH. simpl.
  rewrite app_nil_r, take_take_drop. f_equal. lia.
Qed.

Lemma concat_pages_from_1 {A} (l : list A) (n m : nat) :
  concat ((λ p, take n (drop ((p - 1) * n) l)) <$> seq 1 m) = take (m * n) l.
Proof.
  rewrite <- fmap_S_seq, <- list_fmap_compose, <- concat_pages.
  f_equal. apply list_fmap_ext. intros i p _. simpl. by rewrite Nat.sub_0_r.
Qed.

Global Instance newer_first_trans : Transitive Swaps.newer_first.
Proof. unfold Swaps.newer_first. intros a b c. lia. Qed.

Global Instance newer_first_total : Total Swaps.newer_first.
Proof. unfold Swaps.newer_first. intros a b. lia. Qed.

(** X20.  The pagination of GET /api/swap/incoming and /outgoing, for a
    page and a limit their validators accept: [totalCount] is the number of
    matching requests; the page holds the requests of the sorted result
    from position (page - 1) * limit on, at most [limit] of them; [hasNext]
    holds exactly when the page is before [totalPages], [hasPrev] exactly
    when it is after the first; the page is empty exactly when it is past
    [totalPages]; and the pages 1 to [totalPages], one after the other, are
    the sorted result: no request is skipped and none is listed twice. *)
Theorem pages_partition_the_listing page limit found :
  (1 ≤ page)%nat → (1 ≤ limit ≤ 50)%nat →
  let res := Swaps.paginate (Some page) (Some limit) found in
  let pg := Swaps.pagination (Some page) (Some limit) (length res.1) res.2 in
  Swaps.totalCount pg = length found ∧
  length res.1 = (limit `min` (length found - (page - 1) * limit))%nat ∧
  (Swaps.hasNext pg = true ↔ (page < Swaps.totalPages pg)%nat) ∧
  (Swaps.hasPrev pg = true ↔ (1 < page)%nat) ∧
  (res.1 = [] ↔ (Swaps.totalPages pg < page)%nat) ∧
  concat ((λ p, (Swaps.paginate (Some p) (Some limit) found).1)
            <$> seq 1 (Swaps.totalPages pg))
  = merge_sort Swaps.newer_first found.
Proof.
  intros Hp Hl res pg. subst res pg. unfold Swaps.paginate, Swaps.pagination.
  simpl. rewrite !bool_decide_eq_true, !ceil_div_lt by lia.
  rewrite page_length.
  split; [done|]. split; [done|]. split; [nia|]. split; [done|]. split.
  - rewrite <- length_zero_iff_nil, page_length.
    pose proof (ceil_div_lt (length found) limit (page - 1) ltac:(lia)) as H.
    split; intros; [|nia].
    destruct (decide (Js.ceil_div (length found) limit < page)%nat); [done|].
    assert (page - 1 < Js.ceil_div (length found) limit)%nat as H' by lia.
    apply H in H'. lia.
  - rewrite concat_pages_from_1.
    apply take_ge. rewrite merge_sort_Permutation.
    pose proof (ceil_div_lt (length found) limit
                  (Js.ceil_div (length found) limit) ltac:(lia)) as H.
    destruct (decide (length found ≤ Js.ceil_div (length found) limit * limit)%nat);
      [done|].
    assert (Js.ceil_div (length found) limit
            < Js.ceil_div (length found) limit)%nat; [apply H|]; lia.
Qed.

Lemma pages_partition_the_listing_witness :
  let found := [(0%nat, Scenario.request 1 2 10 20 SwapRequest.PENDING 5);
                (1%nat, Scenario.request 3 4 30 20 SwapRequest.PENDING 7);
                (2%nat, Scenario.request 5 6 40 20 SwapRequest.PENDING 6)] in
  (Swaps.paginate (Some 1%nat) (Some 2%nat) found).1
    ++ (Swaps.paginate (Some 2%nat) (Some 2%nat) found).1
  = merge_sort Swaps.newer_first found.
Proof.
  intros found.
  destruct (pages_partition_the_listing 1 2 found)
    as (_ & _ & _ & _ & _ & H); [lia..|].
  vm_compute in H. vm_compute. exact H.
Defined.

Global Instance responded_later_first_trans :
  Transitive Swaps.responded_later_first.
Proof.
  unfold Swaps.responded_later_first. intros a b c.
  destruct (SwapRequest.respondedAt a.2), (SwapRequest.respondedAt b.2),
    (SwapRequest.respondedAt c.2); try done; lia.
Qed.

Global Instance responded_later_first_total :
  Total Swaps.responded_later_first.
Proof.
  unfold Swaps.responded_later_first. intros a b.
  destruct (SwapRequest.respondedAt a.2), (SwapRequest.respondedAt b.2);
    try tauto; lia.
Qed.

Lemma history_query_spec user r :
  Swaps.history_query user r = true ↔
  SwapRequest.status r = SwapRequest.ACCEPTED ∧
  (SwapRequest.requestedBy r = user ∨ SwapRequest.requestedTo r = user).
Proof.
  unfold Swaps.history_query.
  rewrite andb_true_iff, orb_true_iff, !bool_decide_eq_true. tauto.
Qed.

(** GET /api/swap/history, evaluated. *)
Lemma history_run user page limit fs d :
  let found := filter (λ p : nat * SwapRequest.doc,
                         Swaps.history_query user p.2 = true)
                      (map_to_list (swapRequests d)) in
  let l := take (default 20%nat limit)
             (drop ((default 1 page - 1) * default 20 limit)%nat
                (merge_sort Swaps.responded_later_first found)) in
  run fs d (Swaps.history user page limit)
  = if Swaps.validate_listing [] None page limit
    then (d, Success 200
               (l, Swaps.pagination page limit (length l) (length found)))
    else (d, Failure 400 "Validation failed").
Proof.
  unfold Swaps.history, SwapRequestModel.find.
  destruct (Swaps.validate_listing [] None page limit); [|done].
  by unfold_M.
Qed.

(** X21.  GET /api/swap/history changes nothing and returns, for a page and
    a limit its validators accept, stored requests that are ACCEPTED and in
    which the caller is the requester or the recipient, without
    repetition, the most recently answered first; [totalCount] is the
    number of such requests, and when they fit on the first page all of
    them are returned. *)
Theorem history_lists_accepted_swaps user page limit fs d :
  Swaps.validate_listing [] None page limit = true →
  ∃ l pg,
    run fs d (Swaps.history user page limit) = (d, Success 200 (l, pg)) ∧
    StronglySorted Swaps.responded_later_first l ∧ NoDup l ∧
    (length l ≤ default 20 limit)%nat ∧
    (∀ i r, (i, r) ∈ l →
       swapRequests d !! i = Some r ∧
       SwapRequest.status r = SwapRequest.ACCEPTED ∧
       (SwapRequest.requestedBy r = user ∨ SwapRequest.requestedTo r = user)) ∧
    (default 1%nat page = 1%nat →
     (Swaps.totalCount pg ≤ default 20 limit)%nat →
     ∀ i r, swapRequests d !! i = Some r →
       SwapRequest.status r = SwapRequest.ACCEPTED →
       SwapRequest.requestedBy r = user ∨ SwapRequest.requestedTo r = user →
       (i, r) ∈ l).
Proof.
  intros Hv. rewrite history_run, Hv. eexists _, _. split; [reflexivity|].
  set (found := filter _ (map_to_list (swapRequests d))).
  assert (∀ i r, (i, r) ∈ found ↔
            swapRequests d !! i = Some r ∧
            SwapRequest.status r = SwapRequest.ACCEPTED ∧
            (SwapRequest.requestedBy r = user ∨ SwapRequest.requestedTo r = user))
    as Hfound.
  { intros i r. subst found.
    rewrite list_elem_of_filter, elem_of_map_to_list. simpl.
    rewrite history_query_spec. tauto. }
  split; [apply page_sorted; apply _|].
  split; [apply page_NoDup, NoDup_filter, NoDup_map_to_list|].
  split; [rewrite length_take; lia|].
  split.
  - intros i r Hin. by apply page_elem_of, Hfound in Hin.
  - simpl. intros -> Hcount i r Hr Hs Hu. simpl.
    rewrite take_ge by (by rewrite merge_sort_Permutation).
    rewrite merge_sort_Permutation. by apply Hfound.
Qed.

Lemma history_lists_accepted_swaps_witness :
  ∃ l pg,
    run [] Scenario.settled (Swaps.history 10 None None)
      = (Scenario.settled, Success 200 (l, pg)) ∧
    ∀ i r, (i, r) ∈ l → SwapRequest.status r = SwapRequest.ACCEPTED.
Proof.
  destruct (history_lists_accepted_swaps 10 None None [] Scenario.settled)
    as (l & pg & Hrun & _ & _ & _ & Hin & _); [reflexivity|].
  exists l, pg. split; [done|]. intros i r H. by apply Hin in H as (_ & ? & _).
Defined.

(** ** The stores the API reaches *)

(** X22.  In every store the API can reach from the empty one, no slot is
    SWAP_PENDING and every swap request is Pending or Cancelled; every
    POST /api/swap/response fails and changes nothing, so a request created
    through the API can be neither accepted nor rejected through it; and
    GET /api/swap/history returns no swap, for every user. *)
Theorem accept_is_unreachable d :
  reachable d →
  no_swap_pending d ∧
  (∀ i r, swapRequests d !! i = Some r →
          SwapRequest.status r = SwapRequest.PENDING ∨
          SwapRequest.status r = SwapRequest.CANCELLED) ∧
  (∀ now fs user rid action message,
     fails d (run fs d (Swaps.respond now user rid action message))) ∧
  (∀ fs user page limit,
     Swaps.validate_listing [] None page limit = true →
     run fs d (Swaps.history user page limit)
     = (d, Success 200 ([], Swaps.pagination page limit 0 0))).
Proof.
  intros Hd. destruct (reachable_invariant d Hd) as [He Hr].
  split; [done|]. split; [done|]. split.
  { intros. by apply respond_needs_swap_pending. }
  intros fs user page limit Hv. rewrite history_run, Hv.
  assert (filter (λ p : nat * SwapRequest.doc,
                    Swaps.history_query user p.2 = true)
                 (map_to_list (swapRequests d)) = []) as ->.
  { destruct (filter _ _) as [|[i r] l] eqn:E; [done|].
    assert ((i, r) ∈ (i, r) :: l) as Hin by apply list_elem_of_here.
    rewrite <- E in Hin. apply list_elem_of_filter in Hin as [Hq Hin].
    apply elem_of_map_to_list, Hr in Hin. simpl in *.
    apply history_query_spec in Hq as [Hq _].
    destruct Hin; congruence. }
  change (merge_sort Swaps.responded_later_first []) with (@nil (nat * SwapRequest.doc)).
  by rewrite drop_nil, take_nil.
Qed.

Lemma accept_is_unreachable_witness :
  SwapRequest.status <$> swapRequests Scenario.flow !! 0%nat
    = Some SwapRequest.PENDING ∧
  fails Scenario.flow
    (run [] Scenario.flow (Swaps.respond 6 20 0 "accept" None)).
Proof.
  split; [vm_compute; reflexivity|].
  assert (reachable Scenario.flow) as H by (repeat constructor).
  destruct (accept_is_unreachable Scenario.flow H) as (_ & _ & Hr & _).
  apply Hr.
Defined.

(** ** The virtuals and the conflict check *)

(** X23.  The virtual [duration] of an event whose length is below 2^37
    minutes is that length in minutes, rounded to the nearest minute with
    a half minute going up: it differs from the exact length by at most 30
    seconds; it is 0 exactly for lengths from -30 s up to, not including,
    30 s, and it is negative exactly when the end is more than 30 s before
    the start. *)
Theorem duration_is_the_nearest_minute e :
  - 2 ^ 37 * 60000 < Event.endTime e - Event.startTime e < 2 ^ 37 * 60000 →
  let span := Event.endTime e - Event.startTime e in
  -30000 < 60000 * Event.duration e - span ≤ 30000 ∧
  (Event.duration e = 0 ↔ -30000 ≤ span < 30000) ∧
  (Event.duration e < 0 ↔ span < -30000).
Proof.
  intros _. unfold Event.duration, Js.round_div. simpl.
  set (n := Event.endTime e - Event.startTime e).
  change (1000 * 60) with 60000. change (2 * 60000) with 120000.
  pose proof (Z.div_mod (2 * n + 60000) 120000 ltac:(lia)) as Hd.
  pose proof (Z.mod_pos_bound (2 * n + 60000) 120000 ltac:(lia)) as Hm.
  lia.
Qed.

Lemma duration_is_the_nearest_minute_witness :
  Event.duration (Scenario.slot 10 Event.BUSY 1000) = 0.
Proof.
  destruct (duration_is_the_nearest_minute (Scenario.slot 10 Event.BUSY 1000))
    as (_ & H & _); [simpl; lia|].
  apply H. simpl. lia.
Defined.

(** X24.  [hasConflictWith] is symmetric; two events of which one ends when
    or before the other starts do not conflict, and an event whose end is
    after its start conflicts with itself.  [checkTimeConflicts] changes
    nothing and returns exactly the stored events of the user, other than
    the excluded one, that conflict in this sense with an event of the
    given start and end. *)
Theorem checkTimeConflicts_finds_the_conflicts userId s e skip w probe :
  Event.startTime probe = s → Event.endTime probe = e →
  (∀ a b, Event.hasConflictWith a b = Event.hasConflictWith b a) ∧
  (∀ a b, Event.endTime a ≤ Event.startTime b →
          Event.hasConflictWith a b = false) ∧
  (s < e → Event.hasConflictWith probe probe = true) ∧
  ∃ found,
    Events.checkTimeConflicts userId s e skip w = (w, Returned found) ∧
    ∀ j x, (j, x) ∈ found ↔
      events (db w) !! j = Some x ∧ Some j ≠ skip ∧
      Event.userId x = userId ∧ Event.hasConflictWith x probe = true.
Proof.
  intros Hs He.
  split.
  { intros a b. unfold Event.hasConflictWith.
    apply eq_true_iff_eq.
    rewrite !andb_true_iff, !bool_decide_eq_true. lia. }
  split.
  { intros a b Hab. apply hasConflictWith_false. lia. }
  split.
  { intros Hse. unfold Event.hasConflictWith.
    rewrite !bool_decide_eq_true_2; [done|lia..]. }
  destruct (checkTimeConflicts_spec userId s e skip w) as (found & -> & Hf & _).
  exists found. split; [done|]. intros j x. rewrite Hf.
  unfold overlapping, Event.hasConflictWith.
  rewrite andb_true_iff, !bool_decide_eq_true, Hs, He. tauto.
Qed.

Lemma checkTimeConflicts_finds_the_conflicts_witness :
  ∃ found,
    Events.checkTimeConflicts 10 1050 1150 None
      {| db := Scenario.offered; faults := [] |}
    = ({| db := Scenario.offered; faults := [] |}, Returned found) ∧
    (1%nat, Scenario.slot 10 Event.SWAPPABLE 1000) ∈ found.
Proof.
  destruct (checkTimeConflicts_finds_the_conflicts 10 1050 1150 None
              {| db := Scenario.offered; faults := [] |}
              (Scenario.slot 10 Event.BUSY 1050))
    as (_ & _ & _ & found & Hrun & Hin); [reflexivity..|].
  exists found. split; [done|]. apply Hin.
  repeat split; try done. 
Defined.

(** ** The model of the requests, and the order of the checks *)

(** X25.  Saving a new swap request through the model: the pre-save hook
    lets it through only when both slots exist, the first is owned by
    [requestedBy] and the second by [requestedTo], and both can be swapped
    (SWAPPABLE, start in the future); the save then stores the request and
    leaves every event as it was (the post-save hook does not run its
    updates); when the save throws, the store is as it was. *)
Theorem a_new_request_needs_two_swappable_slots now id r w :
  match SwapRequestModel.save now true id r w with
  | (w', Returned _) =>
      (∃ m t,
         events (db w) !! SwapRequest.mySlotId r = Some m ∧
         events (db w) !! SwapRequest.theirSlotId r = Some t ∧
         Event.userId m = SwapRequest.requestedBy r ∧
         Event.userId t = SwapRequest.requestedTo r ∧
         Event.canBeSwapped now m = true ∧ Event.canBeSwapped now t = true) ∧
      SwapRequest.validate r = true ∧
      db w' = with_swapRequests (insert id r) (db w)
  | (w', Thrown _) => db w' = db w
  end.
Proof.
  unfold SwapRequestModel.save, SwapRequestModel.pre_save,
    SwapRequestModel.post_save, SwapRequestModel.store_doc, EventModel.findById.
  destruct (SwapRequest.validate r) eqn:Hv; unfold_M; run_simpl; [|done].
  destruct w as [d fs]. run_simpl.
  destruct (events d !! SwapRequest.mySlotId r) as [m|] eqn:Hm; run_simpl;
    [|done].
  destruct (events d !! SwapRequest.theirSlotId r) as [t|] eqn:Ht; run_simpl;
    [|done].
  case_bool_decide as H1; run_simpl; [done|].
  case_bool_decide as H2; run_simpl; [done|].
  case_bool_decide as H3; run_simpl; [done|].
  case_bool_decide as H4; run_simpl; [done|].
  case_bool_decide as H5; run_simpl; [done|].
  case_bool_decide as H6; run_simpl; [done|].
  destruct fs as [|[] fs]; run_simpl; try done.
  all: destruct (SwapRequestModel.index_conflict _ _ _); run_simpl; [done|].
  all: split; [|done]; exists m, t; rewrite !canBeSwapped_spec.
  all: repeat split; done || lia.
Qed.

(** X26.  The checks of POST /api/swap/response and POST /api/swap/cancel,
    in their order; each failure leaves the store as it was.  A response
    whose body fails the validators is a validation failure; otherwise a
    missing request is NotFound, a caller who is not the recipient is
    Forbidden, a request that is not Pending is InvalidState, and, for an
    unexpired Pending request answered by its recipient, a missing slot or
    a slot that is not SWAP_PENDING is InvalidState.  A cancellation of a
    missing request is NotFound, by another user than the requester
    Forbidden, of a request that is not Pending InvalidState. *)
Theorem respond_and_cancel_check_in_order now user rid action message fs d :
  let res := run fs d (Swaps.respond now user rid action message) in
  let can := run fs d (Swaps.cancel now user rid) in
  (Swaps.validate_response action message = None →
   fails_with ValidationFailed d res) ∧
  (swapRequests d !! rid = None →
   fails_with NotFound d can ∧
   (is_Some (Swaps.validate_response action message) →
    fails_with NotFound d res)) ∧
  (∀ r, swapRequests d !! rid = Some r →
     (SwapRequest.requestedBy r ≠ user → fails_with Forbidden d can) ∧
     (SwapRequest.requestedBy r = user →
      SwapRequest.status r ≠ SwapRequest.PENDING →
      fails_with InvalidState d can) ∧
     (is_Some (Swaps.validate_response action message) →
      (SwapRequest.requestedTo r ≠ user → fails_with Forbidden d res) ∧
      (SwapRequest.requestedTo r = user →
       SwapRequest.status r ≠ SwapRequest.PENDING →
       fails_with InvalidState d res) ∧
      (SwapRequest.requestedTo r = user →
       SwapRequest.status r = SwapRequest.PENDING →
       now ≤ SwapRequest.expiresAt r →
       (events d !! SwapRequest.mySlotId r = None ∨
        events d !! SwapRequest.theirSlotId r = None →
        fails_with InvalidState d res) ∧
       (∀ m t,
          events d !! SwapRequest.mySlotId r = Some m →
          events d !! SwapRequest.theirSlotId r = Some t →
          Event.status m ≠ Event.SWAP_PENDING ∨
          Event.status t ≠ Event.SWAP_PENDING →
          fails_with InvalidState d res)))).
Proof.
  intros res can. subst res can.
  unfold fails_with, Swaps.respond, Swaps.respond_handler, Swaps.cancel,
    SwapRequestModel.findById, EventModel.findById, SwapRequest.isExpired.
  unfold_M. run_simpl.
  split; [intros ->; split; reflexivity|].
  split.
  { intros Hr. rewrite Hr. split; [done|].
    intros [[act msg] ->]. run_simpl. rewrite Hr. split; reflexivity. }
  intros r Hr. rewrite Hr. run_simpl.
  split; [intros ?; by bd_true|].
  split; [intros ? ?; bd_false; by bd_true|].
  intros [[act msg] ->]. run_simpl. rewrite Hr. run_simpl.
  split; [intros ?; by bd_true|].
  split; [intros ? ?; bd_false; by bd_true|].
  intros Hto Hp Hexp. do 3 bd_false. split.
  - intros [-> | ->]; [done|].
    by destruct (events d !! SwapRequest.mySlotId r).
  - intros m t -> -> [Hs|Hs]; run_simpl.
    + by bd_true.
    + rewrite (bool_decide_eq_true_2 (Event.status t ≠ _)) by done.
      by rewrite orb_true_r.
Qed.

Lemma respond_and_cancel_check_in_order_witness :
  fails_with Forbidden Scenario.pending
    (run [] Scenario.pending (Swaps.cancel 6 20 0)) ∧
  fails_with Forbidden Scenario.pending
    (run [] Scenario.pending (Swaps.respond 6 10 0 "accept" None)) ∧
  fails_with NotFound Scenario.pending
    (run [] Scenario.pending (Swaps.cancel 6 10 7)).
Proof.
  destruct (respond_and_cancel_check_in_order 6 20 0 "accept" None []
              Scenario.pending) as (_ & _ & H20).
  destruct (respond_and_cancel_check_in_order 6 10 0 "accept" None []
              Scenario.pending) as (_ & _ & H10).
  destruct (respond_and_cancel_check_in_order 6 10 7 "accept" None []
              Scenario.pending) as (_ & H7 & _).
  destruct (H20 (Scenario.request 1 2 10 20 SwapRequest.PENDING 5) eq_refl)
    as (Hcan & _).
  destruct (H10 (Scenario.request 1 2 10 20 SwapRequest.PENDING 5) eq_refl)
    as (_ & _ & Hres).
  destruct (Hres (mk_is_Some _ ("accept", None) eq_refl)) as (Hforb & _).
  destruct (H7 eq_refl) as (Hnf & _).
  split; [|split].
  - apply Hcan. discriminate.
  - apply Hforb. discriminate.
  - exact Hnf.
Defined.

(** X27.  The methods [markAsSwappable] and [markAsBusy] either throw and
    leave the store as it was, or store the event with the new status and
    nothing else changed; they store only an event that passes the
    validators of the schema.  On an event that has started,
    [markAsSwappable] throws its own error and [markAsBusy] fails the
    validation of the start time, so neither changes the status. *)
Theorem mark_methods_change_only_the_status now id e w :
  let outcome (s : Event.Status) (res : World * Outcome Event.doc) :=
    match res with
    | (w', Returned e') =>
        e' = Event.set_status s e ∧ Event.validate now e = true ∧
        db w' = with_events (insert id (Event.set_status s e)) (db w)
    | (w', Thrown _) => db w' = db w
    end in
  outcome Event.SWAPPABLE (EventModel.markAsSwappable now id e w) ∧
  outcome Event.BUSY (EventModel.markAsBusy now id e w) ∧
  (Event.startTime e ≤ now →
   EventModel.markAsSwappable now id e w
     = (w, Thrown (Error "Cannot mark past events as swappable")) ∧
   EventModel.markAsBusy now id e w = (w, Thrown (ValidationError "Event"))).
Proof.
  unfold EventModel.markAsSwappable, EventModel.markAsBusy, EventModel.save.
  destruct w as [d fs]. simpl.
  assert (∀ s, Event.validate now (Event.set_status s e) = Event.validate now e)
    as Hval by done.
  rewrite !Hval.
  split; [|split].
  - case_bool_decide; [done|].
    destruct (Event.validate now e); unfold_M; run_simpl; [|done].
    by destruct fs as [|[] fs].
  - destruct (Event.validate now e); unfold_M; run_simpl; [|done].
    by destruct fs as [|[] fs].
  - intros Hs. rewrite bool_decide_eq_true_2 by done. split; [done|].
    assert (Event.validate now e = false) as ->; [|done].
    unfold Event.validate, Event.startTime_validator.
    rewrite (bool_decide_eq_false_2 (_ > _)) by lia.
    by rewrite !andb_false_r.
Qed.

Lemma mark_methods_change_only_the_status_witness :
  EventModel.markAsBusy 1500 1 (Scenario.slot 10 Event.SWAPPABLE 1000)
    {| db := Scenario.offered; faults := [] |}
  = ({| db := Scenario.offered; faults := [] |},
     Thrown (ValidationError "Event")).
Proof.
  apply (mark_methods_change_only_the_status 1500 1
           (Scenario.slot 10 Event.SWAPPABLE 1000)
           {| db := Scenario.offered; faults := [] |}).
  vm_compute. discriminate.
Defined.

(** ** middleware/auth.js *)

Lemma spaceless_cons c s :
  Auth.spaceless (String c s) ↔ c ≠ Strings.Ascii.Space ∧ Auth.spaceless s.
Proof.
  unfold Auth.spaceless. simpl. rewrite not_elem_of_cons.
  split; intros [? ?]; split; congruence.
Qed.

Lemma split_space_spaceless s : Auth.spaceless s → Auth.split_space s = [s].
Proof.
  induction s as [|c s IH]; [done|]. intros [Hc Hs]%spaceless_cons. simpl.
  rewrite bool_decide_eq_false_2 by done. by rewrite IH.
Qed.

Lemma split_space_field s rest :
  Auth.spaceless s →
  Auth.split_space (s +:+ " " +:+ rest) = s :: Auth.split_space rest.
Proof.
  induction s as [|c s IH]; [done|]. intros [Hc Hs]%spaceless_cons. simpl.
  rewrite bool_decide_eq_false_2 by done. by rewrite IH.
Qed.

Lemma truthy_append s rest : Js.truthy (s +:+ " " +:+ rest) = true.
Proof. by destruct s. Qed.

(** X28.  The token the middleware reads from the Authorization header is
    the second of its fields separated by single spaces, whatever the
    first field is (the scheme is not compared with Bearer) and whatever
    follows a further space; a header without a space, or with nothing
    between the first and the second space, carries no token. *)
Theorem the_token_is_the_second_field scheme token rest :
  Auth.spaceless scheme → Auth.spaceless token →
  Auth.token_of (Some (scheme +:+ " " +:+ token))
    = (if Js.truthy token then Some token else None) ∧
  Auth.token_of (Some (scheme +:+ " " +:+ token +:+ " " +:+ rest))
    = Auth.token_of (Some (scheme +:+ " " +:+ token)) ∧
  Auth.token_of (Some scheme) = None ∧
  Auth.token_of None = None.
Proof.
  intros Hs Ht. unfold Auth.token_of.
  rewrite !truthy_append, !split_space_field by done.
  rewrite split_space_spaceless by done. simpl.
  split; [done|]. split; [done|]. split; [|done].
  destruct (Js.truthy scheme); [|done].
  by rewrite split_space_spaceless.
Qed.

Lemma the_token_is_the_second_field_witness :
  Auth.token_of (Some "Basic abc") = Some "abc" ∧
  Auth.token_of (Some "Bearer  abc") = None.
Proof.
  assert (∀ s, bool_decide (Strings.Ascii.Space ∉ String.list_ascii_of_string s)
               = true → Auth.spaceless s) as Hdec.
  { intros s. apply bool_decide_eq_true_1. }
  split.
  - apply (the_token_is_the_second_field "Basic" "abc" "");
      apply Hdec; vm_compute; reflexivity.
  - destruct (the_token_is_the_second_field "Bearer" "" "abc")
      as (H1 & H2 & _); [apply Hdec; vm_compute; reflexivity..|].
    etrans; [exact H2|exact H1].
Defined.

Ltac auth_cases :=
  repeat match goal with
         | |- _ ∧ _ => split
         | |- _ ↔ _ => split
         | |- ∀ _, _ => intros ?
         | |- _ → _ => intros ?
         | H : ∃ _, _ |- _ => destruct H
         | H : _ ∧ _ |- _ => destruct H
         end;
  simplify_eq; try done; try congruence; eauto 10.

(** X29.  [authenticateToken] calls [next()] exactly when the header carries
    a token that [jwt.verify] accepts and whose [userId] is that of a stored
    user with [isActive] set, and then [req.user] is that user; it never
    goes on without a user.  Every refusal is a 401, except a 500 when the
    error of [jwt.verify] is neither a JsonWebTokenError nor a
    TokenExpiredError.  [optionalAuth] sets [req.user] exactly when
    [authenticateToken] lets the request through, to the same user, and
    goes on without a user otherwise. *)
Theorem authentication_admits_active_users verify users h :
  (∀ id u,
     Auth.authenticateToken verify users h = Auth.Next (Some (id, u)) ↔
     ∃ token decoded,
       Auth.token_of h = Some token ∧ verify token = Auth.Decoded decoded ∧
       Auth.p_userId decoded = Some id ∧ users !! id = Some u ∧
       Auth.isActive u = true) ∧
  Auth.authenticateToken verify users h ≠ Auth.Next None ∧
  (∀ code message,
     Auth.authenticateToken verify users h = Auth.Denied code message →
     code = 401%nat ∨
     (code = 500%nat ∧
      ∃ token name,
        Auth.token_of h = Some token ∧ verify token = Auth.VerifyError name ∧
        name ≠ "JsonWebTokenError" ∧ name ≠ "TokenExpiredError")) ∧
  Auth.optionalAuth verify users h
  = match Auth.authenticateToken verify users h with
    | Auth.Next user => Auth.Next user
    | Auth.Denied _ _ => Auth.Next None
    end.
Proof.
  unfold Auth.authenticateToken, Auth.optionalAuth, Auth.findUser.
  destruct (Auth.token_of h) as [token|]; simpl; [|auth_cases].
  destruct (verify token) as [decoded|name] eqn:Hv; simpl.
  - destruct (Auth.p_userId decoded) as [i|] eqn:Hi; simpl; [|auth_cases].
    destruct (users !! i) as [x|] eqn:Hx; simpl; [|auth_cases].
    destruct (Auth.isActive x) eqn:Ha; simpl; auth_cases.
  - repeat case_bool_decide; auth_cases.
Qed.

Lemma authentication_admits_active_users_witness :
  Auth.authenticateToken Scenario.verify Scenario.users (Some "Bearer good")
  = Auth.Next (Some (1%nat, {| Auth.isActive := true |})) ∧
  Auth.optionalAuth Scenario.verify Scenario.users (Some "Bearer late")
  = Auth.Next None.
Proof.
  destruct (authentication_admits_active_users Scenario.verify Scenario.users
              (Some "Bearer good")) as (H & _).
  destruct (authentication_admits_active_users Scenario.verify Scenario.users
              (Some "Bearer late")) as (_ & _ & _ & H').
  split.
  - apply H. exists "good", {| Auth.p_userId := Some 1%nat; Auth.p_exp := Some 2000 |}.
    repeat split; reflexivity.
  - rewrite H'. reflexivity.
Defined.

(** X30.  [refreshTokenIfNeeded] never stops a request.  It sets the header
    X-New-Token exactly when the header carries a token that [jwt.decode]
    can read, with an expiry less than a day after the present, and
    [generateToken] returns; the new token is the one [generateToken] makes
    for the [userId] of the payload.  The token is decoded, not verified,
    and a token that has already expired is renewed as well. *)
Theorem refresh_renews_expiring_tokens decode sign now h :
  (∀ t, Auth.refreshTokenIfNeeded decode sign now h = Some t ↔
     ∃ token decoded exp,
       Auth.token_of h = Some token ∧ decode token = Some decoded ∧
       Auth.p_exp decoded = Some exp ∧
       1000 * exp < now + 86400000 ∧
       Auth.generateToken sign (Auth.p_userId decoded) = Some t) ∧
  (∀ token decoded exp,
     Auth.token_of h = Some token → decode token = Some decoded →
     Auth.p_exp decoded = Some exp → 1000 * exp ≤ now →
     Auth.refreshTokenIfNeeded decode sign now h
     = Auth.generateToken sign (Auth.p_userId decoded)).
Proof.
  unfold Auth.refreshTokenIfNeeded. split.
  - intros t. destruct (Auth.token_of h) as [token|];
      [|split; [done|by intros (? & ? & ? & ? & _)]].
    destruct (decode token) as [decoded|] eqn:Hd;
      [|split; [done|intros (? & ? & ? & [= <-] & ? & _); congruence]].
    destruct (Auth.p_exp decoded) as [exp|] eqn:He;
      [|split; [done|intros (? & ? & ? & [= <-] & ? & ? & _); congruence]].
    case_bool_decide as Hlt.
    + split; [intros Ht; exists token, decoded, exp; repeat split; done || lia|].
      intros (? & ? & ? & [= <-] & ? & ? & ? & ?). congruence.
    + split; [done|]. intros (? & ? & ? & [= <-] & ? & ? & ? & ?).
      simplify_eq. lia.
  - intros token decoded exp -> -> -> Hexp.
    rewrite bool_decide_eq_true_2; [done|lia].
Qed.

Lemma refresh_renews_expiring_tokens_witness :
  Auth.refreshTokenIfNeeded Scenario.decode Scenario.sign 5000 (Some "Bearer late")
  = Some "fresh".
Proof.
  destruct (refresh_renews_expiring_tokens Scenario.decode Scenario.sign 5000
              (Some "Bearer late")) as (_ & H).
  apply (H "late" {| Auth.p_userId := Some 1%nat; Auth.p_exp := Some 1 |} 1);
    try reflexivity. lia.
Defined.
